(** * Dashboard RMA portal: device validation and replacement

    A shallow embedding of [src/config/meraki.js] (class [MerakiAPI]),
    of the routes of [src/routes/api.js], of the start-up check of the
    server's entry file and of the serial fields and checks of
    [src/public/js/app.js], together with the properties of the
    repository's specification that concern them and with further
    properties of the code.

    Conventions of the embedding.
    - JavaScript strings are [string]; the text handled here is ASCII, where
      [trim] removes the characters 9-13 and 32 and [toUpperCase] maps
      [a-z] to [A-Z].
    - The answers of the platform are typed: a record lists the fields the
      code reads, each with the JSON type the platform documents.  A field
      that may be missing or [null] is an [option]; the truthiness tests of
      the source are written out on it.
    - Every remote call goes through a [Platform]: one typed function per
      endpoint the code uses, threading an arbitrary world state.  A run
      returns its result together with the list of exchanges (request and
      response) it performed, in order.
    - [console.log] and the audit sink [logOperation] do not influence any
      result and are left out. *)

From Stdlib Require Import String Ascii List Bool Arith Lia ZArith.
From Stdlib Require QArith.
From stdpp Require Import base list strings.

Local Open Scope list_scope.

(** ** JavaScript string operations *)

Module Js.

(** White space removed by [String.prototype.trim] in the ASCII range. *)
Definition is_space (c : ascii) : bool :=
  let n := nat_of_ascii c in
  ((9 <=? n) && (n <=? 13)) || (n =? 32).

Fixpoint trimStart (s : string) : string :=
  match s with
  | EmptyString => EmptyString
  | String c s' => if is_space c then trimStart s' else s
  end.

Fixpoint trimEnd (s : string) : string :=
  match s with
  | EmptyString => EmptyString
  | String c s' =>
      match trimEnd s' with
      | EmptyString => if is_space c then EmptyString else String c EmptyString
      | t => String c t
      end
  end.

Definition trim (s : string) : string := trimEnd (trimStart s).

(** [s.trim() !== ''] *)
Definition nonblank (s : string) : bool := negb (String.eqb (trim s) "").

(** A string made of white space only. *)
Fixpoint blank (s : string) : bool :=
  match s with
  | EmptyString => true
  | String c s' => is_space c && blank s'
  end.

Definition upper_char (c : ascii) : ascii :=
  let n := nat_of_ascii c in
  if (97 <=? n) && (n <=? 122) then ascii_of_nat (n - 32) else c.

Fixpoint toUpperCase (s : string) : string :=
  match s with
  | EmptyString => EmptyString
  | String c s' => String (upper_char c) (toUpperCase s')
  end.

(** A text in the ASCII range.  On such a text [trim] and [toUpperCase]
    above are the methods of [String.prototype].  Outside of the range
    [String.prototype.toUpperCase] maps a few more characters onto ASCII
    letters (U+017F onto [S], U+0131 onto [I]), which [toUpperCase] does
    not follow: a statement that compares the upper-cased text with a
    text that was not upper-cased is made for ASCII texts. *)
Fixpoint ascii_text (s : string) : bool :=
  match s with
  | EmptyString => true
  | String c s' => (nat_of_ascii c <? 128) && ascii_text s'
  end.

(** [s.includes(pat)] *)
Fixpoint includes (s pat : string) : bool :=
  String.prefix pat s
  || match s with
     | EmptyString => false
     | String _ s' => includes s' pat
     end.

(** [xs.join(sep)] *)
Definition join (sep : string) (xs : list string) : string :=
  String.concat sep xs.

Definition is_upper_alnum (c : ascii) : bool :=
  let n := nat_of_ascii c in
  ((65 <=? n) && (n <=? 90)) || ((48 <=? n) && (n <=? 57)).

Definition is_alnum (c : ascii) : bool :=
  let n := nat_of_ascii c in
  is_upper_alnum c || ((97 <=? n) && (n <=? 122)).

(** [/^X{4}-X{4}-X{4}$/.test(s)] for a character class [X]. *)
Definition serial_shape (cls : ascii -> bool) (s : string) : bool :=
  match list_ascii_of_string s with
  | [a1; a2; a3; a4; d1; b1; b2; b3; b4; d2; c1; c2; c3; c4] =>
      forallb cls [a1; a2; a3; a4; b1; b2; b3; b4; c1; c2; c3; c4]
      && Ascii.eqb d1 "-"%char && Ascii.eqb d2 "-"%char
  | _ => false
  end.

(** [/^[A-Z0-9]{4}-[A-Z0-9]{4}-[A-Z0-9]{4}$/i] (routes/api.js) *)
Definition serial_pattern_i : string -> bool := serial_shape is_alnum.

(** [/^[A-Z0-9]{4}-[A-Z0-9]{4}-[A-Z0-9]{4}$/] (public/js/app.js) *)
Definition serial_pattern : string -> bool := serial_shape is_upper_alnum.

(** Truthiness of a string-valued field: missing, [null] and [''] are falsy. *)
Definition truthy (o : option string) : bool :=
  match o with
  | Some s => negb (String.eqb s "")
  | None => false
  end.

End Js.

(** ** Errors *)

(** [error.response] of a failed remote call: the HTTP status and, when the
    body carries one, [data.errors]. *)
Record HttpFailure := {
  status : nat;
  errors : option (list string)
}.

(** A thrown value: [error.message] and, for a failed remote call that got
    an answer, [error.response]. *)
Record JsError := {
  message : string;
  response : option HttpFailure
}.

(** [new Error(msg)] *)
Definition Error (msg : string) : JsError :=
  {| message := msg; response := None |}.

(** [error.response?.data?.errors] *)
Definition response_errors (error : JsError) : option (list string) :=
  match response error with
  | Some r => errors r
  | None => None
  end.

(** [error.response?.status] *)
Definition response_status (error : JsError) : option nat :=
  option_map status (response error).

Definition status_is (error : JsError) (code : nat) : bool :=
  match response_status error with
  | Some n => n =? code
  | None => false
  end.

Definition msg_not_found : string :=
  "Resource not found. Please check the serial numbers and organization access.".
Definition msg_forbidden : string :=
  "Access forbidden. Please check API key permissions for this organization.".
Definition msg_rate_limit : string :=
  "Rate limit exceeded. Please try again in a moment.".

(** [MerakiAPI.formatErrorMessage]; [None] is [undefined], the first element
    of an empty [errors] array. *)
Definition formatErrorMessage (error : JsError) : option string :=
  match response_errors error with
  | Some errs => head errs
  | None =>
      if status_is error 404 then Some msg_not_found
      else if status_is error 403 then Some msg_forbidden
      else if status_is error 429 then Some msg_rate_limit
      else Some (message error)
  end.

(** ** Data model: the fields of the platform's JSON that the code reads *)

(** A JSON number, by its value.  [0] is the falsy one. *)
Definition Num := QArith_base.Q.

Definition num_truthy (o : option Num) : bool :=
  match o with
  | Some q => negb (Z.eqb (QArith_base.Qnum q) 0)
  | None => false
  end.

(** An opaque configuration blob, as JSON text. *)
Definition Json := string.

Record Organization := { org_name : string }.

Record Network := { net_id : string; net_name : string }.

(** [GET /networks/{id}/devices/{serial}] *)
Record Device := {
  dev_serial : string;
  dev_name : option string;
  dev_tags : option (list string);
  dev_address : option string;
  dev_lat : option Num;
  dev_lng : option Num;
  dev_floorPlanId : option string;
  dev_notes : option string
}.

(** An entry of [GET /organizations/{id}/inventoryDevices] *)
Record InventoryDevice := {
  inv_serial : string;
  inv_model : option string;
  inv_networkId : option string
}.

(** An entry of [GET /organizations/{id}/devices/statuses] *)
Record DeviceStatus := {
  ds_serial : string;
  ds_status : option string;
  ds_lastReportedAt : option string;
  ds_publicIp : option string;
  ds_lanIp : option string
}.

(** An entry of [GET .../switch/ports]: [portId] and the other fields. *)
Record SwitchPort := { portId : string; port_settings : Json }.

(** [configData], the body of the PUT of step 3. *)
Record ConfigData := {
  cfg_name : string;
  cfg_tags : option (list string);
  cfg_address : option string;
  cfg_lat : option Num;
  cfg_lng : option Num;
  cfg_floorPlanId : option string;
  cfg_notes : string
}.

(** An element of [operations]. *)
Record Operation := {
  step : nat;
  op_message : string;
  op_status : string;
  timestamp : string;
  op_error : option string
}.

(** The outcome of a statement: a value or a thrown error. *)
Inductive Res (A : Type) : Type :=
| Ok (a : A)
| Throw (e : JsError).
Arguments Ok {A} a.
Arguments Throw {A} e.

(** ** The remote platform *)

(** One function per endpoint.  The first argument is the organization
    whose client (and so whose API key) sends the request.  A device body
    of [None] is a [null] body. *)
Record Platform (World : Type) := {
  getOrganization : string -> string -> World -> Res Organization * World;
  getOrganizationNetworks : string -> string -> World -> Res (list Network) * World;
  getNetworkDevice : string -> string -> string -> World -> Res (option Device) * World;
  getInventoryDevices : string -> string -> World -> Res (list InventoryDevice) * World;
  getNetwork : string -> string -> World -> Res Network * World;
  getDeviceStatuses : string -> string -> World -> Res (list DeviceStatus) * World;
  getRadioSettings : string -> string -> string -> World -> Res (option Json) * World;
  getSwitchPorts : string -> string -> string -> World -> Res (option (list SwitchPort)) * World;
  claimDevices : string -> string -> list string -> World -> Res unit * World;
  updateDevice : string -> string -> string -> ConfigData -> World -> Res unit * World;
  updateRadioSettings : string -> string -> string -> Json -> World -> Res unit * World;
  updateSwitchPort : string -> string -> string -> string -> Json -> World -> Res unit * World;
  removeDevice : string -> string -> string -> World -> Res unit * World
}.
Arguments getOrganization {World}.
Arguments getOrganizationNetworks {World}.
Arguments getNetworkDevice {World}.
Arguments getInventoryDevices {World}.
Arguments getNetwork {World}.
Arguments getDeviceStatuses {World}.
Arguments getRadioSettings {World}.
Arguments getSwitchPorts {World}.
Arguments claimDevices {World}.
Arguments updateDevice {World}.
Arguments updateRadioSettings {World}.
Arguments updateSwitchPort {World}.
Arguments removeDevice {World}.

(** A request together with the answer it got. *)
Inductive Exchange : Type :=
| XGetOrganization (client org : string) (r : Res Organization)
| XGetOrganizationNetworks (client org : string) (r : Res (list Network))
| XGetNetworkDevice (client net serial : string) (r : Res (option Device))
| XGetInventoryDevices (client org : string) (r : Res (list InventoryDevice))
| XGetNetwork (client net : string) (r : Res Network)
| XGetDeviceStatuses (client org : string) (r : Res (list DeviceStatus))
| XGetRadioSettings (client net serial : string) (r : Res (option Json))
| XGetSwitchPorts (client net serial : string) (r : Res (option (list SwitchPort)))
| XClaimDevices (client net : string) (serials : list string) (r : Res unit)
| XUpdateDevice (client net serial : string) (cfg : ConfigData) (r : Res unit)
| XUpdateRadioSettings (client net serial : string) (body : Json) (r : Res unit)
| XUpdateSwitchPort (client net serial port : string) (body : Json) (r : Res unit)
| XRemoveDevice (client net serial : string) (r : Res unit).

(** ** The monad of the embedding *)

(** What a run carries along: the platform's world, the number of clock
    readings made so far, and the [operations] array of the current
    [replaceDevice] call (its [catch] block reads what its [try] block
    wrote, so the array lives in the state). *)
Record State (World : Type) := {
  st_world : World;
  st_ticks : nat;
  st_ops : list Operation
}.
Arguments st_world {World}.
Arguments st_ticks {World}.
Arguments st_ops {World}.

(** A computation: outcome, final state, exchanges performed. *)
Definition M (World A : Type) : Type :=
  State World -> Res A * State World * list Exchange.

Section Monad.
Context {World : Type}.

Definition ret {A} (a : A) : M World A := fun s => (Ok a, s, []).

Definition throw {A} (e : JsError) : M World A := fun s => (Throw e, s, []).

Definition bind {A B} (m : M World A) (k : A -> M World B) : M World B :=
  fun s =>
    match m s with
    | (Ok a, s1, l1) => let '(r, s2, l2) := k a s1 in (r, s2, l1 ++ l2)
    | (Throw e, s1, l1) => (Throw e, s1, l1)
    end.

(** [try { m } catch (error) { h error }] *)
Definition try_catch {A} (m : M World A) (h : JsError -> M World A) : M World A :=
  fun s =>
    match m s with
    | (Ok a, s1, l1) => (Ok a, s1, l1)
    | (Throw e, s1, l1) => let '(r, s2, l2) := h e s1 in (r, s2, l1 ++ l2)
    end.

(** One remote call: ask the platform, record the exchange, throw on failure. *)
Definition call {A} (f : World -> Res A * World) (x : Res A -> Exchange) : M World A :=
  fun s =>
    let '(r, w) := f (st_world s) in
    (r, {| st_world := w; st_ticks := st_ticks s; st_ops := st_ops s |}, [x r]).

(** [new Date().toISOString()] for a clock giving the n-th reading. *)
Definition now (clock : nat -> string) : M World string :=
  fun s =>
    (Ok (clock (st_ticks s)),
     {| st_world := st_world s; st_ticks := S (st_ticks s); st_ops := st_ops s |}, []).

Definition get_ops : M World (list Operation) := fun s => (Ok (st_ops s), s, []).

Definition put_ops (ops : list Operation) : M World unit :=
  fun s => (Ok tt, {| st_world := st_world s; st_ticks := st_ticks s; st_ops := ops |}, []).

End Monad.

Declare Scope meraki_scope.
Delimit Scope meraki_scope with meraki.
Notation "'let*' x ':=' m 'in' k" := (bind m (fun x => k))
  (at level 10, x pattern, m at level 100, k at level 200,
   format "'[v' 'let*'  x  ':='  m  'in' '/' k ']'") : meraki_scope.
Notation "m ';;' k" := (bind m (fun _ => k))
  (at level 100, k at level 200, right associativity) : meraki_scope.
Local Open Scope meraki_scope.

(** ** The organization registry (constructor of [MerakiAPI]) *)

(** A JavaScript [Map] from strings to strings, as its entries in
    iteration (insertion) order. *)
Definition StringMap := list (string * string).

(** [Map.prototype.set]: a new key goes last, an old key keeps its place. *)
Fixpoint map_set (k v : string) (m : StringMap) : StringMap :=
  match m with
  | [] => [(k, v)]
  | (k', v') :: m' =>
      if String.eqb k' k then (k, v) :: m' else (k', v') :: map_set k v m'
  end.

Definition map_has (k : string) (m : StringMap) : bool :=
  existsb (fun e => String.eqb (fst e) k) m.

(** [Array.from(m.keys())] *)
Definition map_keys (m : StringMap) : list string := map fst m.

(** [s.split(sep)] for a one-character separator. *)
Fixpoint split (sep : ascii) (s : string) : list string :=
  match s with
  | EmptyString => [EmptyString]
  | String c s' =>
      if Ascii.eqb c sep then EmptyString :: split sep s'
      else match split sep s' with
           | h :: t => String c h :: t
           | [] => [String c EmptyString]
           end
  end.

(** The loop of the constructor over [orgMappings.split(',')]. *)
Fixpoint parse_mappings (mappings : list string) (organizations : StringMap)
  : Res StringMap :=
  match mappings with
  | [] => Ok organizations
  | mapping :: rest =>
      match split ":" (Js.trim mapping) with
      | orgId :: apiKey :: _ =>
          if negb (String.eqb orgId "") && negb (String.eqb apiKey "")
          then parse_mappings rest (map_set (Js.trim orgId) (Js.trim apiKey) organizations)
          else Throw (Error ("Invalid mapping format: " +:+ mapping
                             +:+ ". Expected format: ORG_ID:API_KEY"))
      | _ => Throw (Error ("Invalid mapping format: " +:+ mapping
                           +:+ ". Expected format: ORG_ID:API_KEY"))
      end
  end.

(** [new MerakiAPI()], given [process.env.MERAKI_ORGS]: the map
    [this.organizations]; [this.clients] has the same keys. *)
Definition MerakiAPI_constructor (MERAKI_ORGS : option string) : Res StringMap :=
  if Js.truthy MERAKI_ORGS then
    match parse_mappings (split "," (default "" MERAKI_ORGS)) [] with
    | Ok organizations => Ok organizations
    | Throw error => Throw (Error ("Failed to parse MERAKI_ORGS: " +:+ message error))
    end
  else
    Throw (Error "MERAKI_ORGS environment variable is required (format: ORG_ID:API_KEY,ORG_ID:API_KEY)").

(** ** Results *)

(** What the search loop of [validateDevices] leaves in [failedDevice],
    [networkId], [foundOrganizationId] and [foundOrganization]. *)
Record Found := {
  failedDevice : Device;
  foundNetwork : Network;
  foundOrganizationId : string;
  foundOrganization : Organization
}.

(** The four fields [getEnhancedDeviceInfo] adds. *)
Record LiveStatus := {
  live_status : string;
  lastReportedAt : option string;
  publicIp : option string;
  lanIp : option string
}.

Inductive ValidationResult : Type :=
| ValidationSuccess (failed : Found) (live : option LiveStatus)
    (replacement : InventoryDevice)
    (networkId organizationId organizationName : string)
| ValidationFailure (msg : option string).

Definition validation_success (v : ValidationResult) : bool :=
  match v with
  | ValidationSuccess _ _ _ _ _ _ => true
  | ValidationFailure _ => false
  end.

Record Summary := {
  sum_failedDevice : string;
  sum_replacementDevice : string;
  sum_networkId : string;
  sum_organizationId : string;
  hostnameTransferred : string;
  configurationTypes : list string
}.

Record ReplaceResult := {
  success : bool;
  res_message : option string;
  operations : list Operation;
  summary : option Summary
}.

(** ** Pure parts of [replaceDevice] *)

(** [error.response?.data?.errors?.[0]?.includes('already claimed')] *)
Definition already_claimed (error : JsError) : bool :=
  match response_errors error with
  | Some (first :: _) => Js.includes first "already claimed"
  | _ => false
  end.

Definition replacementNote (failedSerial stamp : string) : string :=
  "[Replaced " +:+ failedSerial +:+ " on " +:+ stamp +:+ "]".

(** [configData.notes], lines 353-360. *)
Definition config_notes (notes : option string) (failedSerial stamp : string) : string :=
  let originalNotes := default "" notes in
  if Js.nonblank originalNotes
  then originalNotes +:+ " " +:+ replacementNote failedSerial stamp
  else replacementNote failedSerial stamp.

(** [configData], lines 318-360; [stamp] is the clock reading of line 354. *)
Definition buildConfigData (failedDevice : Device)
    (failedSerial replacementSerial stamp : string) : ConfigData :=
  {| cfg_name :=
       match dev_name failedDevice with
       | Some name => if Js.nonblank name then name else replacementSerial
       | None => replacementSerial
       end;
     cfg_tags :=
       match dev_tags failedDevice with
       | Some (t :: ts) => Some (t :: ts)
       | _ => None
       end;
     cfg_address :=
       match dev_address failedDevice with
       | Some a => if Js.nonblank a then Some a else None
       | None => None
       end;
     cfg_lat :=
       if num_truthy (dev_lat failedDevice) && num_truthy (dev_lng failedDevice)
       then dev_lat failedDevice else None;
     cfg_lng :=
       if num_truthy (dev_lat failedDevice) && num_truthy (dev_lng failedDevice)
       then dev_lng failedDevice else None;
     cfg_floorPlanId :=
       if Js.truthy (dev_floorPlanId failedDevice)
       then dev_floorPlanId failedDevice else None;
     cfg_notes := config_notes (dev_notes failedDevice) failedSerial stamp |}.

Definition set_completed (op : Operation) : Operation :=
  {| step := step op; op_message := op_message op; op_status := "completed";
     timestamp := timestamp op; op_error := op_error op |}.

Definition set_failed (msg : string) (op : Operation) : Operation :=
  {| step := step op; op_message := op_message op; op_status := "failed";
     timestamp := timestamp op; op_error := Some msg |}.

(** The double quote character, as a string. *)
Definition dquote : string := String (ascii_of_nat 34) EmptyString.

(** [x || null] on a string field *)
Definition or_null (o : option string) : option string :=
  if Js.truthy o then o else None.

(** The fields [getEnhancedDeviceInfo] adds to [device], from the answer
    of the status endpoint. *)
Definition enhance (device : Device) (statuses : list DeviceStatus) : LiveStatus :=
  let deviceStatus :=
    find (fun st => String.eqb (ds_serial st) (dev_serial device)) statuses in
  {| live_status :=
       match deviceStatus with
       | Some st => if Js.truthy (ds_status st)
                    then default "" (ds_status st) else "unknown"
       | None => "unknown"
       end;
     lastReportedAt :=
       match deviceStatus with
       | Some st => or_null (ds_lastReportedAt st) | None => None end;
     publicIp :=
       match deviceStatus with
       | Some st => or_null (ds_publicIp st) | None => None end;
     lanIp :=
       match deviceStatus with
       | Some st => or_null (ds_lanIp st) | None => None end |}.

(** [inventory.find(device => device.serial === replacementSerial)] *)
Definition find_serial (replacementSerial : string) (inventory : list InventoryDevice)
    : option InventoryDevice :=
  find (fun device => String.eqb (inv_serial device) replacementSerial) inventory.

(** ** [MerakiAPI]: the methods that talk to the platform *)

Section MerakiAPI.
Context {World : Type}.
Variable P : Platform World.
(** The n-th reading of the clock, as [toISOString] prints it. *)
Variable clock : nat -> string.
(** [this.organizations] *)
Variable organizations : StringMap.

Local Abbreviation M := (M World).

(** [getClient]: the client of an organization is named by its id. *)
Definition getClient (organizationId : string) : M string :=
  if map_has organizationId organizations then ret organizationId
  else throw (Error ("No API client configured for organization " +:+ organizationId)).

(** The loop over [networks], lines 131-160: a lookup that fails, with 404
    or otherwise, or that answers a [null] body, moves on to the next
    network; the first device found ends the loop. *)
Fixpoint search_networks (client orgId : string) (organization : Organization)
    (failedSerial : string) (networks : list Network) : M (option Found) :=
  match networks with
  | [] => ret None
  | network :: rest =>
      let* data :=
        try_catch
          (call (getNetworkDevice P client (net_id network) failedSerial)
                (XGetNetworkDevice client (net_id network) failedSerial))
          (fun _ => ret None) in
      match data with
      | Some device =>
          ret (Some {| failedDevice := device;
                       foundNetwork := network;
                       foundOrganizationId := orgId;
                       foundOrganization := organization |})
      | None => search_networks client orgId organization failedSerial rest
      end
  end.

(** The loop over [this.organizations], lines 115-168: an organization
    whose metadata or network list cannot be read is skipped. *)
Fixpoint search_organizations (failedSerial : string) (orgs : StringMap)
    : M (option Found) :=
  match orgs with
  | [] => ret None
  | (orgId, _) :: rest =>
      let* found :=
        try_catch
          (let* client := getClient orgId in
           let* organization :=
             call (getOrganization P client orgId) (XGetOrganization client orgId) in
           let* networks :=
             call (getOrganizationNetworks P client orgId)
                  (XGetOrganizationNetworks client orgId) in
           search_networks client orgId organization failedSerial networks)
          (fun _ => ret None) in
      match found with
      | Some f => ret (Some f)
      | None => search_organizations failedSerial rest
      end
  end.

(** [getEnhancedDeviceInfo]: the live status of the device, or nothing
    when it cannot be read. *)
Definition getEnhancedDeviceInfo (device : Device) (organizationId : string)
    : M (option LiveStatus) :=
  try_catch
    (let* client := getClient organizationId in
     let* statuses :=
       call (getDeviceStatuses P client organizationId)
            (XGetDeviceStatuses client organizationId) in
     ret (Some (enhance device statuses)))
    (fun _ => ret None).

(** [replacementDevice.networkId && replacementDevice.networkId !== networkId] *)
Definition claimed_elsewhere (replacementDevice : InventoryDevice) (networkId : string)
    : option string :=
  match inv_networkId replacementDevice with
  | Some n =>
      if negb (String.eqb n "") && negb (String.eqb n networkId) then Some n else None
  | None => None
  end.

Definition msg_failed_not_found (failedSerial : string) : string :=
  "Failed device " +:+ failedSerial
  +:+ " not found in any of the configured organizations: "
  +:+ Js.join ", " (map_keys organizations).

Definition msg_replacement_not_found (replacementSerial organizationName : string)
    : string :=
  "Replacement device " +:+ replacementSerial +:+ " not found in organization "
  +:+ organizationName
  +:+ " inventory. Device must be in the same organization as the failed device.".

Definition msg_claim_conflict (networkName : string) : string :=
  "Replacement device is already claimed by network: " +:+ networkName.

(** The part of [validateDevices] after the search, lines 174-210. *)
Definition validate_replacement (f : Found) (replacementSerial : string)
    : M ValidationResult :=
  let networkId := net_id (foundNetwork f) in
  let* client := getClient (foundOrganizationId f) in
  let* inventory :=
    call (getInventoryDevices P client (foundOrganizationId f))
         (XGetInventoryDevices client (foundOrganizationId f)) in
  match find_serial replacementSerial inventory with
  | None =>
      throw (Error (msg_replacement_not_found replacementSerial
                      (org_name (foundOrganization f))))
  | Some replacementDevice =>
      (match claimed_elsewhere replacementDevice networkId with
       | Some other =>
           let* claimedNetwork :=
             call (getNetwork P client other) (XGetNetwork client other) in
           throw (Error (msg_claim_conflict (net_name claimedNetwork)))
       | None => ret tt
       end);;
      let* live := getEnhancedDeviceInfo (failedDevice f) (foundOrganizationId f) in
      ret (ValidationSuccess f live replacementDevice networkId
             (foundOrganizationId f) (org_name (foundOrganization f)))
  end.

(** [validateDevices] *)
Definition validateDevices (failedSerial replacementSerial : string)
    : M ValidationResult :=
  try_catch
    (let* found := search_organizations failedSerial organizations in
     match found with
     | None => throw (Error (msg_failed_not_found failedSerial))
     | Some f => validate_replacement f replacementSerial
     end)
    (fun error => ret (ValidationFailure (formatErrorMessage error))).

(** [operations.push({ step, message, status: "in-progress", timestamp })] *)
Definition push_operation (n : nat) (msg : string) : M unit :=
  let* t := now clock in
  let* ops := get_ops in
  put_ops (ops ++ [{| step := n; op_message := msg; op_status := "in-progress";
                      timestamp := t; op_error := None |}]).

(** [operations[i].status = "completed"]; on a missing element the
    assignment throws. *)
Definition complete_operation (i : nat) : M unit :=
  let* ops := get_ops in
  match ops !! i with
  | Some _ => put_ops (alter set_completed i ops)
  | None => throw (Error "Cannot set properties of undefined (setting 'status')")
  end.

(** The loop over [switchPorts], lines 379-384. *)
Fixpoint put_switch_ports (client networkId replacementSerial : string)
    (ports : list SwitchPort) : M unit :=
  match ports with
  | [] => ret tt
  | port :: rest =>
      call (updateSwitchPort P client networkId replacementSerial
              (portId port) (port_settings port))
           (XUpdateSwitchPort client networkId replacementSerial
              (portId port) (port_settings port));;
      put_switch_ports client networkId replacementSerial rest
  end.

Definition make_summary (failedSerial replacementSerial networkId organizationId : string)
    (configData : ConfigData) (radioSettings : option Json)
    (switchPorts : option (list SwitchPort)) : Summary :=
  {| sum_failedDevice := failedSerial;
     sum_replacementDevice := replacementSerial;
     sum_networkId := networkId;
     sum_organizationId := organizationId;
     hostnameTransferred := cfg_name configData;
     configurationTypes :=
       [ "Hostname: " +:+ dquote +:+ cfg_name configData +:+ dquote;
         "Device location and tags" ]
       ++ match radioSettings with
          | Some _ => ["Wireless radio settings"] | None => [] end
       ++ match switchPorts with
          | Some _ => ["Switch port settings"] | None => [] end |}.

(** A best-effort read, lines 260-271 and 274-285: the variable keeps
    [null] when the request fails, for whatever reason. *)
Definition read_optional {A : Type} (m : M (option A)) : M (option A) :=
  try_catch m (fun _ => ret None).

(** The claim of step 2, lines 296-307: an error whose first message
    includes "already claimed" is swallowed, any other is thrown again. *)
Definition claim_replacement (client networkId replacementSerial : string) : M unit :=
  try_catch
    (call (claimDevices P client networkId [replacementSerial])
          (XClaimDevices client networkId [replacementSerial]))
    (fun error => if already_claimed error then ret tt else throw error).

(** The best-effort part of step 3, lines 366-389: the radio settings if
    there are any, then the switch ports if there are any; a failure ends
    the block it occurs in and nothing more. *)
Definition apply_optional_settings (client networkId replacementSerial : string)
    (radioSettings : option Json) (switchPorts : option (list SwitchPort)) : M unit :=
  match radioSettings with
  | Some settings =>
      try_catch
        (call (updateRadioSettings P client networkId replacementSerial settings)
              (XUpdateRadioSettings client networkId replacementSerial settings))
        (fun _ => ret tt)
  | None => ret tt
  end;;
  match switchPorts with
  | Some (port :: ports) =>
      try_catch
        (put_switch_ports client networkId replacementSerial (port :: ports))
        (fun _ => ret tt)
  | _ => ret tt
  end.

(** The [try] block of [replaceDevice], lines 244-439. *)
Definition replace_steps (failedSerial replacementSerial networkId organizationId : string)
    : M ReplaceResult :=
  let* client := getClient organizationId in
  (* step 1 *)
  push_operation 1 "Retrieving failed device configuration";;
  let* data :=
    call (getNetworkDevice P client networkId failedSerial)
         (XGetNetworkDevice client networkId failedSerial) in
  let* failedDevice :=
    match data with
    | Some d => ret d
    | None => throw (Error "Cannot read properties of null (reading 'name')")
    end in
  let* radioSettings :=
    read_optional
      (call (getRadioSettings P client networkId failedSerial)
            (XGetRadioSettings client networkId failedSerial)) in
  let* switchPorts :=
    read_optional
      (call (getSwitchPorts P client networkId failedSerial)
            (XGetSwitchPorts client networkId failedSerial)) in
  complete_operation 0;;
  (* step 2 *)
  push_operation 2 "Claiming replacement device to network";;
  claim_replacement client networkId replacementSerial;;
  complete_operation 1;;
  (* step 3 *)
  push_operation 3 "Applying configuration to replacement device";;
  let* stamp := now clock in
  let configData := buildConfigData failedDevice failedSerial replacementSerial stamp in
  call (updateDevice P client networkId replacementSerial configData)
       (XUpdateDevice client networkId replacementSerial configData);;
  apply_optional_settings client networkId replacementSerial radioSettings switchPorts;;
  complete_operation 2;;
  (* step 4 *)
  push_operation 4 "Removing failed device from network";;
  call (removeDevice P client networkId failedSerial)
       (XRemoveDevice client networkId failedSerial);;
  complete_operation 3;;
  let* operations := get_ops in
  ret {| success := true;
         res_message :=
           Some ("Device replacement completed successfully in organization "
                 +:+ organizationId);
         operations := operations;
         summary :=
           Some (make_summary failedSerial replacementSerial networkId
                   organizationId configData radioSettings switchPorts) |}.

(** The [catch] block of [replaceDevice], lines 441-465. *)
Definition replace_failed (error : JsError) : M ReplaceResult :=
  let* ops := get_ops in
  (if 0 <? length ops
   then put_ops (alter (set_failed (message error)) (length ops - 1) ops)
   else ret tt);;
  let* operations := get_ops in
  ret {| success := false;
         res_message := formatErrorMessage error;
         operations := operations;
         summary := None |}.

(** [replaceDevice] *)
Definition replaceDevice (failedSerial replacementSerial networkId organizationId : string)
    : M ReplaceResult :=
  put_ops [];;
  try_catch
    (replace_steps failedSerial replacementSerial networkId organizationId)
    replace_failed.

End MerakiAPI.

(** ** The routes of [routes/api.js] *)

(** What a handler sends back. *)
Inductive Reply (A : Type) : Type :=
| Status400 (validation_errors : list string)
| JsonBody (body : A)
| Status500 (msg : string).
Arguments Status400 {A}.
Arguments JsonBody {A}.
Arguments Status500 {A}.

(** [serialValidation] followed by [validationResult(req)] on a body whose
    two fields are strings: both are trimmed in place, and each must match
    the pattern.  [serialValidation_body] below takes any body. *)
Definition serialValidation (failedSerial replacementSerial : string)
    : string * string * list string :=
  let f := Js.trim failedSerial in
  let r := Js.trim replacementSerial in
  (f, r,
   (if Js.serial_pattern_i f then []
    else ["Invalid failed device serial format (should be XXXX-XXXX-XXXX)"])
   ++ (if Js.serial_pattern_i r then []
       else ["Invalid replacement device serial format (should be XXXX-XXXX-XXXX)"])).

Section Routes.
Context {World : Type}.
Variable P : Platform World.
Variable clock : nat -> string.
Variable organizations : StringMap.

(** [POST /validate-devices] on a body whose two fields are strings, as
    the page sends it; [post_validate_devices_body] below is the handler on
    any body, where [toUpperCase] may throw. *)
Definition post_validate_devices (failedSerial replacementSerial : string)
    : M World (Reply ValidationResult) :=
  let '(f, r, errs) := serialValidation failedSerial replacementSerial in
  match errs with
  | _ :: _ => ret (Status400 errs)
  | [] =>
      try_catch
        (let* result :=
           validateDevices P organizations (Js.toUpperCase f) (Js.toUpperCase r) in
         ret (JsonBody result))
        (fun _ => ret (Status500 "Internal server error during validation"))
  end.

(** [POST /replace-device] on a body whose two fields are strings;
    [post_replace_device_body] below is the handler on any body. *)
Definition post_replace_device (failedSerial replacementSerial : string)
    : M World (Reply (ValidationResult + ReplaceResult)) :=
  let '(f, r, errs) := serialValidation failedSerial replacementSerial in
  match errs with
  | _ :: _ => ret (Status400 errs)
  | [] =>
      try_catch
        (let* validation :=
           validateDevices P organizations (Js.toUpperCase f) (Js.toUpperCase r) in
         match validation with
         | ValidationFailure _ => ret (JsonBody (inl validation))
         | ValidationSuccess _ _ _ networkId organizationId _ =>
             let* result :=
               replaceDevice P clock organizations
                 (Js.toUpperCase f) (Js.toUpperCase r) networkId organizationId in
             ret (JsonBody (inr result))
         end)
        (fun _ => ret (Status500 "Internal server error during replacement"))
  end.

End Routes.

(** ** The browser side, [public/js/app.js] *)

(** What [validateDevices] of the page does with the two input fields:
    it shows a warning, or it sends the request. *)
Inductive ClientAction : Type :=
| ShowAlert (msg kind : string)
| FetchValidateDevices (failedSerial replacementSerial : string).

Definition validateSerialFormat (serial : string) : bool :=
  Js.serial_pattern (Js.toUpperCase (Js.trim serial)).

(** [MerakiReplacementPortal.validateDevices], up to the [fetch]. *)
Definition portal_validateDevices (failedInput replacementInput : string) : ClientAction :=
  let failedSerial := Js.toUpperCase (Js.trim failedInput) in
  let replacementSerial := Js.toUpperCase (Js.trim replacementInput) in
  if negb (validateSerialFormat failedSerial) || negb (validateSerialFormat replacementSerial)
  then ShowAlert "Please enter valid serial numbers in XXXX-XXXX-XXXX format" "warning"
  else if String.eqb failedSerial replacementSerial
  then ShowAlert "Failed and replacement serial numbers cannot be the same" "warning"
  else FetchValidateDevices failedSerial replacementSerial.

(** ** Running a computation *)

Definition initial {World : Type} (w : World) : State World :=
  {| st_world := w; st_ticks := 0; st_ops := [] |}.

(** The three components of a finished run. *)
Definition res_of {World A : Type} (x : Res A * State World * list Exchange) : Res A :=
  fst (fst x).
Definition state_of {World A : Type} (x : Res A * State World * list Exchange)
    : State World :=
  snd (fst x).
Definition log_of {World A : Type} (x : Res A * State World * list Exchange)
    : list Exchange :=
  snd x.

(** ** More string operations *)

Module JsText.

(** [s.substring(0, n)], [s.slice(0, n)] *)
Fixpoint take (n : nat) (s : string) : string :=
  match n, s with
  | S n', String c s' => String c (take n' s')
  | _, _ => EmptyString
  end.

(** [s.substring(n)], [s.slice(n)] *)
Fixpoint drop (n : nat) (s : string) : string :=
  match n, s with
  | S n', String _ s' => drop n' s'
  | _, _ => s
  end.

(** [s.substring(i)] for an index that may be negative: it counts as 0. *)
Definition substring_from (i : Z) (s : string) : string := drop (Z.to_nat i) s.

(** [s.slice(a, b)] for [0 <= a <= b] *)
Definition slice (a b : nat) (s : string) : string := take (b - a) (drop a s).

(** [s.replace(/[^A-Za-z0-9]/g, '')] *)
Fixpoint keep_alnum (s : string) : string :=
  match s with
  | EmptyString => EmptyString
  | String c s' => if Js.is_alnum c then String c (keep_alnum s') else keep_alnum s'
  end.

End JsText.

(** The masked credential of [getAllOrganizationsInfo]:
    [apiKey.substring(0, 6) + '...' + apiKey.substring(apiKey.length - 4)]. *)
Definition apiKeyMasked (apiKey : string) : string :=
  JsText.take 6 apiKey +:+ "..."
  +:+ JsText.substring_from (Z.of_nat (String.length apiKey) - 4) apiKey.

(** ** [MerakiAPI]: the read-only queries *)

(** An element of the [organizations] array of [getAllOrganizationsInfo]. *)
Record OrganizationInfo := {
  oi_id : string;
  oi_name : string;
  oi_url : option string;
  oi_networkCount : option nat;
  oi_accessible : bool;
  oi_error : option string;
  oi_apiKeyMasked : string
}.

(** An element of the [results] array of [searchDeviceAcrossOrganizations]. *)
Record SearchResult := {
  sr_device : Device;
  sr_organizationId : string;
  sr_organizationName : string;
  sr_networkId : string;
  sr_networkName : string
}.

Record SearchReply := {
  search_success : bool;
  results : list SearchResult;
  found : bool
}.

(** What [getOrganizationInfo] returns. *)
Inductive OrganizationReply : Type :=
| OrganizationFound (organization : Organization)
| OrganizationFailure (msg : option string).

Section MerakiQueries.
Context {World : Type}.
Variable P : Platform World.
Variable organizations : StringMap.
(** [orgResponse.data.url], a field the record [Organization] does not list. *)
Variable org_url : Organization -> option string.

Local Abbreviation M := (M World).

(** The loop of [getAllOrganizationsInfo], lines 514-537. *)
Fixpoint organizations_info (orgs : StringMap) : M (list OrganizationInfo) :=
  match orgs with
  | [] => ret []
  | (orgId, apiKey) :: rest =>
      let* info :=
        try_catch
          (let* client := getClient organizations orgId in
           let* organization :=
             call (getOrganization P client orgId) (XGetOrganization client orgId) in
           let* networks :=
             call (getOrganizationNetworks P client orgId)
                  (XGetOrganizationNetworks client orgId) in
           ret {| oi_id := orgId;
                  oi_name := org_name organization;
                  oi_url := org_url organization;
                  oi_networkCount := Some (length networks);
                  oi_accessible := true;
                  oi_error := None;
                  oi_apiKeyMasked := apiKeyMasked apiKey |})
          (fun error =>
             ret {| oi_id := orgId;
                    oi_name := "Unknown";
                    oi_url := None;
                    oi_networkCount := None;
                    oi_accessible := false;
                    oi_error := formatErrorMessage error;
                    oi_apiKeyMasked := apiKeyMasked apiKey |}) in
      let* more := organizations_info rest in
      ret (info :: more)
  end.

(** [getAllOrganizationsInfo]; [success] is always [true]. *)
Definition getAllOrganizationsInfo : M (list OrganizationInfo) :=
  organizations_info organizations.

(** The loop over [networks] of [searchDeviceAcrossOrganizations],
    lines 558-574: every network is looked into. *)
Fixpoint collect_networks (client orgId : string) (organization : Organization)
    (serial : string) (networks : list Network) : M (list SearchResult) :=
  match networks with
  | [] => ret []
  | network :: rest =>
      let* data :=
        try_catch
          (call (getNetworkDevice P client (net_id network) serial)
                (XGetNetworkDevice client (net_id network) serial))
          (fun _ => ret None) in
      let* more := collect_networks client orgId organization serial rest in
      ret (match data with
           | Some device =>
               {| sr_device := device;
                  sr_organizationId := orgId;
                  sr_organizationName := org_name organization;
                  sr_networkId := net_id network;
                  sr_networkName := net_name network |} :: more
           | None => more
           end)
  end.

(** The loop over [this.organizations], lines 549-579. *)
Fixpoint collect_organizations (serial : string) (orgs : StringMap)
    : M (list SearchResult) :=
  match orgs with
  | [] => ret []
  | (orgId, _) :: rest =>
      let* here :=
        try_catch
          (let* client := getClient organizations orgId in
           let* organization :=
             call (getOrganization P client orgId) (XGetOrganization client orgId) in
           let* networks :=
             call (getOrganizationNetworks P client orgId)
                  (XGetOrganizationNetworks client orgId) in
           collect_networks client orgId organization serial networks)
          (fun _ => ret []) in
      let* more := collect_organizations serial rest in
      ret (here ++ more)
  end.

(** [searchDeviceAcrossOrganizations] *)
Definition searchDeviceAcrossOrganizations (serial : string) : M SearchReply :=
  let* results := collect_organizations serial organizations in
  ret {| search_success := true;
         results := results;
         found := 0 <? length results |}.

(** [getOrganizationInfo]: the first key of the registry.  Without one
    the key is [undefined], which no registry holds, so that [getClient]
    throws with that word in its message. *)
Definition getOrganizationInfo : M OrganizationReply :=
  try_catch
    (let firstOrgId := default "undefined" (head (map_keys organizations)) in
     let* client := getClient organizations firstOrgId in
     let* organization :=
       call (getOrganization P client firstOrgId) (XGetOrganization client firstOrgId) in
     ret (OrganizationFound organization))
    (fun error => ret (OrganizationFailure (formatErrorMessage error))).

(** The loop of [getNetworks], lines 612-625: each network with the id of
    its organization. *)
Fixpoint collect_all_networks (orgs : StringMap) (allNetworks : list (Network * string))
    : M (list (Network * string)) :=
  match orgs with
  | [] => ret allNetworks
  | (orgId, _) :: rest =>
      let* allNetworks' :=
        try_catch
          (let* client := getClient organizations orgId in
           let* networks :=
             call (getOrganizationNetworks P client orgId)
                  (XGetOrganizationNetworks client orgId) in
           ret (allNetworks ++ map (fun network => (network, orgId)) networks))
          (fun _ => ret allNetworks) in
      collect_all_networks rest allNetworks'
  end.

(** [getNetworks]: the networks, or the message of the outer [catch]. *)
Definition getNetworks : M (list (Network * string) + option string) :=
  try_catch
    (let* allNetworks := collect_all_networks organizations [] in
     ret (inl allNetworks))
    (fun error => ret (inr (formatErrorMessage error))).

End MerakiQueries.

(** ** The other routes and the start-up check *)

(** The body of [GET /health] when all goes well. *)
Record HealthDetail := {
  hd_id : string;
  hd_name : string;
  hd_accessible : bool;
  hd_networkCount : nat;
  hd_error : option string
}.

Record Health := {
  health_success : bool;
  health_message : string;
  health_timestamp : string;
  health_total : nat;
  health_accessible : nat;
  health_details : list HealthDetail
}.

(** A field of a request body as [express-validator] reads it: an array
    by the texts of its items, anything else by its text (the empty text
    for a field that is missing or [null]). *)
Inductive BodyField : Type :=
| FieldText (text : string)
| FieldArray (items : list string).

(** One chain of [serialValidation] on a field: [trim] writes the trimmed
    text back into the body, item by item for an array, and [matches]
    reports an error for each text that does not match. *)
Definition check_field (msg : string) (field : BodyField) : BodyField * list string :=
  match field with
  | FieldText text =>
      let t := Js.trim text in
      (FieldText t, if Js.serial_pattern_i t then [] else [msg])
  | FieldArray items =>
      let ts := map Js.trim items in
      (FieldArray ts,
       flat_map (fun t => if Js.serial_pattern_i t then [] else [msg]) ts)
  end.

(** [serialValidation] followed by [validationResult(req)], on any body. *)
Definition serialValidation_body (failedSerial replacementSerial : BodyField)
    : BodyField * BodyField * list string :=
  let '(f, ef) :=
    check_field "Invalid failed device serial format (should be XXXX-XXXX-XXXX)"
      failedSerial in
  let '(r, er) :=
    check_field "Invalid replacement device serial format (should be XXXX-XXXX-XXXX)"
      replacementSerial in
  (f, r, ef ++ er).

Section MoreRoutes.
Context {World : Type}.
Variable P : Platform World.
Variable clock : nat -> string.
Variable organizations : StringMap.
Variable org_url : Organization -> option string.

(** [GET /search-device/:serial]: the parameter is tested as it comes. *)
Definition get_search_device (serial : string) : M World (Reply SearchReply) :=
  if negb (Js.serial_pattern_i serial)
  then ret (Status400 ["Invalid serial number format (should be XXXX-XXXX-XXXX)"])
  else
    try_catch
      (let* result :=
         searchDeviceAcrossOrganizations P organizations (Js.toUpperCase serial) in
       ret (JsonBody result))
      (fun _ => ret (Status500 "Failed to search for device")).

(** [GET /health] *)
Definition get_health : M World (Reply Health) :=
  try_catch
    (let* allOrgsInfo := getAllOrganizationsInfo P organizations org_url in
     let accessibleOrgs := filter (fun org => oi_accessible org = true) allOrgsInfo in
     let* stamp := now clock in
     ret (JsonBody
            {| health_success := true;
               health_message := "API is healthy";
               health_timestamp := stamp;
               health_total := length allOrgsInfo;
               health_accessible := length accessibleOrgs;
               health_details :=
                 map (fun org =>
                        {| hd_id := oi_id org;
                           hd_name := oi_name org;
                           hd_accessible := oi_accessible org;
                           hd_networkCount := default 0 (oi_networkCount org);
                           hd_error := or_null (oi_error org) |})
                     allOrgsInfo |}))
    (fun _ => ret (Status500 "API health check failed")).

(** [field.toUpperCase()]: a string has the method, an array has not. *)
Definition field_toUpperCase (name : string) (field : BodyField) : M World string :=
  match field with
  | FieldText text => ret (Js.toUpperCase text)
  | FieldArray _ => throw (Error (name +:+ ".toUpperCase is not a function"))
  end.

(** [POST /validate-devices] on any body; [post_validate_devices] is this
    handler on a body whose two fields are strings. *)
Definition post_validate_devices_body (failedSerial replacementSerial : BodyField)
    : M World (Reply ValidationResult) :=
  let '(f, r, errs) := serialValidation_body failedSerial replacementSerial in
  match errs with
  | _ :: _ => ret (Status400 errs)
  | [] =>
      try_catch
        (let* failedUpper := field_toUpperCase "failedSerial" f in
         let* replacementUpper := field_toUpperCase "replacementSerial" r in
         let* result :=
           validateDevices P organizations failedUpper replacementUpper in
         ret (JsonBody result))
        (fun _ => ret (Status500 "Internal server error during validation"))
  end.

(** [POST /replace-device] on any body; [post_replace_device] is this
    handler on a body whose two fields are strings. *)
Definition post_replace_device_body (failedSerial replacementSerial : BodyField)
    : M World (Reply (ValidationResult + ReplaceResult)) :=
  let '(f, r, errs) := serialValidation_body failedSerial replacementSerial in
  match errs with
  | _ :: _ => ret (Status400 errs)
  | [] =>
      try_catch
        (let* failedUpper := field_toUpperCase "failedSerial" f in
         let* replacementUpper := field_toUpperCase "replacementSerial" r in
         let* validation :=
           validateDevices P organizations failedUpper replacementUpper in
         match validation with
         | ValidationFailure _ => ret (JsonBody (inl validation))
         | ValidationSuccess _ _ _ networkId organizationId _ =>
             let* failedUpper' := field_toUpperCase "failedSerial" f in
             let* replacementUpper' := field_toUpperCase "replacementSerial" r in
             let* result :=
               replaceDevice P clock organizations
                 failedUpper' replacementUpper' networkId organizationId in
             ret (JsonBody (inr result))
         end)
        (fun _ => ret (Status500 "Internal server error during replacement"))
  end.

End MoreRoutes.

(** [verifyOrganizationAccess] of the server's entry file, given
    [process.env.MERAKI_ORGS]: the registry is built anew, and the answer
    is whether some organization is accessible. *)
Definition verifyOrganizationAccess {World : Type} (P : Platform World)
    (org_url : Organization -> option string) (MERAKI_ORGS : option string)
    : M World bool :=
  try_catch
    (if negb (Js.truthy MERAKI_ORGS) then ret false
     else
       match MerakiAPI_constructor MERAKI_ORGS with
       | Throw error => throw error
       | Ok organizations =>
           let* allOrgsInfo := getAllOrganizationsInfo P organizations org_url in
           let accessibleOrgs :=
             filter (fun org => oi_accessible org = true) allOrgsInfo in
           if length accessibleOrgs =? 0 then ret false else ret true
       end)
    (fun _ => ret false).

(** ** The serial fields of the page *)

(** [MerakiReplacementPortal.formatSerialNumber]: what the field holds after
    a key is released. *)
Definition formatSerialNumber (fieldValue : string) : string :=
  let value := Js.toUpperCase (JsText.keep_alnum fieldValue) in
  let n := String.length value in
  if (4 <? n) && (n <=? 8)
  then JsText.slice 0 4 value +:+ "-" +:+ JsText.drop 4 value
  else if 8 <? n
  then JsText.slice 0 4 value +:+ "-" +:+ JsText.slice 4 8 value
       +:+ "-" +:+ JsText.slice 8 12 value
  else value.

(** ** A small platform to run the code on *)

Module Demo.

(** Two organizations; the first has two networks, the second one. *)
Definition registry : StringMap := [("1001", "key-alpha"); ("2002", "key-beta")].

Definition failed_serial : string := "AAAA-1111-BBBB".
Definition spare_serial : string := "CCCC-2222-DDDD".
Definition busy_serial : string := "EEEE-3333-FFFF".
Definition foreign_serial : string := "GGGG-4444-HHHH".

(** The world: which serial is claimed by which network. *)
Definition World := list (string * string).

Definition start : World := [(failed_serial, "N_2"); (busy_serial, "N_1")].

(** A request meant to fail, for the runs that need one. *)
Inductive Fault : Type :=
| NoFault
| ClaimFails (e : JsError)
| UpdateFails (e : JsError)
| RemoveFails (e : JsError)
| NetworkLookupFails (e : JsError).

Definition http_error (code : nat) (text : string) (errs : option (list string))
    : JsError :=
  {| message := "Request failed with status code " +:+ text;
     response := Some {| status := code; errors := errs |} |}.

Definition not_found : JsError := http_error 404 "404" None.
Definition rate_limited : JsError := http_error 429 "429" None.
Definition server_error : JsError := http_error 500 "500" None.

Definition claimed_by (serial : string) (w : World) : option string :=
  snd <$> find (fun c => String.eqb (fst c) serial) w.

Definition networks_of (org : string) : option (list Network) :=
  if String.eqb org "1001"
  then Some [ {| net_id := "N_1"; net_name := "Lab" |};
              {| net_id := "N_2"; net_name := "Office" |} ]
  else if String.eqb org "2002"
  then Some [ {| net_id := "N_3"; net_name := "Depot" |} ]
  else None.

Definition name_of (org : string) : option string :=
  if String.eqb org "1001" then Some "Alpha"
  else if String.eqb org "2002" then Some "Beta" else None.

Definition inventory_of (org : string) : option (list string) :=
  if String.eqb org "1001" then Some [failed_serial; spare_serial; busy_serial]
  else if String.eqb org "2002" then Some [foreign_serial] else None.

Definition device_record (serial : string) : Device :=
  {| dev_serial := serial;
     dev_name := if String.eqb serial failed_serial then Some "AP-Lobby" else None;
     dev_tags := Some ["lobby"; "floor1"];
     dev_address := Some "1 Main Street";
     dev_lat := Some (QArith_base.Qmake 37 1);
     dev_lng := Some (QArith_base.Qmake (-122) 1);
     dev_floorPlanId := None;
     dev_notes := Some "Installed 2021" |}.

Definition answer {A : Type} (o : option A) (w : World) : Res A * World :=
  match o with
  | Some a => (Ok a, w)
  | None => (Throw not_found, w)
  end.

Definition platform (fault : Fault) : Platform World :=
  {| getOrganization := fun _ org w =>
       answer ((fun n => {| org_name := n |}) <$> name_of org) w;
     getOrganizationNetworks := fun _ org w => answer (networks_of org) w;
     getNetworkDevice := fun _ net serial w =>
       if bool_decide (claimed_by serial w = Some net)
       then (Ok (Some (device_record serial)), w)
       else (Throw not_found, w);
     getInventoryDevices := fun _ org w =>
       answer
         (map (fun s => {| inv_serial := s; inv_model := Some "MR46";
                           inv_networkId := claimed_by s w |})
            <$> inventory_of org) w;
     getNetwork := fun _ net w =>
       match fault with
       | NetworkLookupFails e => (Throw e, w)
       | _ =>
           answer (find (fun n => String.eqb (net_id n) net)
                     (default [] (networks_of "1001") ++ default [] (networks_of "2002"))) w
       end;
     getDeviceStatuses := fun _ org w =>
       answer
         (map (fun s => {| ds_serial := s; ds_status := Some "offline";
                           ds_lastReportedAt := None; ds_publicIp := None;
                           ds_lanIp := Some "10.0.0.7" |})
            <$> inventory_of org) w;
     getRadioSettings := fun _ net serial w => (Ok (Some "rfProfile:indoor"), w);
     getSwitchPorts := fun _ net serial w => (Throw not_found, w);
     claimDevices := fun _ net serials w =>
       match fault with
       | ClaimFails e => (Throw e, w)
       | _ => (Ok tt, map (fun s => (s, net)) serials ++ w)
       end;
     updateDevice := fun _ net serial cfg w =>
       match fault with
       | UpdateFails e => (Throw e, w)
       | _ => (Ok tt, w)
       end;
     updateRadioSettings := fun _ net serial body w => (Ok tt, w);
     updateSwitchPort := fun _ net serial port body w => (Ok tt, w);
     removeDevice := fun _ net serial w =>
       match fault with
       | RemoveFails e => (Throw e, w)
       | _ => (Ok tt, filter (fun c => fst c ≠ serial) w)
       end |}.

Definition clock (n : nat) : string :=
  match n with
  | 0 => "2025-03-01T10:00:00.000Z"
  | 1 => "2025-03-01T10:00:01.000Z"
  | 2 => "2025-03-01T10:00:02.000Z"
  | 3 => "2025-03-01T10:00:03.000Z"
  | _ => "2025-03-01T10:00:04.000Z"
  end.

(** The runs the examples below look at. *)

Definition found_failed : Found :=
  {| failedDevice := device_record failed_serial;
     foundNetwork := {| net_id := "N_2"; net_name := "Office" |};
     foundOrganizationId := "1001";
     foundOrganization := {| org_name := "Alpha" |} |}.

Definition inventory_alpha : list InventoryDevice :=
  [ {| inv_serial := failed_serial; inv_model := Some "MR46";
       inv_networkId := Some "N_2" |};
    {| inv_serial := spare_serial; inv_model := Some "MR46";
       inv_networkId := None |};
    {| inv_serial := busy_serial; inv_model := Some "MR46";
       inv_networkId := Some "N_1" |} ].

Definition busy_entry : InventoryDevice :=
  {| inv_serial := busy_serial; inv_model := Some "MR46";
     inv_networkId := Some "N_1" |}.

Definition already_claimed_error : JsError :=
  http_error 400 "400"
    (Some ["Device with serial CCCC-2222-DDDD is already claimed and in network N_2"]).

(** A claim refused because the device belongs to somebody else. *)
Definition claimed_elsewhere_error : JsError :=
  http_error 400 "400"
    (Some ["Device with serial CCCC-2222-DDDD is already claimed by another organization"]).

Abbreviation search_run :=
  (search_organizations (platform NoFault) registry failed_serial registry
     (initial start)).

Abbreviation replace fault :=
  (replaceDevice (platform fault) clock registry failed_serial spare_serial
     "N_2" "1001" (initial start)).

Abbreviation validation fault replacementSerial :=
  (validateDevices (platform fault) registry failed_serial replacementSerial
     (initial start)).

Abbreviation same_serial_request :=
  (post_validate_devices (platform NoFault) registry failed_serial failed_serial
     (initial start)).

(** A device whose tags and address are there but empty. *)
Definition bare_device : Device :=
  {| dev_serial := failed_serial;
     dev_name := Some "AP-Lobby";
     dev_tags := Some [];
     dev_address := Some " ";
     dev_lat := None;
     dev_lng := None;
     dev_floorPlanId := None;
     dev_notes := None |}.

(** A 404 answer with an error list in its body. *)
Definition not_found_with_errors : JsError :=
  http_error 404 "404" (Some ["Device not found in network"]).

(** Three switch ports, for the runs that configure them. *)
Definition switch_ports : list SwitchPort :=
  [ {| portId := "1"; port_settings := "vlan:10" |};
    {| portId := "2"; port_settings := "vlan:20" |};
    {| portId := "3"; port_settings := "vlan:30" |} ].

(** A best-effort request out of order. *)
Inductive Hitch : Type :=
| StatusesFail
| RadioPutFails
| PortPutFails (port : string).

(** The platform without fault, but for the hitch; with [PortPutFails] the
    failed device has the three switch ports. *)
Definition platform_with (hitch : Hitch) : Platform World :=
  let base := platform NoFault in
  {| getOrganization := getOrganization base;
     getOrganizationNetworks := getOrganizationNetworks base;
     getNetworkDevice := getNetworkDevice base;
     getInventoryDevices := getInventoryDevices base;
     getNetwork := getNetwork base;
     getDeviceStatuses := fun c org w =>
       match hitch with
       | StatusesFail => (Throw server_error, w)
       | _ => getDeviceStatuses base c org w
       end;
     getRadioSettings := getRadioSettings base;
     getSwitchPorts := fun c net serial w =>
       match hitch with
       | PortPutFails _ => (Ok (Some switch_ports), w)
       | _ => getSwitchPorts base c net serial w
       end;
     claimDevices := claimDevices base;
     updateDevice := updateDevice base;
     updateRadioSettings := fun c net serial body w =>
       match hitch with
       | RadioPutFails => (Throw rate_limited, w)
       | _ => (Ok tt, w)
       end;
     updateSwitchPort := fun c net serial port body w =>
       match hitch with
       | PortPutFails p =>
           if String.eqb port p then (Throw server_error, w) else (Ok tt, w)
       | _ => (Ok tt, w)
       end;
     removeDevice := removeDevice base |}.

Abbreviation replace_with hitch :=
  (replaceDevice (platform_with hitch) clock registry failed_serial spare_serial
     "N_2" "1001" (initial start)).

Abbreviation validation_with hitch :=
  (validateDevices (platform_with hitch) registry failed_serial spare_serial
     (initial start)).

Definition spare_entry : InventoryDevice :=
  {| inv_serial := spare_serial; inv_model := Some "MR46"; inv_networkId := None |}.

(** What the status endpoint answers for the first organization. *)
Definition statuses_alpha : list DeviceStatus :=
  map (fun s => {| ds_serial := s; ds_status := Some "offline";
                   ds_lastReportedAt := None; ds_publicIp := None;
                   ds_lanIp := Some "10.0.0.7" |})
    [failed_serial; spare_serial; busy_serial].

(** The two POST routes on a body whose failed serial is an array of one
    well-formed serial. *)
Abbreviation array_validate_request :=
  (post_validate_devices_body (platform NoFault) registry
     (FieldArray [failed_serial]) (FieldText spare_serial) (initial start)).

Abbreviation array_replace_request :=
  (post_replace_device_body (platform NoFault) clock registry
     (FieldArray [failed_serial]) (FieldText spare_serial) (initial start)).

End Demo.

(** * Vocabulary of the properties *)

(** A state that differs from [s] by the platform's world only. *)
Definition with_world {World : Type} (s : State World) (w : World) : State World :=
  {| st_world := w; st_ticks := st_ticks s; st_ops := st_ops s |}.

(** ** The search *)

(** A device lookup that found the device. *)
Definition lookup_hit (r : Res (option Device)) : bool :=
  match r with
  | Ok (Some _) => true
  | _ => false
  end.

Definition hit (x : Exchange) : bool :=
  match x with
  | XGetNetworkDevice _ _ _ r => lookup_hit r
  | _ => false
  end.

(** The exchanges of a search through the networks of one organization, in
    the order of the list: it stops at the first lookup that finds the
    device, and otherwise goes through the whole list. *)
Inductive network_scan (org : string) (organization : Organization) (serial : string)
  : list Network -> list Exchange -> option Found -> Prop :=
| nscan_exhausted : network_scan org organization serial [] [] None
| nscan_found network rest device :
    network_scan org organization serial (network :: rest)
      [XGetNetworkDevice org (net_id network) serial (Ok (Some device))]
      (Some {| failedDevice := device; foundNetwork := network;
               foundOrganizationId := org; foundOrganization := organization |})
| nscan_next network rest r l res :
    lookup_hit r = false ->
    network_scan org organization serial rest l res ->
    network_scan org organization serial (network :: rest)
      (XGetNetworkDevice org (net_id network) serial r :: l) res.

(** The exchanges of a search through a registry, in its order: an
    organization that cannot be read is passed over, the networks of one
    that can are scanned, and the first device found ends everything. *)
Inductive organization_scan (serial : string)
  : StringMap -> list Exchange -> option Found -> Prop :=
| oscan_exhausted : organization_scan serial [] [] None
| oscan_unreachable org key rest e l res :
    organization_scan serial rest l res ->
    organization_scan serial ((org, key) :: rest)
      (XGetOrganization org org (Throw e) :: l) res
| oscan_unlisted org key rest organization e l res :
    organization_scan serial rest l res ->
    organization_scan serial ((org, key) :: rest)
      (XGetOrganization org org (Ok organization)
       :: XGetOrganizationNetworks org org (Throw e) :: l) res
| oscan_found org key rest organization networks l found :
    network_scan org organization serial networks l (Some found) ->
    organization_scan serial ((org, key) :: rest)
      (XGetOrganization org org (Ok organization)
       :: XGetOrganizationNetworks org org (Ok networks) :: l) (Some found)
| oscan_next org key rest organization networks l1 l2 res :
    network_scan org organization serial networks l1 None ->
    organization_scan serial rest l2 res ->
    organization_scan serial ((org, key) :: rest)
      (XGetOrganization org org (Ok organization)
       :: XGetOrganizationNetworks org org (Ok networks) :: l1 ++ l2) res.

(** The requests of the search loops. *)
Definition search_exchange (x : Exchange) : bool :=
  match x with
  | XGetOrganization _ _ _ | XGetOrganizationNetworks _ _ _
  | XGetNetworkDevice _ _ _ _ => true
  | _ => false
  end.

(** ** Validation, after the search *)

(** What [getEnhancedDeviceInfo] makes of the answer of the status endpoint. *)
Definition live_of (device : Device) (r : Res (list DeviceStatus)) : option LiveStatus :=
  match r with
  | Ok statuses => Some (enhance device statuses)
  | Throw _ => None
  end.

Section ValidationRuns.
Variable organizations : StringMap.
Variable replacementSerial : string.

(** The ways a validation ends, given what the search found and the
    exchanges [l0] of the search. *)
Inductive validation_run (failedSerial : string) (l0 : list Exchange)
  : option Found -> ValidationResult -> list Exchange -> Prop :=
| val_failed_not_found :
    validation_run failedSerial l0 None
      (ValidationFailure (Some (msg_failed_not_found organizations failedSerial))) l0
| val_inventory_unreadable f e :
    validation_run failedSerial l0 (Some f)
      (ValidationFailure (formatErrorMessage e))
      (l0 ++ [XGetInventoryDevices (foundOrganizationId f) (foundOrganizationId f)
                (Throw e)])
| val_replacement_not_found f inventory :
    find_serial replacementSerial inventory = None ->
    validation_run failedSerial l0 (Some f)
      (ValidationFailure
         (Some (msg_replacement_not_found replacementSerial
                  (org_name (foundOrganization f)))))
      (l0 ++ [XGetInventoryDevices (foundOrganizationId f) (foundOrganizationId f)
                (Ok inventory)])
| val_claim_conflict f inventory device other network :
    find_serial replacementSerial inventory = Some device ->
    claimed_elsewhere device (net_id (foundNetwork f)) = Some other ->
    validation_run failedSerial l0 (Some f)
      (ValidationFailure (Some (msg_claim_conflict (net_name network))))
      (l0 ++ [XGetInventoryDevices (foundOrganizationId f) (foundOrganizationId f)
                (Ok inventory);
              XGetNetwork (foundOrganizationId f) other (Ok network)])
| val_claim_conflict_unnamed f inventory device other e :
    find_serial replacementSerial inventory = Some device ->
    claimed_elsewhere device (net_id (foundNetwork f)) = Some other ->
    validation_run failedSerial l0 (Some f)
      (ValidationFailure (formatErrorMessage e))
      (l0 ++ [XGetInventoryDevices (foundOrganizationId f) (foundOrganizationId f)
                (Ok inventory);
              XGetNetwork (foundOrganizationId f) other (Throw e)])
| val_success f inventory device statuses :
    find_serial replacementSerial inventory = Some device ->
    claimed_elsewhere device (net_id (foundNetwork f)) = None ->
    validation_run failedSerial l0 (Some f)
      (ValidationSuccess f (live_of (failedDevice f) statuses) device
         (net_id (foundNetwork f)) (foundOrganizationId f)
         (org_name (foundOrganization f)))
      (l0 ++ [XGetInventoryDevices (foundOrganizationId f) (foundOrganizationId f)
                (Ok inventory);
              XGetDeviceStatuses (foundOrganizationId f) (foundOrganizationId f)
                statuses]).

End ValidationRuns.

(** ** Replacement *)

(** The step of [replaceDevice] an exchange belongs to. *)
Definition exchange_step (x : Exchange) : nat :=
  match x with
  | XGetNetworkDevice _ _ _ _ | XGetRadioSettings _ _ _ _ | XGetSwitchPorts _ _ _ _ => 1
  | XClaimDevices _ _ _ _ => 2
  | XUpdateDevice _ _ _ _ _ | XUpdateRadioSettings _ _ _ _ _
  | XUpdateSwitchPort _ _ _ _ _ _ => 3
  | XRemoveDevice _ _ _ _ => 4
  | _ => 0
  end.

Definition step_message (k : nat) : string :=
  match k with
  | 1 => "Retrieving failed device configuration"
  | 2 => "Claiming replacement device to network"
  | 3 => "Applying configuration to replacement device"
  | _ => "Removing failed device from network"
  end.

(** The clock reading, counted from the start of the call, that stamps the
    record of step [k]; the reading in between dates the note of step 3. *)
Definition stamp_tick (k : nat) : nat :=
  match k with
  | 1 => 0
  | 2 => 1
  | 3 => 2
  | _ => 4
  end.

(** The error the first request of step 1 ends in, if any: a failed call,
    or a [null] body, on which reading [name] throws. *)
Definition device_failure (r : Res (option Device)) : option JsError :=
  match r with
  | Throw e => Some e
  | Ok None => Some (Error "Cannot read properties of null (reading 'name')")
  | Ok (Some _) => None
  end.

(** A claim that lets the pipeline go on. *)
Definition claim_passes (r : Res unit) : bool :=
  match r with
  | Ok _ => true
  | Throw e => already_claimed e
  end.

(** The value a best-effort read leaves in its variable. *)
Definition swallowed {A : Type} (r : Res (option A)) : option A :=
  match r with
  | Ok v => v
  | Throw _ => None
  end.

(** The exchanges of the loop over the switch ports: one PUT per port, in
    order, up to the first that fails. *)
Inductive ports_log (org net serial : string) : list SwitchPort -> list Exchange -> Prop :=
| ports_done : ports_log org net serial [] []
| ports_stop port rest e :
    ports_log org net serial (port :: rest)
      [XUpdateSwitchPort org net serial (portId port) (port_settings port) (Throw e)]
| ports_next port rest l :
    ports_log org net serial rest l ->
    ports_log org net serial (port :: rest)
      (XUpdateSwitchPort org net serial (portId port) (port_settings port) (Ok tt) :: l).

(** The exchanges of the best-effort part of step 3. *)
Inductive best_effort_log (org net serial : string)
  : option Json -> option (list SwitchPort) -> list Exchange -> Prop :=
| best_effort_intro radioSettings switchPorts lr lp :
    match radioSettings with
    | Some settings => exists r, lr = [XUpdateRadioSettings org net serial settings r]
    | None => lr = []
    end ->
    ports_log org net serial (default [] switchPorts) lp ->
    best_effort_log org net serial radioSettings switchPorts (lr ++ lp).

Section ReplacementRuns.
Variable clock : nat -> string.
Variable organizations : StringMap.
Variables failedSerial replacementSerial networkId organizationId : string.
(** The number of clock readings made before the call. *)
Variable t : nat.

Definition step_record (k : nat) (st : string) (err : option string) : Operation :=
  {| step := k; op_message := step_message k; op_status := st;
     timestamp := clock (stamp_tick k + t); op_error := err |}.

(** Steps [1..k], all completed. *)
Definition completed_steps (k : nat) : list Operation :=
  map (fun i => step_record i "completed" None) (seq 1 k).

(** Steps [1..k-1] completed and step [k] failed with [msg]. *)
Definition failed_at (k : nat) (msg : string) : list Operation :=
  completed_steps (k - 1) ++ [step_record k "failed" (Some msg)].

Definition failure (e : JsError) (ops : list Operation) : ReplaceResult :=
  {| success := false; res_message := formatErrorMessage e;
     operations := ops; summary := None |}.

Definition first_three (device : Res (option Device)) (radio : Res (option Json))
    (ports : Res (option (list SwitchPort))) : list Exchange :=
  [XGetNetworkDevice organizationId networkId failedSerial device;
   XGetRadioSettings organizationId networkId failedSerial radio;
   XGetSwitchPorts organizationId networkId failedSerial ports].

(** The ways a call of [replaceDevice] ends: its result and its exchanges. *)
Inductive replacement_run : ReplaceResult -> list Exchange -> Prop :=
| run_no_client :
    map_has organizationId organizations = false ->
    replacement_run
      (failure (Error ("No API client configured for organization " +:+ organizationId)) [])
      []
| run_step1_failed device e :
    map_has organizationId organizations = true ->
    device_failure device = Some e ->
    replacement_run (failure e (failed_at 1 (message e)))
      [XGetNetworkDevice organizationId networkId failedSerial device]
| run_step2_failed d radio ports e :
    map_has organizationId organizations = true ->
    already_claimed e = false ->
    replacement_run (failure e (failed_at 2 (message e)))
      (first_three (Ok (Some d)) radio ports
       ++ [XClaimDevices organizationId networkId [replacementSerial] (Throw e)])
| run_step3_failed d radio ports claim e :
    map_has organizationId organizations = true ->
    claim_passes claim = true ->
    replacement_run (failure e (failed_at 3 (message e)))
      (first_three (Ok (Some d)) radio ports
       ++ [XClaimDevices organizationId networkId [replacementSerial] claim;
           XUpdateDevice organizationId networkId replacementSerial
             (buildConfigData d failedSerial replacementSerial (clock (3 + t)))
             (Throw e)])
| run_step4_failed d radio ports claim extras e :
    map_has organizationId organizations = true ->
    claim_passes claim = true ->
    best_effort_log organizationId networkId replacementSerial
      (swallowed radio) (swallowed ports) extras ->
    replacement_run (failure e (failed_at 4 (message e)))
      (first_three (Ok (Some d)) radio ports
       ++ [XClaimDevices organizationId networkId [replacementSerial] claim;
           XUpdateDevice organizationId networkId replacementSerial
             (buildConfigData d failedSerial replacementSerial (clock (3 + t)))
             (Ok tt)]
       ++ extras
       ++ [XRemoveDevice organizationId networkId failedSerial (Throw e)])
| run_success d radio ports claim extras :
    map_has organizationId organizations = true ->
    claim_passes claim = true ->
    best_effort_log organizationId networkId replacementSerial
      (swallowed radio) (swallowed ports) extras ->
    replacement_run
      {| success := true;
         res_message :=
           Some ("Device replacement completed successfully in organization "
                 +:+ organizationId);
         operations := completed_steps 4;
         summary :=
           Some (make_summary failedSerial replacementSerial networkId organizationId
                   (buildConfigData d failedSerial replacementSerial (clock (3 + t)))
                   (swallowed radio) (swallowed ports)) |}
      (first_three (Ok (Some d)) radio ports
       ++ [XClaimDevices organizationId networkId [replacementSerial] claim;
           XUpdateDevice organizationId networkId replacementSerial
             (buildConfigData d failedSerial replacementSerial (clock (3 + t)))
             (Ok tt)]
       ++ extras
       ++ [XRemoveDevice organizationId networkId failedSerial (Ok tt)]).

(** Step [k] raised [e], as the exchanges show it: the request of the
    step that is not best-effort failed (for step 2, with something else
    than an "already claimed" answer). *)
Definition raised (log : list Exchange) (k : nat) (e : JsError) : Prop :=
  match k with
  | 1 => exists r, In (XGetNetworkDevice organizationId networkId failedSerial r) log
                   /\ device_failure r = Some e
  | 2 => In (XClaimDevices organizationId networkId [replacementSerial] (Throw e)) log
         /\ already_claimed e = false
  | 3 => exists cfg,
           In (XUpdateDevice organizationId networkId replacementSerial cfg (Throw e)) log
  | 4 => In (XRemoveDevice organizationId networkId failedSerial (Throw e)) log
  | _ => False
  end.

End ReplacementRuns.

(** ** Configuration *)

(** How a payload [cfg] follows the record [d] of the failed device. *)
Definition copies_configuration (d : Device) (replacementSerial : string)
    (cfg : ConfigData) : Prop :=
  (forall name, dev_name d = Some name -> Js.nonblank name = true -> cfg_name cfg = name)
  /\ ((dev_name d = None \/ exists name, dev_name d = Some name /\ Js.nonblank name = false) ->
      cfg_name cfg = replacementSerial)
  /\ (forall t ts, dev_tags d = Some (t :: ts) -> cfg_tags cfg = Some (t :: ts))
  /\ (dev_tags d = None \/ dev_tags d = Some [] -> cfg_tags cfg = None)
  /\ (forall a, dev_address d = Some a -> Js.nonblank a = true -> cfg_address cfg = Some a)
  /\ ((dev_address d = None \/ exists a, dev_address d = Some a /\ Js.nonblank a = false) ->
      cfg_address cfg = None)
  /\ (forall lat lng,
        dev_lat d = Some lat -> dev_lng d = Some lng ->
        ~ QArith_base.Qeq lat (QArith_base.Qmake 0 1) ->
        ~ QArith_base.Qeq lng (QArith_base.Qmake 0 1) ->
        cfg_lat cfg = Some lat /\ cfg_lng cfg = Some lng)
  /\ (dev_lat d = None \/ dev_lng d = None -> cfg_lat cfg = None /\ cfg_lng cfg = None)
  /\ (forall fp, dev_floorPlanId d = Some fp -> fp <> "" -> cfg_floorPlanId cfg = Some fp)
  /\ (dev_floorPlanId d = None \/ dev_floorPlanId d = Some "" -> cfg_floorPlanId cfg = None).

(** ** Serials and registry variables *)

(** A string none of whose characters satisfies [p]. *)
Fixpoint free_of (p : ascii -> bool) (s : string) : bool :=
  match s with
  | EmptyString => true
  | String c s' => negb (p c) && free_of p s'
  end.

(** A string all of whose characters satisfy [p]. *)
Definition made_of (p : ascii -> bool) (s : string) : bool :=
  free_of (fun c => negb (p c)) s.

(** The characters that structure [MERAKI_ORGS], or that [trim] removes. *)
Definition separator (c : ascii) : bool :=
  Js.is_space c || Ascii.eqb c ","%char || Ascii.eqb c ":"%char.

(** An identifier or a key as the platform issues them: not empty, and
    without white space, comma or colon. *)
Definition token (s : string) : bool :=
  negb (String.eqb s "") && free_of separator s.

(** The value of [MERAKI_ORGS] that lists a registry. *)
Definition MERAKI_ORGS_of (reg : StringMap) : string :=
  Js.join "," (map (fun e => fst e +:+ ":" +:+ snd e) reg).

(** What [trimStart] returns does not start with white space. *)
Definition starts_clean (s : string) : Prop :=
  match s with
  | EmptyString => True
  | String c _ => Js.is_space c = false
  end.

(** The layout [formatSerialNumber] gives to a value already cleaned. *)
Definition layout (value : string) : string :=
  let n := String.length value in
  if (4 <? n) && (n <=? 8)
  then JsText.take 4 value +:+ "-" +:+ JsText.drop 4 value
  else if 8 <? n
  then JsText.take 4 value +:+ "-" +:+ JsText.take 4 (JsText.drop 4 value)
       +:+ "-" +:+ JsText.take 4 (JsText.drop 8 value)
  else value.

Definition is_comma (c : ascii) : bool := Ascii.eqb c ","%char.
Definition is_colon (c : ascii) : bool := Ascii.eqb c ":"%char.

(** One mapping of [MERAKI_ORGS]. *)
Definition mapping_of (e : string * string) : string := fst e +:+ ":" +:+ snd e.

(** An entry of the registry made of two tokens. *)
Definition plain_entry (e : string * string) : Prop :=
  token (fst e) = true /\ token (snd e) = true.

(** The registry after the entries [reg] have been set in [acc], in order. *)
Definition set_all (reg acc : StringMap) : StringMap :=
  fold_left (fun m e => map_set (fst e) (snd e) m) reg acc.

(** ** Requests by kind and by address *)

(** The requests that change something on the platform. *)
Definition write_exchange (x : Exchange) : bool :=
  match x with
  | XClaimDevices _ _ _ _ | XUpdateDevice _ _ _ _ _ | XUpdateRadioSettings _ _ _ _ _
  | XUpdateSwitchPort _ _ _ _ _ _ | XRemoveDevice _ _ _ _ => true
  | _ => false
  end.

(** The organization whose client, and so whose API key, sent the request. *)
Definition client_of (x : Exchange) : string :=
  match x with
  | XGetOrganization c _ _ | XGetOrganizationNetworks c _ _
  | XGetNetworkDevice c _ _ _ | XGetInventoryDevices c _ _ | XGetNetwork c _ _
  | XGetDeviceStatuses c _ _ | XGetRadioSettings c _ _ _ | XGetSwitchPorts c _ _ _
  | XClaimDevices c _ _ _ | XUpdateDevice c _ _ _ _ | XUpdateRadioSettings c _ _ _ _
  | XUpdateSwitchPort c _ _ _ _ _ | XRemoveDevice c _ _ _ => c
  end.

(** What a request of [replaceDevice] may be: sent with the client of the
    organization, about the network, and about the failed device when it
    reads or removes, about the replacement when it claims or configures. *)
Definition replacement_request
    (organizationId networkId failedSerial replacementSerial : string)
    (x : Exchange) : Prop :=
  match x with
  | XGetNetworkDevice c n serial _ | XGetRadioSettings c n serial _
  | XGetSwitchPorts c n serial _ | XRemoveDevice c n serial _ =>
      c = organizationId /\ n = networkId /\ serial = failedSerial
  | XClaimDevices c n serials _ =>
      c = organizationId /\ n = networkId /\ serials = [replacementSerial]
  | XUpdateDevice c n serial _ _ | XUpdateRadioSettings c n serial _ _
  | XUpdateSwitchPort c n serial _ _ _ =>
      c = organizationId /\ n = networkId /\ serial = replacementSerial
  | _ => False
  end.

(** The best-effort reads of step 1. *)
Definition optional_get (x : Exchange) : bool :=
  match x with
  | XGetRadioSettings _ _ _ _ | XGetSwitchPorts _ _ _ _ => true
  | _ => false
  end.

(** The best-effort writes of step 3. *)
Definition optional_put (x : Exchange) : bool :=
  match x with
  | XUpdateRadioSettings _ _ _ _ _ | XUpdateSwitchPort _ _ _ _ _ _ => true
  | _ => false
  end.

(** ** The answers of the queries, as the exchanges show them *)

(** A lookup that found a device: the client, the network and the device. *)
Definition hit_of (x : Exchange) : option (string * string * Device) :=
  match x with
  | XGetNetworkDevice c n _ (Ok (Some d)) => Some (c, n, d)
  | _ => None
  end.

Definition hits (l : list Exchange) : list (string * string * Device) :=
  omap hit_of l.

Definition result_key (r : SearchResult) : string * string * Device :=
  (sr_organizationId r, sr_networkId r, sr_device r).

(** What the search of [validateDevices] found, as an element of the
    [results] of [searchDeviceAcrossOrganizations]. *)
Definition as_result (f : Found) : SearchResult :=
  {| sr_device := failedDevice f;
     sr_organizationId := foundOrganizationId f;
     sr_organizationName := org_name (foundOrganization f);
     sr_networkId := net_id (foundNetwork f);
     sr_networkName := net_name (foundNetwork f) |}.

(** A list of networks that was answered. *)
Definition listing_ok (x : Exchange) : bool :=
  match x with
  | XGetOrganizationNetworks _ _ (Ok _) => true
  | _ => false
  end.

(** The networks of the lists answered, each with the organization asked. *)
Definition listed (l : list Exchange) : list (Network * string) :=
  flat_map (fun x =>
              match x with
              | XGetOrganizationNetworks _ org (Ok networks) =>
                  map (fun network => (network, org)) networks
              | _ => []
              end) l.

(** The client and the organization of a request for the list of networks. *)
Definition listing_request (x : Exchange) : option (string * string) :=
  match x with
  | XGetOrganizationNetworks c org _ => Some (c, org)
  | _ => None
  end.

(** An entry of [getAllOrganizationsInfo] against the exchanges [l]. *)
Definition info_grounded (l : list Exchange) (info : OrganizationInfo) : Prop :=
  if oi_accessible info
  then exists organization networks,
         In (XGetOrganization (oi_id info) (oi_id info) (Ok organization)) l
         /\ In (XGetOrganizationNetworks (oi_id info) (oi_id info) (Ok networks)) l
         /\ oi_name info = org_name organization
         /\ oi_networkCount info = Some (length networks)
         /\ oi_error info = None
  else oi_name info = "Unknown"
       /\ oi_networkCount info = None /\ oi_url info = None
       /\ exists e,
            oi_error info = formatErrorMessage e
            /\ (In (XGetOrganization (oi_id info) (oi_id info) (Throw e)) l
                \/ In (XGetOrganizationNetworks (oi_id info) (oi_id info) (Throw e)) l).

(** * Properties *)

(** ** Strings *)

Section StringFacts.

Lemma trimEnd_empty_iff s : Js.trimEnd s = EmptyString <-> Js.blank s = true.
Proof.
  induction s as [|c s IH]; simpl; [tauto|].
  destruct (Js.trimEnd s) as [|a t] eqn:E.
  - assert (Hs : Js.blank s = true) by (apply IH; reflexivity).
    rewrite Hs, andb_true_r.
    destruct (Js.is_space c); split; intros H; try reflexivity; discriminate H.
  - split; [intros H; discriminate H|].
    intros H. apply andb_true_iff in H as [_ H].
    apply IH in H. discriminate H.
Qed.

Lemma trimStart_blank_iff s : Js.blank (Js.trimStart s) = Js.blank s.
Proof.
  induction s as [|c s IH]; simpl; [reflexivity|].
  destruct (Js.is_space c) eqn:E; simpl; [assumption|].
  rewrite E; reflexivity.
Qed.

Lemma nonblank_blank s : Js.nonblank s = negb (Js.blank s).
Proof.
  unfold Js.nonblank, Js.trim.
  destruct (Js.blank s) eqn:B.
  - assert (H : Js.trimEnd (Js.trimStart s) = EmptyString)
      by (apply trimEnd_empty_iff; rewrite trimStart_blank_iff; assumption).
    rewrite H; reflexivity.
  - destruct (Js.trimEnd (Js.trimStart s)) eqn:E; [|reflexivity].
    apply trimEnd_empty_iff in E. rewrite trimStart_blank_iff in E. congruence.
Qed.

Lemma blank_app a b : Js.blank (a +:+ b) = Js.blank a && Js.blank b.
Proof.
  induction a as [|c a IH]; [reflexivity|].
  change (String c a +:+ b) with (String c (a +:+ b)).
  simpl. rewrite IH. apply andb_assoc.
Qed.

Lemma replacementNote_nonblank f t : Js.blank (replacementNote f t) = false.
Proof. reflexivity. Qed.

Lemma config_notes_nonblank notes f t :
  Js.nonblank (config_notes notes f t) = true.
Proof.
  rewrite nonblank_blank. unfold config_notes.
  destruct (Js.nonblank (default "" notes)); [|reflexivity].
  rewrite !blank_app. change (Js.blank (replacementNote f t)) with false.
  rewrite !andb_false_r. reflexivity.
Qed.

Lemma app_assoc_string a b c : (a +:+ b) +:+ c = a +:+ b +:+ c.
Proof.
  induction a as [|x a IH]; [reflexivity|].
  change (String x a +:+ b) with (String x (a +:+ b)).
  change (String x (a +:+ b) +:+ c) with (String x ((a +:+ b) +:+ c)).
  rewrite IH. reflexivity.
Qed.

End StringFacts.

(** ** The registry *)

Section RegistryFacts.

(** A key that is new to the map is put last: iteration follows insertion. *)
Lemma map_set_new_key_goes_last k v (m : StringMap) :
  map_has k m = false -> map_set k v m = m ++ [(k, v)].
Proof.
  induction m as [|[k' v'] m IH]; cbn; [reflexivity|].
  destruct (String.eqb k' k); cbn; [discriminate|].
  intros H. rewrite (IH H). reflexivity.
Qed.

(** Setting a key again changes its value, not its place. *)
Lemma map_set_old_key_keeps_place k v (m : StringMap) :
  map_keys (map_set k v m) = if map_has k m then map_keys m else map_keys m ++ [k].
Proof.
  unfold map_keys, map_has.
  induction m as [|[k' v'] m IH]; cbn; [reflexivity|].
  destruct (String.eqb_spec k' k) as [->|Hne]; cbn; [reflexivity|].
  rewrite IH. destruct (existsb _ m); reflexivity.
Qed.

Example constructor_keeps_the_order_of_the_variable :
  MerakiAPI_constructor (Some "1001:key-alpha, 2002:key-beta") = Ok Demo.registry.
Proof. vm_compute. reflexivity. Qed.

End RegistryFacts.

Section SearchFacts.
Context {World : Type}.
Variable P : Platform World.
Variable organizations : StringMap.

Lemma call_run {A} (f : World -> Res A * World) (x : Res A -> Exchange) s :
  call f x s = (fst (f (st_world s)), with_world s (snd (f (st_world s))),
                [x (fst (f (st_world s)))]).
Proof. unfold call. destruct (f (st_world s)); reflexivity. Qed.

Lemma search_networks_run org organization serial networks (s : State World) :
  exists res s' l,
    search_networks P org org organization serial networks s = (Ok res, s', l)
    /\ network_scan org organization serial networks l res.
Proof.
  revert s. induction networks as [|network rest IH]; intros s.
  - exists None, s, []. split; [reflexivity | constructor].
  - cbn [search_networks]. unfold bind at 1, try_catch at 1. rewrite call_run.
    destruct (getNetworkDevice P org (net_id network) serial (st_world s))
      as [[[device|]|e] w]; cbn.
    + eexists _, _, _. split; [reflexivity|]. constructor.
    + match goal with |- context [search_networks _ _ _ _ _ _ ?s1] =>
        destruct (IH s1) as (res & s' & l & E & Hl) end.
      rewrite E. eexists res, s', _.
      split; [reflexivity|]. constructor; [reflexivity | assumption].
    + match goal with |- context [search_networks _ _ _ _ _ _ ?s1] =>
        destruct (IH s1) as (res & s' & l & E & Hl) end.
      rewrite E. eexists res, s', _.
      split; [reflexivity|]. constructor; [reflexivity | assumption].
Qed.

Lemma getClient_known org (s : State World) :
  map_has org organizations = true ->
  getClient organizations org s = (Ok org, s, []).
Proof. intros H. unfold getClient. rewrite H. reflexivity. Qed.

Lemma search_organizations_run serial orgs (s : State World) :
  (forall org key, In (org, key) orgs -> map_has org organizations = true) ->
  exists res s' l,
    search_organizations P organizations serial orgs s = (Ok res, s', l)
    /\ organization_scan serial orgs l res.
Proof.
  revert s. induction orgs as [|[org key] rest IH]; intros s Hin.
  - exists None, s, []. split; [reflexivity | constructor].
  - assert (Hrest : forall o k, In (o, k) rest -> map_has o organizations = true)
      by (intros o k H; apply (Hin o k); right; exact H).
    cbn [search_organizations].
    unfold bind at 1, try_catch at 1, bind at 1.
    rewrite getClient_known by (apply (Hin org key); left; reflexivity).
    unfold bind at 1. rewrite call_run.
    destruct (getOrganization P org org (st_world s)) as [[organization|e] w1]; cbn.
    + unfold bind at 1. rewrite call_run. cbn.
      destruct (getOrganizationNetworks P org org w1) as [[networks|e] w2]; cbn.
      * match goal with |- context [search_networks _ _ _ _ _ _ ?s1] =>
          destruct (search_networks_run org organization serial networks s1)
            as (res & s2 & l & E & Hl) end.
        rewrite E. destruct res as [found|]; cbn.
        -- rewrite app_nil_r. eexists (Some found), _, _. split; [reflexivity|].
           apply oscan_found. assumption.
        -- destruct (IH s2 Hrest) as (res & s3 & l2 & E2 & Hl2).
           rewrite E2.
           eexists res, s3, _. split; [reflexivity|].
           apply oscan_next; assumption.
      * match goal with |- context [search_organizations _ _ _ _ ?s1] =>
          destruct (IH s1 Hrest) as (res & s3 & l2 & E2 & Hl2) end.
        rewrite E2.
        eexists res, s3, _. split; [reflexivity|].
        apply oscan_unlisted; assumption.
    + match goal with |- context [search_organizations _ _ _ _ ?s1] =>
        destruct (IH s1 Hrest) as (res & s3 & l2 & E2 & Hl2) end.
      rewrite E2.
      eexists res, s3, _. split; [reflexivity|].
      apply oscan_unreachable; assumption.
Qed.

End SearchFacts.

Section ScanFacts.

Lemma network_scan_found org organization serial networks l f :
  network_scan org organization serial networks l (Some f) ->
  foundOrganizationId f = org /\ foundOrganization f = organization
  /\ In (foundNetwork f) networks
  /\ exists pre,
       l = pre ++ [XGetNetworkDevice org (net_id (foundNetwork f)) serial
                     (Ok (Some (failedDevice f)))]
       /\ Forall (fun x => hit x = false) pre.
Proof.
  intros H. remember (Some f) as res eqn:R.
  induction H as [|network rest device|network rest r l res Hr H IH].
  - discriminate R.
  - injection R as <-. cbn. repeat split; [left; reflexivity|].
    exists []. split; [reflexivity | constructor].
  - destruct (IH R) as (Ho & Hn & Hin & pre & -> & Hpre).
    repeat split; [assumption.. | right; assumption |].
    exists (XGetNetworkDevice org (net_id network) serial r :: pre).
    split; [reflexivity|]. constructor; assumption.
Qed.

Lemma network_scan_exhausted org organization serial networks l :
  network_scan org organization serial networks l None ->
  Forall (fun x => hit x = false) l
  /\ Forall (fun x => exists net r, x = XGetNetworkDevice org net serial r) l
  /\ forall n, In n networks ->
       exists r, In (XGetNetworkDevice org (net_id n) serial r) l.
Proof.
  intros H. remember None as res eqn:R.
  induction H as [|network rest device|network rest r l res Hr H IH].
  - repeat split; [constructor.. |]. intros n [].
  - discriminate R.
  - destruct (IH R) as (Hh & Hs & Hall).
    repeat split.
    + constructor; assumption.
    + constructor; [eauto | assumption].
    + intros n [<-|Hn].
      * exists r. left; reflexivity.
      * destruct (Hall n Hn) as [r' Hr']. exists r'. right; assumption.
Qed.

Lemma organization_scan_found serial orgs l f :
  organization_scan serial orgs l (Some f) ->
  In (foundOrganizationId f) (map_keys orgs)
  /\ exists pre,
       l = pre ++ [XGetNetworkDevice (foundOrganizationId f)
                     (net_id (foundNetwork f)) serial
                     (Ok (Some (failedDevice f)))]
       /\ Forall (fun x => hit x = false) pre.
Proof.
  intros H. remember (Some f) as res eqn:R.
  induction H as [ | org key rest e l res H IH
                   | org key rest organization e l res H IH
                   | org key rest organization networks l found H
                   | org key rest organization networks l1 l2 res H1 H IH ].
  - discriminate R.
  - destruct (IH R) as (Hk & pre & -> & Hpre). split; [right; assumption|].
    eexists (_ :: pre). split; [reflexivity|]. constructor; [reflexivity|assumption].
  - destruct (IH R) as (Hk & pre & -> & Hpre). split; [right; assumption|].
    eexists (_ :: _ :: pre). split; [reflexivity|].
    repeat (constructor; [reflexivity|]). assumption.
  - injection R as ->.
    destruct (network_scan_found _ _ _ _ _ _ H) as (Ho & _ & _ & pre & -> & Hpre).
    split; [left; symmetry; exact Ho|]. rewrite Ho.
    eexists (_ :: _ :: pre). split; [reflexivity|].
    repeat (constructor; [reflexivity|]). assumption.
  - destruct (IH R) as (Hk & pre & -> & Hpre). split; [right; assumption|].
    destruct (network_scan_exhausted _ _ _ _ _ H1) as (Hh & _ & _).
    eexists (_ :: _ :: l1 ++ pre). split.
    + cbn. rewrite <- app_assoc. reflexivity.
    + repeat (constructor; [reflexivity|]). apply Forall_app; split; assumption.
Qed.

Lemma organization_scan_exhausted serial orgs l :
  organization_scan serial orgs l None ->
  Forall (fun x => hit x = false) l
  /\ (forall org, In org (map_keys orgs) -> exists r, In (XGetOrganization org org r) l)
  /\ (forall org organization,
        In (XGetOrganization org org (Ok organization)) l ->
        exists r, In (XGetOrganizationNetworks org org r) l)
  /\ (forall org networks,
        In (XGetOrganizationNetworks org org (Ok networks)) l ->
        forall n, In n networks ->
          exists r, In (XGetNetworkDevice org (net_id n) serial r) l).
Proof.
  intros H. remember None as res eqn:R.
  induction H as [ | org key rest e l res H IH
                   | org key rest organization e l res H IH
                   | org key rest organization networks l found H
                   | org key rest organization networks l1 l2 res H1 H IH ].
  - repeat split; [constructor | intros ? [] | intros ? ? [] | intros ? ? []].
  - destruct (IH R) as (Hh & Ho & Hn & Hd). repeat split.
    + constructor; [reflexivity | assumption].
    + intros o [<-|Hin]; [eexists; left; reflexivity|].
      destruct (Ho o Hin) as [r Hr]. exists r. right; assumption.
    + intros o organization [Hx|Hin]; [discriminate Hx|].
      destruct (Hn o organization Hin) as [r Hr]. exists r. right; assumption.
    + intros o networks [Hx|Hin] n Hnet; [discriminate Hx|].
      destruct (Hd o networks Hin n Hnet) as [r Hr]. exists r. right; assumption.
  - destruct (IH R) as (Hh & Ho & Hn & Hd). repeat split.
    + repeat (constructor; [reflexivity|]). assumption.
    + intros o [<-|Hin]; [eexists; left; reflexivity|].
      destruct (Ho o Hin) as [r Hr]. exists r. right; right; assumption.
    + intros o organization' [Hx|[Hx|Hin]]; [|discriminate Hx|].
      * inversion Hx; subst. eexists. right; left; reflexivity.
      * destruct (Hn o organization' Hin) as [r Hr]. exists r. right; right; assumption.
    + intros o networks [Hx|[Hx|Hin]] n Hnet; [discriminate Hx..|].
      destruct (Hd o networks Hin n Hnet) as [r Hr]. exists r. right; right; assumption.
  - discriminate R.
  - destruct (IH R) as (Hh & Ho & Hn & Hd).
    destruct (network_scan_exhausted _ _ _ _ _ H1) as (Hh1 & Hs1 & Hall1).
    assert (Hnot : forall x, In x l1 ->
              exists net r, x = XGetNetworkDevice org net serial r).
    { intros x Hx. exact (proj1 (List.Forall_forall _ _) Hs1 x Hx). }
    repeat split.
    + repeat (constructor; [reflexivity|]). apply Forall_app; split; assumption.
    + intros o [<-|Hin]; [eexists; left; reflexivity|].
      destruct (Ho o Hin) as [r Hr]. exists r. right; right.
      apply in_or_app; right; assumption.
    + intros o organization' [Hx|[Hx|Hin]]; [|discriminate Hx|].
      * inversion Hx; subst. eexists. right; left; reflexivity.
      * apply in_app_or in Hin as [Hin|Hin].
        -- destruct (Hnot _ Hin) as (? & ? & Hx). discriminate Hx.
        -- destruct (Hn o organization' Hin) as [r Hr]. exists r. right; right.
           apply in_or_app; right; assumption.
    + intros o networks' [Hx|[Hx|Hin]] n Hnet; [discriminate Hx| |].
      * inversion Hx; subst. destruct (Hall1 n Hnet) as [r Hr].
        exists r. right; right. apply in_or_app; left; assumption.
      * apply in_app_or in Hin as [Hin|Hin].
        -- destruct (Hnot _ Hin) as (? & ? & Hx). discriminate Hx.
        -- destruct (Hd o networks' Hin n Hnet) as [r Hr]. exists r. right; right.
           apply in_or_app; right; assumption.
Qed.

End ScanFacts.

Section ValidationFacts.
Context {World : Type}.
Variable P : Platform World.
Variable organizations : StringMap.

Lemma map_has_keys org (m : StringMap) :
  map_has org m = true <-> In org (map_keys m).
Proof.
  unfold map_has, map_keys. rewrite existsb_exists, in_map_iff.
  split; intros (e & H1 & H2).
  - apply String.eqb_eq in H2. exists e. split; [exact H2 | exact H1].
  - exists e. split; [exact H2 | apply String.eqb_eq; exact H1].
Qed.

Lemma getEnhancedDeviceInfo_run device org (s : State World) :
  map_has org organizations = true ->
  exists r s',
    getEnhancedDeviceInfo P organizations device org s
    = (Ok (live_of device r), s', [XGetDeviceStatuses org org r]).
Proof.
  intros H. unfold getEnhancedDeviceInfo, try_catch, bind.
  rewrite (getClient_known organizations org s H), call_run.
  destruct (getDeviceStatuses P org org (st_world s)) as [[statuses|e] w]; cbn.
  - exists (Ok statuses). eexists; reflexivity.
  - exists (Throw e). eexists; reflexivity.
Qed.

Lemma validate_replacement_run failedSerial replacementSerial l0 f (s : State World) :
  map_has (foundOrganizationId f) organizations = true ->
  exists r s' l,
    validate_replacement P organizations f replacementSerial s = (r, s', l)
    /\ forall v,
         v = match r with
             | Ok v => v
             | Throw e => ValidationFailure (formatErrorMessage e)
             end ->
         validation_run organizations replacementSerial failedSerial l0 (Some f) v
           (l0 ++ l).
Proof.
  intros H. unfold validate_replacement, bind at 1.
  rewrite (getClient_known organizations _ s H).
  unfold bind at 1. rewrite call_run.
  destruct (getInventoryDevices P (foundOrganizationId f) (foundOrganizationId f)
              (st_world s)) as [[inventory|e] w]; cbn.
  2:{ eexists _, _, _. split; [reflexivity|]. intros v ->. constructor. }
  destruct (find_serial replacementSerial inventory) as [device|] eqn:Ef; cbn.
  2:{ eexists _, _, _. split; [reflexivity|]. intros v ->.
      apply val_replacement_not_found. assumption. }
  unfold bind at 1.
  destruct (claimed_elsewhere device (net_id (foundNetwork f))) as [other|] eqn:Ec.
  - unfold bind at 1. rewrite call_run. cbn.
    destruct (getNetwork P (foundOrganizationId f) other w) as [[network|e] w2]; cbn.
    + eexists _, _, _. split; [reflexivity|]. intros v ->.
      eapply val_claim_conflict; eassumption.
    + eexists _, _, _. split; [reflexivity|]. intros v ->.
      eapply val_claim_conflict_unnamed; eassumption.
  - cbn. unfold bind at 1.
    match goal with |- context [getEnhancedDeviceInfo _ _ ?d ?o ?s1] =>
      destruct (getEnhancedDeviceInfo_run d o s1 H) as (r & s2 & E) end.
    rewrite E. cbn.
    eexists _, _, _. split; [reflexivity|]. intros v ->.
    eapply val_success; eassumption.
Qed.

(** A run of [validateDevices] is a scan of the registry followed by one of
    the endings of [validation_run]; it never throws. *)
Lemma validateDevices_run failedSerial replacementSerial (s : State World) :
  exists found s1 l0 v s' l,
    search_organizations P organizations failedSerial organizations s
    = (Ok found, s1, l0)
    /\ validateDevices P organizations failedSerial replacementSerial s = (Ok v, s', l)
    /\ organization_scan failedSerial organizations l0 found
    /\ validation_run organizations replacementSerial failedSerial l0 found v l.
Proof.
  destruct (search_organizations_run P organizations failedSerial organizations s)
    as (found & s1 & l0 & E & Hscan).
  { intros org key Hin. apply map_has_keys. apply in_map_iff.
    exists (org, key). split; [reflexivity | assumption]. }
  unfold validateDevices, try_catch, bind. rewrite E.
  destruct found as [f|].
  - assert (Hk : map_has (foundOrganizationId f) organizations = true).
    { apply map_has_keys. apply (organization_scan_found _ _ _ _ Hscan). }
    destruct (validate_replacement_run failedSerial replacementSerial l0 f s1 Hk)
      as (r & s2 & l & E2 & Hv).
    rewrite E2. destruct r as [v|e]; cbn.
    + eexists (Some f), s1, l0, v, _, _.
      repeat split; [assumption | apply Hv; reflexivity].
    + rewrite app_nil_r. eexists (Some f), s1, l0, _, _, _.
      repeat split; [assumption | apply Hv; reflexivity].
  - cbn. eexists None, s1, l0, _, _, _.
    repeat split; [assumption|]. rewrite !app_nil_r. constructor.
Qed.

End ValidationFacts.

Section ReplacementFacts.
Context {World : Type}.
Variable P : Platform World.
Variable clock : nat -> string.
Variable organizations : StringMap.

Lemma read_optional_run {A} (f : World -> Res (option A) * World)
    (x : Res (option A) -> Exchange) (s : State World) :
  read_optional (call f x) s
  = (Ok (swallowed (fst (f (st_world s)))),
     with_world s (snd (f (st_world s))), [x (fst (f (st_world s)))]).
Proof.
  unfold read_optional, try_catch. rewrite call_run.
  destruct (f (st_world s)) as [[v|e] w]; reflexivity.
Qed.

Lemma claim_replacement_run client net serial (s : State World) :
  let rw := claimDevices P client net [serial] (st_world s) in
  claim_replacement P client net serial s
  = (match fst rw with
     | Ok _ => Ok tt
     | Throw e => if already_claimed e then Ok tt else Throw e
     end,
     with_world s (snd rw), [XClaimDevices client net [serial] (fst rw)]).
Proof.
  unfold claim_replacement, try_catch. rewrite call_run.
  destruct (claimDevices P client net [serial] (st_world s)) as [[[]|e] w]; cbn;
    [reflexivity|].
  destruct (already_claimed e); reflexivity.
Qed.

Lemma put_switch_ports_run org net serial ports (s : State World) :
  exists r w l,
    put_switch_ports P org net serial ports s = (r, with_world s w, l)
    /\ ports_log org net serial ports l.
Proof.
  revert s. induction ports as [|port rest IH]; intros s.
  - exists (Ok tt), (st_world s), []. destruct s. split; [reflexivity | constructor].
  - cbn [put_switch_ports]. unfold bind at 1. rewrite call_run.
    destruct (updateSwitchPort P org net serial (portId port) (port_settings port)
                (st_world s)) as [[[]|e] w]; cbn.
    + match goal with |- context [put_switch_ports _ _ _ _ _ ?s1] =>
        destruct (IH s1) as (r & w2 & l & E & Hl) end.
      rewrite E. eexists r, w2, _. split; [reflexivity|].
      constructor. assumption.
    + eexists _, w, _. split; [reflexivity | constructor].
Qed.

Lemma apply_optional_settings_run org net serial radioSettings switchPorts
    (s : State World) :
  exists w l,
    apply_optional_settings P org net serial radioSettings switchPorts s
    = (Ok tt, with_world s w, l)
    /\ best_effort_log org net serial radioSettings switchPorts l.
Proof.
  unfold apply_optional_settings, bind.
  assert (Hr : exists w1 lr,
             match radioSettings with
             | Some settings =>
                 try_catch
                   (call (updateRadioSettings P org net serial settings)
                      (XUpdateRadioSettings org net serial settings))
                   (fun _ => ret tt)
             | None => ret tt
             end s = (Ok tt, with_world s w1, lr)
             /\ match radioSettings with
                | Some settings =>
                    exists r, lr = [XUpdateRadioSettings org net serial settings r]
                | None => lr = []
                end).
  { destruct radioSettings as [settings|].
    - unfold try_catch. rewrite call_run.
      destruct (updateRadioSettings P org net serial settings (st_world s))
        as [[[]|e] w]; cbn; eexists w, _; split; try reflexivity; eauto.
    - exists (st_world s), []. destruct s. split; reflexivity. }
  destruct Hr as (w1 & lr & -> & Hlr).
  assert (Hp : exists w2 lp,
             match switchPorts with
             | Some (port :: ports) =>
                 try_catch (put_switch_ports P org net serial (port :: ports))
                   (fun _ => ret tt)
             | _ => ret tt
             end (with_world s w1) = (Ok tt, with_world s w2, lp)
             /\ ports_log org net serial (default [] switchPorts) lp).
  { destruct switchPorts as [[|port ports]|].
    - exists w1, []. split; [reflexivity | constructor].
    - unfold try_catch.
      destruct (put_switch_ports_run org net serial (port :: ports) (with_world s w1))
        as (r & w2 & l & -> & Hl).
      destruct r as [[]|e]; cbn.
      + exists w2, l. split; [reflexivity | assumption].
      + exists w2, l. rewrite app_nil_r. split; [reflexivity | assumption].
    - exists w1, []. split; [reflexivity | constructor]. }
  destruct Hp as (w2 & lp & -> & Hlp).
  exists w2, (lr ++ lp). split; [reflexivity|].
  constructor; assumption.
Qed.

End ReplacementFacts.

Section ReplacementRun.
Context {World : Type}.
Variable P : Platform World.
Variable clock : nat -> string.
Variable organizations : StringMap.

Local Arguments read_optional : simpl never.
Local Arguments claim_replacement : simpl never.
Local Arguments apply_optional_settings : simpl never.
Local Arguments call : simpl never.
Local Arguments String.append : simpl never.
Local Arguments buildConfigData : simpl never.
Local Arguments make_summary : simpl never.
Local Arguments formatErrorMessage : simpl never.

Lemma replaceDevice_run failedSerial replacementSerial networkId organizationId
    (s : State World) :
  exists res s' l,
    replaceDevice P clock organizations failedSerial replacementSerial networkId
      organizationId s = (Ok res, s', l)
    /\ replacement_run clock organizations failedSerial replacementSerial networkId
         organizationId (st_ticks s) res l.
Proof.
  unfold replaceDevice, replace_steps, replace_failed, push_operation,
    complete_operation, getClient.
  destruct (map_has organizationId organizations) eqn:Hc.
  2:{ cbn. eexists _, _, _. split; [reflexivity|]. apply run_no_client. assumption. }
  unfold bind, try_catch, put_ops, get_ops, now, ret, throw. cbn.
  rewrite call_run. cbn.
  destruct (getNetworkDevice P organizationId networkId failedSerial (st_world s))
    as [[[d|]|e] w1]; cbn.
  2:{ eexists _, _, _. split; [reflexivity|].
      apply (run_step1_failed clock organizations failedSerial replacementSerial
               networkId organizationId (st_ticks s) (Ok None) _ Hc eq_refl). }
  2:{ eexists _, _, _. split; [reflexivity|].
      apply (run_step1_failed clock organizations failedSerial replacementSerial
               networkId organizationId (st_ticks s) (Throw e) _ Hc eq_refl). }
  rewrite read_optional_run. cbn.
  destruct (getRadioSettings P organizationId networkId failedSerial w1)
    as [radio w2]; cbn.
  rewrite read_optional_run. cbn.
  destruct (getSwitchPorts P organizationId networkId failedSerial w2)
    as [ports w3]; cbn.
  rewrite claim_replacement_run. cbn.
  destruct (claimDevices P organizationId networkId [replacementSerial] w3)
    as [claim w4]; cbn.
  destruct claim as [[]|e]; [|destruct (already_claimed e) eqn:Ha]; cbn.
  3:{ eexists _, _, _. split; [reflexivity|].
      apply (run_step2_failed clock organizations failedSerial replacementSerial
               networkId organizationId (st_ticks s) d radio ports e Hc Ha). }
  all: rewrite call_run; cbn.
  all: match goal with |- context [updateDevice ?P ?a ?b ?c ?d ?w] =>
         destruct (updateDevice P a b c d w) as [[[]|e'] w5] end; cbn.
  all: match goal with |- context [XClaimDevices _ _ _ ?c :: _] =>
         assert (Hp : claim_passes c = true) by (first [reflexivity | exact Ha])
       end.
  2,4: match goal with |- context [XClaimDevices _ _ _ ?c :: _] =>
         eexists _, _, _; (split; [reflexivity|]);
         apply (run_step3_failed clock organizations failedSerial replacementSerial
                  networkId organizationId (st_ticks s) d radio ports c e' Hc Hp)
       end.
  all: match goal with
       | |- context [apply_optional_settings ?P ?a ?b ?c ?d ?e ?s1] =>
           destruct (apply_optional_settings_run P a b c d e s1)
             as (w6 & extras & E & Hextras); rewrite E; clear E
       end; cbn.
  all: rewrite call_run; cbn.
  all: match goal with |- context [removeDevice ?P ?a ?b ?c ?w] =>
         destruct (removeDevice P a b c w) as [[[]|e'] w7] end; cbn.
  all: eexists _, _, _; (split; [reflexivity|]); rewrite ?app_nil_r.
  all: match goal with |- context [XClaimDevices _ _ _ ?c :: _] =>
         first
           [ apply (run_success clock organizations failedSerial replacementSerial
                      networkId organizationId (st_ticks s) d radio ports c extras
                      Hc Hp Hextras)
           | apply (run_step4_failed clock organizations failedSerial replacementSerial
                      networkId organizationId (st_ticks s) d radio ports c extras e'
                      Hc Hp Hextras) ]
       end.
Qed.

End ReplacementRun.

Section ReplacementClaims.
Context {World : Type}.
Variable P : Platform World.
Variable clock : nat -> string.
Variable organizations : StringMap.
Variables failedSerial replacementSerial networkId organizationId : string.

Local Abbreviation run s :=
  (replaceDevice P clock organizations failedSerial replacementSerial networkId
     organizationId s).
Local Abbreviation is_run t :=
  (replacement_run clock organizations failedSerial replacementSerial networkId
     organizationId t).

Lemma ports_log_puts org net serial ports l :
  ports_log org net serial ports l ->
  Forall (fun x => exists port body r, x = XUpdateSwitchPort org net serial port body r) l.
Proof. induction 1; repeat constructor; eauto. Qed.

(** The best-effort part of step 3 only sends radio and port settings. *)
Lemma best_effort_log_puts org net serial radio ports l x :
  best_effort_log org net serial radio ports l ->
  In x l ->
  (exists body r, x = XUpdateRadioSettings org net serial body r)
  \/ (exists port body r, x = XUpdateSwitchPort org net serial port body r).
Proof.
  intros [radio' ports' lr lp Hr Hp] Hin.
  apply in_app_or in Hin as [Hin|Hin].
  - left. destruct radio' as [settings|].
    + destruct Hr as [r ->]. destruct Hin as [<-|[]]. eauto.
    + subst lr. destruct Hin.
  - right. apply ports_log_puts in Hp.
    exact (proj1 (List.Forall_forall _ _) Hp x Hin).
Qed.

Lemma best_effort_step org net serial radio ports l x :
  best_effort_log org net serial radio ports l -> In x l -> exchange_step x = 3.
Proof.
  intros H Hin.
  destruct (best_effort_log_puts _ _ _ _ _ _ _ H Hin)
    as [(? & ? & ->)|(? & ? & ? & ->)]; reflexivity.
Qed.

Ltac in_log H :=
  repeat match type of H with
    | In _ (_ :: _) => destruct H as [H|H]
    | In _ (_ ++ _) => apply in_app_or in H as [H|H]
    | In _ [] => destruct H
    end.

Ltac extras_absurd :=
  match goal with
  | He : best_effort_log _ _ _ _ _ ?l, H : In _ ?l |- _ =>
      destruct (best_effort_log_puts _ _ _ _ _ _ _ He H)
        as [(? & ? & ?)|(? & ? & ? & ?)]; discriminate
  end.

Lemma run_steps_bounded t res l k :
  is_run t res l -> length (operations res) = k -> 0 < k ->
  success res = false ->
  forall x, In x l -> exchange_step x <= k.
Proof.
  intros H Hk Hpos Hs x Hin.
  destruct H; cbn in Hk, Hs; subst k; try discriminate Hs; try lia;
    unfold first_three in Hin; in_log Hin; subst; cbn; try lia.
  all: match goal with
       | He : best_effort_log _ _ _ _ _ ?l, H : In _ ?l |- _ =>
           rewrite (best_effort_step _ _ _ _ _ _ _ He H); lia
       end.
Qed.

Lemma failed_at_records t k msg :
  1 <= k <= 4 ->
  length (failed_at clock t k msg) = k
  /\ forall i op,
       failed_at clock t k msg !! i = Some op ->
       step op = S i
       /\ (S i < k -> op_status op = "completed" /\ op_error op = None)
       /\ (S i = k -> op_status op = "failed" /\ op_error op = Some msg).
Proof.
  intros Hk.
  assert (Hc : k = 1 \/ k = 2 \/ k = 3 \/ k = 4) by lia.
  destruct Hc as [-> | [-> | [-> | ->]]]; (split; [reflexivity|]);
    intros i op; destruct i as [|[|[|[|i]]]]; cbn; intros H;
    try discriminate H; injection H as <-; cbn;
    repeat split; intros; try lia; reflexivity.
Qed.

(** C3.  Whenever a step of [replaceDevice] raises an error that is not
    swallowed, the call returns [success: false] with the message of the
    error translated, the record of that step is the last one and is
    "failed" with the error's message, the records before it are
    "completed", and no request of a later step is sent.  In particular,
    when the PUT of step 3 fails there are three records, the second
    "completed" and the third "failed", and no removal is requested. *)
Theorem replaceDevice_aborts_at_failed_step (s : State World) (k : nat) (e : JsError) :
  raised failedSerial replacementSerial networkId organizationId (log_of (run s)) k e ->
  exists res,
    res_of (run s) = Ok res
    /\ success res = false
    /\ res_message res = formatErrorMessage e
    /\ summary res = None
    /\ operations res = failed_at clock (st_ticks s) k (message e)
    /\ length (operations res) = k
    /\ (forall i op,
          operations res !! i = Some op ->
          step op = S i
          /\ (S i < k -> op_status op = "completed" /\ op_error op = None)
          /\ (S i = k -> op_status op = "failed" /\ op_error op = Some (message e)))
    /\ (forall x, In x (log_of (run s)) -> exchange_step x <= k)
    /\ (k = 3 ->
          exists o1 o2 o3,
            operations res = [o1; o2; o3]
            /\ op_status o2 = "completed"
            /\ op_status o3 = "failed"
            /\ op_error o3 = Some (message e)
            /\ forall c n serial r, ~ In (XRemoveDevice c n serial r) (log_of (run s))).
Proof.
  intros Hraised.
  destruct (replaceDevice_run P clock organizations failedSerial replacementSerial
              networkId organizationId s) as (res & s' & l & E & Hrun).
  rewrite E in *. unfold res_of, log_of in *. cbn [fst snd] in *.
  exists res. split; [reflexivity|].
  assert (Hk : 1 <= k <= 4).
  { destruct k as [|[|[|[|[|k]]]]]; cbn in Hraised; try lia; destruct Hraised. }
  assert (Hres : success res = false /\ res_message res = formatErrorMessage e
                 /\ summary res = None
                 /\ operations res = failed_at clock (st_ticks s) k (message e)).
  { clear E.
    destruct Hrun; destruct k as [|[|[|[|[|k]]]]]; try lia;
      unfold raised, first_three in Hraised;
      repeat match goal with
        | H : False |- _ => destruct H
        | H : exists _, _ |- _ => destruct H
        | H : _ /\ _ |- _ => destruct H
        | H : _ \/ _ |- _ => destruct H
        | H : In _ (_ ++ _) |- _ => apply in_app_or in H
        | H : In _ (_ :: _) |- _ => destruct H
        | H : In _ [] |- _ => destruct H
        end;
      try discriminate;
      try extras_absurd;
      repeat match goal with
        | H : XGetNetworkDevice _ _ _ _ = XGetNetworkDevice _ _ _ _ |- _ =>
            injection H as <-
        | H : XClaimDevices _ _ _ _ = XClaimDevices _ _ _ _ |- _ => injection H as ->
        | H : XUpdateDevice _ _ _ _ _ = XUpdateDevice _ _ _ _ _ |- _ =>
            injection H as _ ->
        | H : XRemoveDevice _ _ _ _ = XRemoveDevice _ _ _ _ |- _ => injection H as ->
        end;
      cbn in *; try congruence; try discriminate.
    all: repeat split; congruence. }
  destruct Hres as (Hs & Hm & Hsum & Hops).
  destruct (failed_at_records (st_ticks s) k (message e) Hk) as (Hlen & Hrec).
  rewrite Hops.
  split; [exact Hs|]. split; [exact Hm|]. split; [exact Hsum|].
  split; [reflexivity|]. split; [exact Hlen|]. split; [exact Hrec|].
  split.
  - apply (run_steps_bounded (st_ticks s) res l k Hrun);
      [rewrite Hops; exact Hlen | lia | exact Hs].
  - intros ->. eexists _, _, _. split; [reflexivity|].
    split; [reflexivity|]. split; [reflexivity|]. split; [reflexivity|].
    intros c n serial r Hin.
    apply (run_steps_bounded (st_ticks s) res l 3 Hrun) in Hin;
      [cbn in Hin; lia | rewrite Hops; reflexivity | lia | exact Hs].
Qed.

Ltac break_log :=
  repeat match goal with
    | H : False |- _ => destruct H
    | H : exists _, _ |- _ => destruct H
    | H : _ /\ _ |- _ => destruct H
    | H : _ \/ _ |- _ => destruct H
    | H : In _ (_ ++ _) |- _ => apply in_app_or in H
    | H : In _ (_ :: _) |- _ => destruct H
    | H : In _ [] |- _ => destruct H
    end.

(** C4, as the code has it.  In step 2 a claim that succeeds, or that
    fails with an answer whose first error message includes the words
    "already claimed", whatever network or organization that message
    speaks of, lets the pipeline go on: the record of step 2 ends
    "completed" and step 3 sends its PUT.  Any other claim error aborts:
    the record of step 2 is the last one and is "failed", and no request
    of step 3 or 4 is sent.  The specification, and the line the code
    logs in that branch, speak of a device already claimed in this
    network only. *)
Theorem claim_step_is_idempotent (s : State World) (claim : Res unit) :
  In (XClaimDevices organizationId networkId [replacementSerial] claim)
     (log_of (run s)) ->
  exists res,
    res_of (run s) = Ok res
    /\ ((claim = Ok tt \/ exists e, claim = Throw e /\ already_claimed e = true) ->
        (exists op, operations res !! 1 = Some op
                    /\ step op = 2 /\ op_status op = "completed"
                    /\ op_error op = None)
        /\ exists cfg r,
             In (XUpdateDevice organizationId networkId replacementSerial cfg r)
                (log_of (run s)))
    /\ (forall e, claim = Throw e -> already_claimed e = false ->
          success res = false
          /\ res_message res = formatErrorMessage e
          /\ operations res = failed_at clock (st_ticks s) 2 (message e)
          /\ forall x, In x (log_of (run s)) -> exchange_step x <= 2).
Proof.
  intros Hin.
  destruct (replaceDevice_run P clock organizations failedSerial replacementSerial
              networkId organizationId s) as (res & s' & l & E & Hrun).
  rewrite E in *. unfold res_of, log_of in *. cbn [fst snd] in *. clear E.
  exists res. split; [reflexivity|]. split.
  - intros Hpass.
    destruct Hrun; unfold first_three in Hin; break_log; try discriminate;
      try extras_absurd;
      repeat match goal with
        | H : XClaimDevices _ _ _ _ = XClaimDevices _ _ _ _ |- _ =>
            injection H as H; subst
        end;
      try discriminate; try congruence.
    all: split; [eexists; cbn; repeat split; reflexivity|].
    all: eexists _, _; unfold first_three; cbn; eauto 10.
  - intros e -> Ha.
    assert (Hres : success res = false /\ res_message res = formatErrorMessage e
                   /\ operations res = failed_at clock (st_ticks s) 2 (message e)).
    { destruct Hrun; unfold first_three in Hin; break_log; try discriminate;
        try extras_absurd;
        repeat match goal with
          | H : XClaimDevices _ _ _ _ = XClaimDevices _ _ _ _ |- _ =>
              injection H as H; subst
          end;
        cbn in *; try discriminate; try congruence.
      repeat split; reflexivity. }
    destruct Hres as (Hs & Hm & Hops).
    split; [exact Hs|]. split; [exact Hm|]. split; [exact Hops|].
    apply (run_steps_bounded (st_ticks s) res l 2 Hrun);
      [rewrite Hops; reflexivity | lia | exact Hs].
Qed.

(** C10.  Whatever happens, the operations list [replaceDevice] returns
    numbers its records 1, 2, ... in order, every record but the last is
    "completed", the last is "completed" exactly when [success] is true
    and is "failed" otherwise, and no record is left "pending" or
    "in-progress".  The list has at most four records, exactly four on
    success, and none only when the organization has no client. *)
Theorem replaceDevice_operations_invariant (s : State World) :
  exists res,
    res_of (run s) = Ok res
    /\ (forall i op, operations res !! i = Some op -> step op = S i)
    /\ (forall i op, operations res !! i = Some op ->
          S i < length (operations res) -> op_status op = "completed")
    /\ (forall op, last (operations res) = Some op ->
          (op_status op = "completed" <-> success res = true)
          /\ (op_status op = "completed" \/ op_status op = "failed"))
    /\ (forall op, In op (operations res) ->
          op_status op <> "pending" /\ op_status op <> "in-progress")
    /\ length (operations res) <= 4
    /\ (success res = true -> length (operations res) = 4)
    /\ (operations res = [] <-> map_has organizationId organizations = false).
Proof.
  destruct (replaceDevice_run P clock organizations failedSerial replacementSerial
              networkId organizationId s) as (res & s' & l & E & Hrun).
  rewrite E. unfold res_of. cbn [fst snd]. clear E.
  exists res. split; [reflexivity|].
  destruct Hrun; cbn [operations success failure failed_at completed_steps
                      seq map app Nat.sub length].
  all: split;
    [intros i op; destruct i as [|[|[|[|i]]]]; cbn; intros Hop;
     try discriminate Hop; injection Hop as <-; reflexivity|].
  all: split;
    [intros i op; destruct i as [|[|[|[|i]]]]; cbn; intros Hop Hlt;
     try discriminate Hop; try lia; injection Hop as <-; reflexivity|].
  all: split;
    [intros op Hop; cbn in Hop;
     first [ discriminate Hop
           | injection Hop as <-; cbn;
             split; [split; intros Hx; first [reflexivity | discriminate Hx]
                    | first [left; reflexivity | right; reflexivity]] ]|].
  all: split;
    [intros op Hop; cbn in Hop; break_log; subst; cbn; split; discriminate|].
  all: split; [cbn; lia|].
  all: split; [cbn; intros Hx; first [reflexivity | discriminate Hx]|].
  all: split; intros Hx; first [assumption | reflexivity | discriminate Hx | congruence].
Qed.

End ReplacementClaims.

Section ConfigurationClaims.
Context {World : Type}.
Variable P : Platform World.
Variable clock : nat -> string.
Variable organizations : StringMap.

(** The body of the PUT of step 3 is [buildConfigData] of the record the
    GET of step 1 returned, dated by the fourth clock reading of the call. *)
Lemma step3_payload failedSerial replacementSerial networkId organizationId
    (s : State World) cfg r :
  let log := log_of (replaceDevice P clock organizations failedSerial replacementSerial
                       networkId organizationId s) in
  In (XUpdateDevice organizationId networkId replacementSerial cfg r) log ->
  exists d,
    In (XGetNetworkDevice organizationId networkId failedSerial (Ok (Some d))) log
    /\ cfg = buildConfigData d failedSerial replacementSerial (clock (3 + st_ticks s)).
Proof.
  intros log Hin. subst log.
  destruct (replaceDevice_run P clock organizations failedSerial replacementSerial
              networkId organizationId s) as (res & s' & l & E & Hrun).
  rewrite E in *. unfold log_of in *. cbn [snd] in *. clear E.
  destruct Hrun; unfold first_three in *;
    repeat match goal with
      | H : False |- _ => destruct H
      | H : _ \/ _ |- _ => destruct H
      | H : In _ (_ ++ _) |- _ => apply in_app_or in H
      | H : In _ (_ :: _) |- _ => destruct H
      | H : In _ [] |- _ => destruct H
      end;
    try discriminate;
    try match goal with
      | He : best_effort_log _ _ _ _ _ ?l, H : In _ ?l |- _ =>
          destruct (best_effort_log_puts _ _ _ _ _ _ _ He H)
            as [(? & ? & ?)|(? & ? & ? & ?)]; discriminate
      end.
  all: match goal with
       | H : XUpdateDevice _ _ _ _ _ = XUpdateDevice _ _ _ _ _ |- _ =>
           injection H as <- _
       end.
  all: exists d; split; [left; reflexivity | reflexivity].
Qed.

Lemma num_truthy_nonzero (q : Num) :
  num_truthy (Some q) = true <-> ~ QArith_base.Qeq q (QArith_base.Qmake 0 1).
Proof.
  unfold num_truthy, QArith_base.Qeq. cbn.
  rewrite negb_true_iff, Z.eqb_neq. lia.
Qed.

Lemma buildConfigData_copies d failedSerial replacementSerial stamp :
  copies_configuration d replacementSerial
    (buildConfigData d failedSerial replacementSerial stamp).
Proof.
  unfold copies_configuration, buildConfigData; cbn.
  repeat apply conj.
  - intros name -> ->. reflexivity.
  - intros [-> | (name & -> & ->)]; reflexivity.
  - intros t ts ->. reflexivity.
  - intros [-> | ->]; reflexivity.
  - intros a -> ->. reflexivity.
  - intros [-> | (a & -> & ->)]; reflexivity.
  - intros lat lng -> -> Hlat Hlng.
    apply num_truthy_nonzero in Hlat, Hlng. rewrite Hlat, Hlng. split; reflexivity.
  - intros [-> | ->]; cbn; [|rewrite andb_false_r]; split; reflexivity.
  - intros fp -> Hfp. cbn. apply String.eqb_neq in Hfp. rewrite Hfp. reflexivity.
  - intros [-> | ->]; reflexivity.
Qed.

(** C7 (amended).  The PUT of step 3 carries a payload built from the
    record of the failed device read in step 1: its name when that is not
    blank, else the replacement serial; its tags when the list is not
    empty; its address when that is not blank; both coordinates when both
    are there and not zero, and neither when one is missing; its floor
    plan id when that is not empty. *)
Theorem step3_configuration failedSerial replacementSerial networkId organizationId
    (s : State World) cfg r :
  let log := log_of (replaceDevice P clock organizations failedSerial replacementSerial
                       networkId organizationId s) in
  In (XUpdateDevice organizationId networkId replacementSerial cfg r) log ->
  exists d,
    In (XGetNetworkDevice organizationId networkId failedSerial (Ok (Some d))) log
    /\ copies_configuration d replacementSerial cfg.
Proof.
  intros log Hin.
  destruct (step3_payload _ _ _ _ _ _ _ Hin) as (d & Hd & ->).
  exists d. split; [exact Hd | apply buildConfigData_copies].
Qed.

(** C6 (amended).  The notes sent with the PUT of step 3 are the notes of
    the failed device, when they are not blank, then a space and the
    replacement note, and nothing of them is dropped; blank notes give way
    to the replacement note alone.  So a device that carries the notes
    written by an earlier replacement over a text [T] that is not blank
    hands on [T] and both notes. *)
Theorem notes_are_appended :
  (forall failedSerial replacementSerial networkId organizationId
          (s : State World) cfg r,
      let log := log_of (replaceDevice P clock organizations failedSerial
                           replacementSerial networkId organizationId s) in
      In (XUpdateDevice organizationId networkId replacementSerial cfg r) log ->
      exists d,
        In (XGetNetworkDevice organizationId networkId failedSerial (Ok (Some d))) log
        /\ cfg_notes cfg
           = config_notes (dev_notes d) failedSerial (clock (3 + st_ticks s)))
  /\ (forall T failedSerial stamp,
        Js.nonblank T = true ->
        config_notes (Some T) failedSerial stamp
        = T +:+ " " +:+ replacementNote failedSerial stamp)
  /\ (forall notes failedSerial stamp,
        Js.nonblank (default "" notes) = false ->
        config_notes notes failedSerial stamp = replacementNote failedSerial stamp)
  /\ (forall T serial1 stamp1 serial2 stamp2,
        Js.nonblank T = true ->
        config_notes (Some (config_notes (Some T) serial1 stamp1)) serial2 stamp2
        = T +:+ " " +:+ replacementNote serial1 stamp1
            +:+ " " +:+ replacementNote serial2 stamp2).
Proof.
  repeat apply conj.
  - intros failedSerial replacementSerial networkId organizationId s cfg r log Hin.
    destruct (step3_payload _ _ _ _ _ _ _ Hin) as (d & Hd & ->).
    exists d. split; [exact Hd | reflexivity].
  - intros T failedSerial stamp HT. unfold config_notes. cbn. rewrite HT. reflexivity.
  - intros notes failedSerial stamp HT. unfold config_notes. rewrite HT. reflexivity.
  - intros T serial1 stamp1 serial2 stamp2 HT.
    assert (Hsome : forall x f t,
               config_notes (Some x) f t
               = if Js.nonblank x then x +:+ " " +:+ replacementNote f t
                 else replacementNote f t) by reflexivity.
    rewrite (Hsome (config_notes _ _ _)), config_notes_nonblank.
    rewrite Hsome, HT. rewrite !app_assoc_string. reflexivity.
Qed.

End ConfigurationClaims.

Section ScanKinds.

Lemma network_scan_kinds org organization serial networks l res :
  network_scan org organization serial networks l res ->
  Forall (fun x => search_exchange x = true) l.
Proof. induction 1; repeat constructor; assumption. Qed.

(** A search only sends the three kinds of request of its loops. *)
Lemma organization_scan_kinds serial orgs l res :
  organization_scan serial orgs l res ->
  Forall (fun x => search_exchange x = true) l.
Proof.
  induction 1; repeat (constructor; [reflexivity|]);
    try assumption; try constructor.
  - apply (network_scan_kinds _ _ _ _ _ _ H).
  - apply Forall_app. split; [apply (network_scan_kinds _ _ _ _ _ _ H) | assumption].
Qed.

Lemma claimed_elsewhere_some device networkId other :
  claimed_elsewhere device networkId = Some other <->
  inv_networkId device = Some other /\ other <> "" /\ other <> networkId.
Proof.
  unfold claimed_elsewhere. destruct (inv_networkId device) as [n|].
  - destruct (String.eqb_spec n ""), (String.eqb_spec n networkId); cbn;
      split; intros H; try discriminate H.
    all: try (destruct H as (H & H1 & H2); injection H as <-; congruence).
    injection H as <-. auto.
  - split; [discriminate | intros (H & _); discriminate H].
Qed.

Lemma claimed_elsewhere_none device networkId :
  claimed_elsewhere device networkId = None <->
  inv_networkId device = None \/ inv_networkId device = Some ""
  \/ inv_networkId device = Some networkId.
Proof.
  unfold claimed_elsewhere. destruct (inv_networkId device) as [n|].
  - destruct (String.eqb_spec n ""), (String.eqb_spec n networkId); cbn;
      split; intros H; subst; auto; try discriminate H.
    destruct H as [H|[H|H]]; try discriminate H; injection H as ->; congruence.
  - split; auto.
Qed.

End ScanKinds.

Section ValidationClaims.
Context {World : Type}.
Variable P : Platform World.
Variable organizations : StringMap.

Local Abbreviation search serial s :=
  (search_organizations P organizations serial organizations s).
Local Abbreviation validate failedSerial replacementSerial s :=
  (validateDevices P organizations failedSerial replacementSerial s).


Ltac break_validation Hval Hin l0 Hkinds :=
  inversion Hval; subst; clear Hval;
  (apply in_app_or in Hin as [Hin|Hin];
   [ apply (proj1 (List.Forall_forall _ _) Hkinds) in Hin; discriminate Hin | ]);
  repeat match goal with
    | H : False |- _ => destruct H
    | H : _ \/ _ |- _ => destruct H
    | H : In _ (_ :: _) |- _ => destruct H
    | H : In _ [] |- _ => destruct H
    end;
  try discriminate;
  repeat match goal with
    | H : XGetInventoryDevices _ _ _ = XGetInventoryDevices _ _ _ |- _ =>
        injection H as H; subst
    end.

(** C5.  When the failed device was found in an organization, the only
    inventory [validateDevices] ever asks for is that organization's, with
    that organization's client.  If the replacement serial is not in the
    inventory answered, validation fails with the message that the
    replacement device is not in that organization's inventory, and the
    inventory request is the last thing sent: no other organization is
    consulted, whatever it holds. *)
Theorem replacement_sought_in_found_organization failedSerial replacementSerial
    (s : State World) (f : Found) :
  res_of (search failedSerial s) = Ok (Some f) ->
  (forall client org r,
      In (XGetInventoryDevices client org r)
         (log_of (validate failedSerial replacementSerial s)) ->
      client = foundOrganizationId f /\ org = foundOrganizationId f)
  /\ (forall inventory,
        In (XGetInventoryDevices (foundOrganizationId f) (foundOrganizationId f)
              (Ok inventory))
           (log_of (validate failedSerial replacementSerial s)) ->
        find_serial replacementSerial inventory = None ->
        res_of (validate failedSerial replacementSerial s)
        = Ok (ValidationFailure
                (Some (msg_replacement_not_found replacementSerial
                         (org_name (foundOrganization f)))))
        /\ log_of (validate failedSerial replacementSerial s)
           = log_of (search failedSerial s)
             ++ [XGetInventoryDevices (foundOrganizationId f) (foundOrganizationId f)
                   (Ok inventory)]).
Proof.
  destruct (validateDevices_run P organizations failedSerial replacementSerial s)
    as (found & s1 & l0 & v & s' & l & Es & Ev & Hscan & Hval).
  rewrite Es, Ev. unfold res_of, log_of. cbn [fst snd].
  intros Hf. injection Hf as ->.
  pose proof (organization_scan_kinds _ _ _ _ Hscan) as Hkinds.
  split.
  - intros client org r Hin.
    inversion Hval; subst; clear Hval.
    all: try apply in_app_or in Hin as [Hin|Hin].
    all: try (apply (proj1 (List.Forall_forall _ _) Hkinds) in Hin; discriminate Hin).
    all: repeat match goal with
           | H : False |- _ => destruct H
           | H : _ \/ _ |- _ => destruct H
           | H : In _ (_ :: _) |- _ => destruct H
           | H : In _ [] |- _ => destruct H
           end; try discriminate.
    all: match goal with
         | H : XGetInventoryDevices _ _ _ = XGetInventoryDevices _ _ _ |- _ =>
             injection H as <- <- _
         end; split; reflexivity.
  - intros inventory Hin Hnone.
    break_validation Hval Hin l0 Hkinds; try congruence.
    split; reflexivity.
Qed.

(** C8 (amended).  Suppose the failed device was found in network [N] and
    the replacement serial is in the inventory answered.  If its entry
    names a network that is not empty and not [N], validation fails after
    asking the platform for that network: with the message naming the
    network when that request is answered, and with the translated error
    of that request when it is not.  If its entry names no network, an
    empty one, or [N], validation succeeds. *)
Theorem claim_conflict_check failedSerial replacementSerial
    (s : State World) (f : Found) inventory device :
  res_of (search failedSerial s) = Ok (Some f) ->
  In (XGetInventoryDevices (foundOrganizationId f) (foundOrganizationId f)
        (Ok inventory))
     (log_of (validate failedSerial replacementSerial s)) ->
  find_serial replacementSerial inventory = Some device ->
  (forall other,
      inv_networkId device = Some other -> other <> "" ->
      other <> net_id (foundNetwork f) ->
      exists r msg,
        In (XGetNetwork (foundOrganizationId f) other r)
           (log_of (validate failedSerial replacementSerial s))
        /\ res_of (validate failedSerial replacementSerial s)
           = Ok (ValidationFailure msg)
        /\ msg = match r with
                 | Ok network => Some (msg_claim_conflict (net_name network))
                 | Throw e => formatErrorMessage e
                 end)
  /\ (inv_networkId device = None \/ inv_networkId device = Some ""
      \/ inv_networkId device = Some (net_id (foundNetwork f)) ->
      exists live,
        res_of (validate failedSerial replacementSerial s)
        = Ok (ValidationSuccess f live device (net_id (foundNetwork f))
                (foundOrganizationId f) (org_name (foundOrganization f)))).
Proof.
  destruct (validateDevices_run P organizations failedSerial replacementSerial s)
    as (found & s1 & l0 & v & s' & l & Es & Ev & Hscan & Hval).
  rewrite Es, Ev. unfold res_of, log_of. cbn [fst snd].
  intros Hf Hin Hsome. injection Hf as ->.
  pose proof (organization_scan_kinds _ _ _ _ Hscan) as Hkinds.
  split.
  - intros other Hn He HN.
    assert (Hc : claimed_elsewhere device (net_id (foundNetwork f)) = Some other)
      by (apply claimed_elsewhere_some; auto).
    break_validation Hval Hin l0 Hkinds; try congruence.
    + assert (device0 = device) by congruence. subst device0.
      assert (other0 = other) by congruence. subst other0.
      exists (Ok network), (Some (msg_claim_conflict (net_name network))).
      split; [apply in_or_app; right; right; left; reflexivity|].
      split; reflexivity.
    + assert (device0 = device) by congruence. subst device0.
      assert (other0 = other) by congruence. subst other0.
      exists (Throw e), (formatErrorMessage e).
      split; [apply in_or_app; right; right; left; reflexivity|].
      split; reflexivity.
  - intros Hn. apply claimed_elsewhere_none in Hn.
    break_validation Hval Hin l0 Hkinds; try congruence.
    assert (device0 = device) by congruence. subst device0.
    eexists. reflexivity.
Qed.

End ValidationClaims.

Section MessageClaims.

(** C9 (amended).  The message shown for a failed remote call is the
    first entry of the error list of the response body when the body has
    such a list, whatever the status.  Without one it follows the status:
    fixed wordings for 404, 403 and 429, and the message of the error
    itself in every other case. *)
Theorem formatErrorMessage_body_then_status (error : JsError) :
  (forall errs, response_errors error = Some errs ->
                formatErrorMessage error = head errs)
  /\ (response_errors error = None ->
        (response_status error = Some 404 ->
           formatErrorMessage error = Some msg_not_found)
        /\ (response_status error = Some 403 ->
              formatErrorMessage error = Some msg_forbidden)
        /\ (response_status error = Some 429 ->
              formatErrorMessage error = Some msg_rate_limit)
        /\ (response_status error <> Some 404 ->
            response_status error <> Some 403 ->
            response_status error <> Some 429 ->
            formatErrorMessage error = Some (message error))).
Proof.
  unfold formatErrorMessage, status_is. split.
  - intros errs ->. reflexivity.
  - intros ->. repeat apply conj.
    + intros ->. reflexivity.
    + intros ->. reflexivity.
    + intros ->. reflexivity.
    + intros H404 H403 H429.
      destruct (response_status error) as [n|]; [|reflexivity].
      destruct (Nat.eqb_spec n 404); [congruence|].
      destruct (Nat.eqb_spec n 403); [congruence|].
      destruct (Nat.eqb_spec n 429); [congruence|].
      reflexivity.
Qed.

End MessageClaims.

Section RouteClaims.
Context {World : Type}.
Variable P : Platform World.
Variable organizations : StringMap.

Lemma validateDevices_first_exchange failedSerial replacementSerial
    (s : State World) org key rest :
  organizations = (org, key) :: rest ->
  exists r l,
    log_of (validateDevices P organizations failedSerial replacementSerial s)
    = XGetOrganization org org r :: l.
Proof.
  intros Horgs.
  destruct (validateDevices_run P organizations failedSerial replacementSerial s)
    as (found & s1 & l0 & v & s' & l & Es & Ev & Hscan & Hval).
  rewrite Ev. unfold log_of. cbn [snd].
  assert (H0 : exists r l1, l0 = XGetOrganization org org r :: l1).
  { rewrite Horgs in Hscan. inversion Hscan; subst; eauto. }
  destruct H0 as (r & l1 & ->).
  destruct Hval; eexists r, _; reflexivity.
Qed.

(** C1 (amended).  Equal serials are turned down by the page: its
    [validateDevices] shows a warning and sends nothing when the two
    fields, trimmed and in upper case, are the same.  The server checks
    the format only: a request with a malformed serial is answered 400
    before any remote call, while a request with the same well-formed
    serial twice goes to [validateDevices], which compares nothing and
    starts with the request for the first organization of the registry. *)
Theorem same_serial_is_checked_by_the_page_only :
  (forall failedInput replacementInput,
      Js.toUpperCase (Js.trim failedInput) = Js.toUpperCase (Js.trim replacementInput) ->
      exists msg, portal_validateDevices failedInput replacementInput
                  = ShowAlert msg "warning")
  /\ (forall failedSerial replacementSerial (s : State World),
        Js.serial_pattern_i (Js.trim failedSerial) = false
        \/ Js.serial_pattern_i (Js.trim replacementSerial) = false ->
        exists errs,
          post_validate_devices P organizations failedSerial replacementSerial s
          = (Ok (Status400 errs), s, [])
          /\ errs <> [])
  /\ (forall serial (s : State World) org key rest,
        Js.serial_pattern_i (Js.trim serial) = true ->
        organizations = (org, key) :: rest ->
        (exists v, res_of (post_validate_devices P organizations serial serial s)
                   = Ok (JsonBody v))
        /\ exists r l,
             log_of (post_validate_devices P organizations serial serial s)
             = XGetOrganization org org r :: l).
Proof.
  repeat apply conj.
  - intros failedInput replacementInput Heq.
    unfold portal_validateDevices. rewrite Heq, String.eqb_refl.
    destruct (negb _ || negb _); eexists; reflexivity.
  - intros failedSerial replacementSerial s Hbad.
    unfold post_validate_devices, serialValidation.
    destruct (Js.serial_pattern_i (Js.trim failedSerial)),
             (Js.serial_pattern_i (Js.trim replacementSerial));
      cbn; try (eexists; split; [reflexivity | discriminate]).
    destruct Hbad as [H|H]; discriminate H.
  - intros serial s org key rest Hok Horgs.
    unfold post_validate_devices, serialValidation. rewrite Hok. cbn [app].
    unfold try_catch, bind.
    destruct (validateDevices_run P organizations (Js.toUpperCase (Js.trim serial))
                (Js.toUpperCase (Js.trim serial)) s)
      as (found & s1 & l0 & v & s' & l & Es & Ev & Hscan & Hval).
    destruct (validateDevices_first_exchange (Js.toUpperCase (Js.trim serial))
                (Js.toUpperCase (Js.trim serial)) s org key rest Horgs)
      as (r & l' & Hlog).
    rewrite Ev in *. unfold res_of, log_of in *. cbn in *.
    split; [eexists; reflexivity|].
    exists r, l'. rewrite app_nil_r. exact Hlog.
Qed.

End RouteClaims.

(** ** Serial numbers on the page and on the server *)

Section SerialFacts.

Lemma upper_char_class c : Js.is_upper_alnum (Js.upper_char c) = Js.is_alnum c.
Proof. destruct c as [[] [] [] [] [] [] [] []]; reflexivity. Qed.

Lemma upper_char_dash c :
  Ascii.eqb (Js.upper_char c) "-"%char = Ascii.eqb c "-"%char.
Proof. destruct c as [[] [] [] [] [] [] [] []]; reflexivity. Qed.

Lemma upper_char_space c : Js.is_space (Js.upper_char c) = Js.is_space c.
Proof. destruct c as [[] [] [] [] [] [] [] []]; reflexivity. Qed.

Lemma upper_char_idem c : Js.upper_char (Js.upper_char c) = Js.upper_char c.
Proof. destruct c as [[] [] [] [] [] [] [] []]; reflexivity. Qed.

Lemma upper_alnum_fixed c : Js.is_upper_alnum c = true -> Js.upper_char c = c.
Proof. destruct c as [[] [] [] [] [] [] [] []]; intros H; try reflexivity; discriminate H. Qed.

Lemma upper_alnum_alnum c : Js.is_upper_alnum c = true -> Js.is_alnum c = true.
Proof. unfold Js.is_alnum. intros ->. reflexivity. Qed.

Lemma alnum_not_space c : Js.is_alnum c = true -> Js.is_space c = false.
Proof. destruct c as [[] [] [] [] [] [] [] []]; intros H; try reflexivity; discriminate H. Qed.

Lemma toUpperCase_chars s :
  list_ascii_of_string (Js.toUpperCase s) = map Js.upper_char (list_ascii_of_string s).
Proof. induction s as [|c s IH]; cbn; [reflexivity | rewrite IH; reflexivity]. Qed.

Lemma toUpperCase_idem s : Js.toUpperCase (Js.toUpperCase s) = Js.toUpperCase s.
Proof.
  induction s as [|c s IH]; cbn; [reflexivity|].
  rewrite upper_char_idem, IH. reflexivity.
Qed.

Lemma toUpperCase_length s : String.length (Js.toUpperCase s) = String.length s.
Proof. induction s as [|c s IH]; cbn; [reflexivity | rewrite IH; reflexivity]. Qed.

Lemma toUpperCase_empty s : Js.toUpperCase s = EmptyString -> s = EmptyString.
Proof. destruct s; [reflexivity | discriminate]. Qed.

(** The pattern of the page on the upper-cased string is the pattern of
    the server, which ignores case. *)
Lemma serial_pattern_upper s :
  Js.serial_pattern (Js.toUpperCase s) = Js.serial_pattern_i s.
Proof.
  unfold Js.serial_pattern, Js.serial_pattern_i, Js.serial_shape.
  rewrite toUpperCase_chars.
  destruct (list_ascii_of_string s)
    as [|a1 [|a2 [|a3 [|a4 [|d1 [|b1 [|b2 [|b3 [|b4 [|d2 [|c1 [|c2 [|c3 [|c4 [|x l]]]]]]]]]]]]]]];
    try reflexivity.
  cbn [map forallb]. rewrite !upper_char_class, !upper_char_dash. reflexivity.
Qed.

Lemma trimStart_upper s :
  Js.trimStart (Js.toUpperCase s) = Js.toUpperCase (Js.trimStart s).
Proof.
  induction s as [|c s IH]; cbn; [reflexivity|].
  rewrite upper_char_space. destruct (Js.is_space c); [exact IH | reflexivity].
Qed.

Lemma trimEnd_upper s :
  Js.trimEnd (Js.toUpperCase s) = Js.toUpperCase (Js.trimEnd s).
Proof.
  induction s as [|c s IH]; cbn; [reflexivity|].
  rewrite IH, upper_char_space.
  destruct (Js.trimEnd s) as [|a t]; cbn; [|reflexivity].
  destruct (Js.is_space c); reflexivity.
Qed.

Lemma trim_upper s : Js.trim (Js.toUpperCase s) = Js.toUpperCase (Js.trim s).
Proof. unfold Js.trim. rewrite trimStart_upper, trimEnd_upper. reflexivity. Qed.

Lemma trimEnd_idem s : Js.trimEnd (Js.trimEnd s) = Js.trimEnd s.
Proof.
  induction s as [|c s IH]; cbn; [reflexivity|].
  destruct (Js.trimEnd s) as [|a t] eqn:E.
  - destruct (Js.is_space c) eqn:Ec; cbn; [reflexivity|]. rewrite Ec. reflexivity.
  - change (Js.trimEnd (String c (String a t)))
      with (match Js.trimEnd (String a t) with
            | EmptyString => if Js.is_space c then EmptyString else String c EmptyString
            | String a' t' => String c (String a' t')
            end).
    rewrite IH. reflexivity.
Qed.

Lemma trimStart_clean s : starts_clean (Js.trimStart s).
Proof.
  induction s as [|c s IH]; cbn; [exact I|].
  destruct (Js.is_space c) eqn:E; [exact IH | exact E].
Qed.

Lemma trimStart_of_clean s : starts_clean s -> Js.trimStart s = s.
Proof. destruct s as [|c s]; cbn; [reflexivity|]. intros ->. reflexivity. Qed.

Lemma trimEnd_clean s : starts_clean s -> starts_clean (Js.trimEnd s).
Proof.
  destruct s as [|c s]; cbn; [exact id|]. intros H.
  destruct (Js.trimEnd s); [rewrite H|]; exact H.
Qed.

Lemma trim_clean s : starts_clean (Js.trim s).
Proof. apply trimEnd_clean, trimStart_clean. Qed.

Lemma trim_idem s : Js.trim (Js.trim s) = Js.trim s.
Proof.
  unfold Js.trim at 1. rewrite (trimStart_of_clean _ (trim_clean s)).
  unfold Js.trim. apply trimEnd_idem.
Qed.

Lemma trimStart_length s : String.length (Js.trimStart s) <= String.length s.
Proof.
  induction s as [|c s IH]; cbn; [lia|].
  destruct (Js.is_space c); cbn; lia.
Qed.

Lemma trimEnd_length s : String.length (Js.trimEnd s) <= String.length s.
Proof.
  induction s as [|c s IH]; cbn; [lia|].
  destruct (Js.trimEnd s); [destruct (Js.is_space c)|]; cbn in *; lia.
Qed.

Lemma trim_length s : String.length (Js.trim s) <= String.length s.
Proof.
  unfold Js.trim. pose proof (trimEnd_length (Js.trimStart s)).
  pose proof (trimStart_length s). lia.
Qed.

Lemma serial_shape_length cls s :
  Js.serial_shape cls s = true -> String.length s = 14.
Proof.
  unfold Js.serial_shape.
  destruct s as [|a1 [|a2 [|a3 [|a4 [|d1 [|b1 [|b2 [|b3 [|b4 [|d2 [|c1 [|c2 [|c3 [|c4 [|x l]]]]]]]]]]]]]]];
    cbn; intros H; try discriminate H; reflexivity.
Qed.

(** The check of the page, in the terms of the server. *)
Lemma validateSerialFormat_server serial :
  validateSerialFormat serial = Js.serial_pattern_i (Js.trim serial).
Proof. unfold validateSerialFormat. apply serial_pattern_upper. Qed.

(** On a string in the form in which the page sends it, the check is the
    strict pattern itself. *)
Lemma validateSerialFormat_canonical input :
  validateSerialFormat (Js.toUpperCase (Js.trim input))
  = Js.serial_pattern (Js.toUpperCase (Js.trim input)).
Proof.
  unfold validateSerialFormat.
  rewrite trim_upper, trim_idem, toUpperCase_idem. reflexivity.
Qed.

(** X1.  The page accepts every pair of serial numbers that the
    validation chain of the two POST routes accepts, and for texts in the
    ASCII range the converse holds as well: there the format check of the
    page passes on both fields exactly when the chain reports no error. *)
Theorem page_and_server_agree_on_ascii_serials failedSerial replacementSerial :
  (snd (serialValidation failedSerial replacementSerial) = [] ->
   validateSerialFormat failedSerial && validateSerialFormat replacementSerial = true)
  /\ (Js.ascii_text failedSerial = true -> Js.ascii_text replacementSerial = true ->
      validateSerialFormat failedSerial && validateSerialFormat replacementSerial = true ->
      snd (serialValidation failedSerial replacementSerial) = []).
Proof.
  unfold serialValidation. cbn [snd].
  rewrite !validateSerialFormat_server.
  destruct (Js.serial_pattern_i (Js.trim failedSerial));
    destruct (Js.serial_pattern_i (Js.trim replacementSerial)); cbn;
    split; intros; try reflexivity; discriminate.
Qed.

(** X2.  What the page sends to [/api/validate-devices] is a pair of
    different serial numbers in upper case that match the strict pattern,
    and the validation chain of the server passes them on unchanged. *)
Theorem page_sends_canonical_distinct_serials failedInput replacementInput f r :
  portal_validateDevices failedInput replacementInput = FetchValidateDevices f r ->
  f <> r
  /\ Js.serial_pattern f = true /\ Js.serial_pattern r = true
  /\ serialValidation f r = (f, r, [])
  /\ Js.toUpperCase f = f /\ Js.toUpperCase r = r.
Proof.
  unfold portal_validateDevices.
  rewrite !validateSerialFormat_canonical.
  set (f' := Js.toUpperCase (Js.trim failedInput)).
  set (r' := Js.toUpperCase (Js.trim replacementInput)).
  destruct (Js.serial_pattern f') eqn:Ef; [|discriminate].
  destruct (Js.serial_pattern r') eqn:Er; [|discriminate].
  cbn [negb orb].
  destruct (String.eqb_spec f' r') as [|Hne]; [discriminate|].
  intros H. injection H as <- <-.
  assert (Tf : Js.trim f' = f')
    by (unfold f'; rewrite trim_upper, trim_idem; reflexivity).
  assert (Tr : Js.trim r' = r')
    by (unfold r'; rewrite trim_upper, trim_idem; reflexivity).
  assert (Uf : Js.toUpperCase f' = f') by apply toUpperCase_idem.
  assert (Ur : Js.toUpperCase r' = r') by apply toUpperCase_idem.
  split; [exact Hne|]. split; [exact Ef|]. split; [exact Er|].
  split; [|split; assumption].
  unfold serialValidation. rewrite Tf, Tr.
  rewrite <- Uf at 3. rewrite <- Ur at 3.
  rewrite <- !serial_pattern_upper, Uf, Ur, Ef, Er. reflexivity.
Qed.

End SerialFacts.

(** ** The serial fields of the page *)

Section FormatFacts.

Lemma made_of_cons p c s : made_of p (String c s) = p c && made_of p s.
Proof. unfold made_of. cbn. rewrite negb_involutive. reflexivity. Qed.

Lemma keep_alnum_keep c s :
  Js.is_alnum c = true ->
  JsText.keep_alnum (String c s) = String c (JsText.keep_alnum s).
Proof. intros H. cbn. rewrite H. reflexivity. Qed.

Lemma keep_alnum_dash s :
  JsText.keep_alnum (String "-"%char s) = JsText.keep_alnum s.
Proof. reflexivity. Qed.

Lemma keep_alnum_length v :
  String.length (Js.toUpperCase (JsText.keep_alnum v))
  = String.length (JsText.keep_alnum v).
Proof. apply toUpperCase_length. Qed.

(** The cleaned value is made of upper-case letters and digits. *)
Lemma cleaned_is_upper v :
  made_of Js.is_upper_alnum (Js.toUpperCase (JsText.keep_alnum v)) = true.
Proof.
  induction v as [|c v IH]; [reflexivity|]. cbn [JsText.keep_alnum].
  destruct (Js.is_alnum c) eqn:E; [|exact IH].
  cbn [Js.toUpperCase]. rewrite made_of_cons, upper_char_class, E. exact IH.
Qed.

Lemma keep_alnum_fixed u :
  made_of Js.is_upper_alnum u = true -> JsText.keep_alnum u = u.
Proof.
  induction u as [|c u IH]; [reflexivity|]. rewrite made_of_cons.
  intros H. apply andb_true_iff in H as [Hc Hu].
  rewrite keep_alnum_keep by (apply upper_alnum_alnum; exact Hc).
  rewrite (IH Hu). reflexivity.
Qed.

Lemma toUpperCase_fixed u :
  made_of Js.is_upper_alnum u = true -> Js.toUpperCase u = u.
Proof.
  induction u as [|c u IH]; [reflexivity|]. rewrite made_of_cons.
  intros H. apply andb_true_iff in H as [Hc Hu].
  cbn. rewrite (upper_alnum_fixed _ Hc), (IH Hu). reflexivity.
Qed.

Lemma formatSerialNumber_layout v :
  formatSerialNumber v = layout (Js.toUpperCase (JsText.keep_alnum v)).
Proof. reflexivity. Qed.

Lemma serial_of_twelve a1 a2 a3 a4 b1 b2 b3 b4 c1 c2 c3 c4 :
  forallb Js.is_upper_alnum [a1; a2; a3; a4; b1; b2; b3; b4; c1; c2; c3; c4] = true ->
  validateSerialFormat
    (String a1 (String a2 (String a3 (String a4 (String "-"
    (String b1 (String b2 (String b3 (String b4 (String "-"
    (String c1 (String c2 (String c3 (String c4 EmptyString))))))))))))))
  = true.
Proof.
  intros H. rewrite validateSerialFormat_server.
  assert (Ha : Js.is_space a1 = false /\ Js.is_space c4 = false).
  { cbn [forallb] in H.
    repeat (apply andb_true_iff in H as [? H]).
    split; apply alnum_not_space, upper_alnum_alnum; assumption. }
  destruct Ha as [Ha Hc].
  unfold Js.trim. cbn [Js.trimStart]. rewrite Ha.
  cbn [Js.trimEnd]. rewrite Hc.
  unfold Js.serial_pattern_i, Js.serial_shape. cbn [list_ascii_of_string].
  assert (Hi : forallb Js.is_alnum [a1; a2; a3; a4; b1; b2; b3; b4; c1; c2; c3; c4] = true).
  { apply forallb_forall. intros x Hx. apply upper_alnum_alnum.
    exact (proj1 (forallb_forall _ _) H x Hx). }
  rewrite Hi. reflexivity.
Qed.

Ltac upper_facts H :=
  rewrite ?made_of_cons in H;
  repeat match type of H with
         | (_ && _ = true) =>
             let Hc := fresh "Hc" in apply andb_true_iff in H as [Hc H]
         end.

Lemma layout_of_twelve u :
  made_of Js.is_upper_alnum u = true -> 12 <= String.length u ->
  validateSerialFormat (layout u) = true.
Proof.
  intros H L.
  destruct u as [|a1 [|a2 [|a3 [|a4 [|b1 [|b2 [|b3 [|b4 [|c1 [|c2 [|c3 [|c4 rest]]]]]]]]]]]];
    cbn [String.length] in L; try lia.
  upper_facts H.
  apply serial_of_twelve. cbn [forallb].
  repeat match goal with Hx : Js.is_upper_alnum _ = true |- _ => rewrite Hx; clear Hx end.
  reflexivity.
Qed.

Lemma layout_short u :
  String.length u < 12 -> String.length (layout u) < 14.
Proof.
  intros L.
  destruct u as [|a1 [|a2 [|a3 [|a4 [|b1 [|b2 [|b3 [|b4 [|c1 [|c2 [|c3 [|c4 rest]]]]]]]]]]]];
    cbn [String.length] in L; try lia; cbv; lia.
Qed.

(** X3.  The field holds a serial number that passes the format check
    exactly when at least twelve letters and digits have been typed into
    it, whatever else was typed in between. *)
Theorem formatSerialNumber_completes_at_twelve fieldValue :
  validateSerialFormat (formatSerialNumber fieldValue) = true
  <-> 12 <= String.length (JsText.keep_alnum fieldValue).
Proof.
  rewrite formatSerialNumber_layout, <- keep_alnum_length.
  split.
  - intros H. rewrite validateSerialFormat_server in H.
    apply serial_shape_length in H.
    destruct (Nat.le_gt_cases 12
                (String.length (Js.toUpperCase (JsText.keep_alnum fieldValue))))
      as [Hle|Hlt]; [exact Hle|].
    apply layout_short in Hlt.
    pose proof (trim_length (layout (Js.toUpperCase (JsText.keep_alnum fieldValue)))).
    lia.
  - apply layout_of_twelve, cleaned_is_upper.
Qed.

Lemma layout_is_stable u :
  made_of Js.is_upper_alnum u = true ->
  layout (Js.toUpperCase (JsText.keep_alnum (layout u))) = layout u.
Proof.
  intros H.
  destruct u as [|a1 [|a2 [|a3 [|a4 [|b1 [|b2 [|b3 [|b4 [|c1 [|c2 [|c3 [|c4 rest]]]]]]]]]]]];
    upper_facts H;
    repeat match goal with
           | Hx : Js.is_upper_alnum ?c = true |- _ =>
               pose proof (upper_alnum_alnum _ Hx);
               pose proof (upper_alnum_fixed _ Hx); clear Hx
           end;
    cbv [layout String.length Nat.ltb Nat.leb andb JsText.take JsText.drop String.append];
    repeat first [ rewrite keep_alnum_dash | rewrite keep_alnum_keep by assumption ];
    cbn [JsText.keep_alnum Js.toUpperCase];
    repeat match goal with Hx : Js.upper_char _ = _ |- _ => rewrite Hx; clear Hx end;
    reflexivity.
Qed.

(** X4.  Formatting a field that is already formatted changes nothing. *)
Theorem formatSerialNumber_idempotent fieldValue :
  formatSerialNumber (formatSerialNumber fieldValue) = formatSerialNumber fieldValue.
Proof.
  rewrite !formatSerialNumber_layout.
  apply layout_is_stable, cleaned_is_upper.
Qed.

End FormatFacts.

(** ** The registry and the variable it is read from *)

Section ConstructorFacts.

Lemma free_of_app p a b : free_of p (a +:+ b) = free_of p a && free_of p b.
Proof.
  induction a as [|c a IH]; [reflexivity|].
  change (String c a +:+ b) with (String c (a +:+ b)).
  cbn. rewrite IH. apply andb_assoc.
Qed.

Lemma free_of_weaken (p q : ascii -> bool) s :
  (forall c, q c = true -> p c = true) ->
  free_of p s = true -> free_of q s = true.
Proof.
  intros Hpq. induction s as [|c s IH]; [reflexivity|]. cbn.
  intros H. apply andb_true_iff in H as [Hc Hs].
  rewrite (IH Hs), andb_true_r.
  destruct (q c) eqn:E; [|reflexivity].
  rewrite (Hpq c E) in Hc. discriminate Hc.
Qed.

Lemma token_free s :
  token s = true ->
  s <> EmptyString /\ free_of Js.is_space s = true
  /\ free_of is_comma s = true /\ free_of is_colon s = true.
Proof.
  unfold token. intros H. apply andb_true_iff in H as [Hn Hf].
  split; [intros ->; discriminate Hn|].
  repeat split; revert Hf; apply free_of_weaken; intros c Hc;
    unfold separator, is_comma, is_colon in *; rewrite Hc;
    rewrite ?orb_true_r; reflexivity.
Qed.

Lemma split_single sep x :
  free_of (fun c => Ascii.eqb c sep) x = true -> split sep x = [x].
Proof.
  induction x as [|c x IH]; [reflexivity|]. cbn.
  intros H. apply andb_true_iff in H as [Hc Hx].
  destruct (Ascii.eqb c sep); [discriminate Hc|].
  rewrite (IH Hx). reflexivity.
Qed.

Lemma split_app sep x rest :
  free_of (fun c => Ascii.eqb c sep) x = true ->
  split sep (x +:+ String sep rest) = x :: split sep rest.
Proof.
  induction x as [|c x IH].
  - intros _. change (EmptyString +:+ String sep rest) with (String sep rest).
    cbn. rewrite Ascii.eqb_refl. reflexivity.
  - change (String c x +:+ String sep rest) with (String c (x +:+ String sep rest)).
    cbn. intros H. apply andb_true_iff in H as [Hc Hx].
    destruct (Ascii.eqb c sep); [discriminate Hc|].
    rewrite (IH Hx). reflexivity.
Qed.

Lemma join_cons sep x y l :
  Js.join sep (x :: y :: l) = x +:+ sep +:+ Js.join sep (y :: l).
Proof. reflexivity. Qed.

Lemma join_more sep x l :
  l <> [] -> Js.join sep (x :: l) = x +:+ sep +:+ Js.join sep l.
Proof. destruct l; [congruence | reflexivity]. Qed.

(** Splitting at the commas gives back the mappings that were joined, up
    to the first one that holds a comma itself. *)
Lemma split_join_prefix xs y l :
  Forall (fun x => free_of is_comma x = true) xs ->
  split "," (Js.join "," (xs ++ y :: l)) = xs ++ split "," (Js.join "," (y :: l)).
Proof.
  induction xs as [|x xs IH]; intros H; [reflexivity|].
  inversion H as [|? ? Hx Hxs]; subst.
  change ((x :: xs) ++ y :: l) with (x :: (xs ++ y :: l)).
  rewrite join_more by (destruct xs; discriminate).
  change ("," +:+ Js.join "," (xs ++ y :: l))
    with (String ","%char (Js.join "," (xs ++ y :: l))).
  rewrite (split_app _ _ _ Hx), (IH Hxs). reflexivity.
Qed.

Lemma split_join xs :
  xs <> [] -> Forall (fun x => free_of is_comma x = true) xs ->
  split "," (Js.join "," xs) = xs.
Proof.
  intros Hne H.
  destruct (exists_last Hne) as (front & y & ->).
  apply Forall_app in H as [Hf Hy]. inversion Hy as [|? ? Hy' _]; subst.
  rewrite (split_join_prefix _ _ _ Hf).
  change (Js.join "," [y]) with y. rewrite (split_single _ _ Hy'). reflexivity.
Qed.

Lemma trimEnd_free s : free_of Js.is_space s = true -> Js.trimEnd s = s.
Proof.
  induction s as [|c s IH]; [reflexivity|]. cbn.
  intros H. apply andb_true_iff in H as [Hc Hs].
  rewrite (IH Hs). destruct s; [|reflexivity].
  destruct (Js.is_space c); [discriminate Hc | reflexivity].
Qed.

Lemma trimStart_free s : free_of Js.is_space s = true -> Js.trimStart s = s.
Proof.
  destruct s as [|c s]; [reflexivity|]. cbn.
  intros H. apply andb_true_iff in H as [Hc _].
  destruct (Js.is_space c); [discriminate Hc | reflexivity].
Qed.

Lemma trim_free s : free_of Js.is_space s = true -> Js.trim s = s.
Proof.
  intros H. unfold Js.trim. rewrite (trimStart_free _ H). apply trimEnd_free, H.
Qed.

Lemma free_of_trimStart p s : free_of p s = true -> free_of p (Js.trimStart s) = true.
Proof.
  induction s as [|c s IH]; [reflexivity|]. cbn.
  intros H. destruct (Js.is_space c).
  - apply andb_true_iff in H as [_ Hs]. exact (IH Hs).
  - exact H.
Qed.

Lemma free_of_trimEnd p s : free_of p s = true -> free_of p (Js.trimEnd s) = true.
Proof.
  induction s as [|c s IH]; [reflexivity|]. cbn.
  intros H. apply andb_true_iff in H as [Hc Hs]. specialize (IH Hs).
  destruct (Js.trimEnd s) as [|a t].
  - destruct (Js.is_space c); [reflexivity|]. cbn. rewrite Hc. reflexivity.
  - cbn in *. rewrite Hc. exact IH.
Qed.

Lemma free_of_trim p s : free_of p s = true -> free_of p (Js.trim s) = true.
Proof. intros H. apply free_of_trimEnd, free_of_trimStart, H. Qed.

Lemma default_some (d x : string) : default d (Some x) = x.
Proof. reflexivity. Qed.

Lemma eqb_empty_false s : s <> EmptyString -> String.eqb s "" = false.
Proof. destruct s; [congruence | reflexivity]. Qed.

(** A mapping made of two tokens is read back as its two parts. *)
Lemma parse_plain_mapping e rest acc :
  plain_entry e ->
  parse_mappings (mapping_of e :: rest) acc
  = parse_mappings rest (map_set (fst e) (snd e) acc).
Proof.
  intros [Hk Hv].
  destruct (token_free _ Hk) as (Hk0 & Hk1 & Hk2 & Hk3).
  destruct (token_free _ Hv) as (Hv0 & Hv1 & Hv2 & Hv3).
  cbn [parse_mappings]. unfold mapping_of.
  rewrite trim_free
    by (rewrite !free_of_app; rewrite Hk1, Hv1; reflexivity).
  change (":" +:+ snd e) with (String ":"%char (snd e)).
  rewrite (split_app ":"%char _ _ Hk3), (split_single ":"%char _ Hv3).
  rewrite (eqb_empty_false _ Hk0), (eqb_empty_false _ Hv0).
  cbn [negb andb]. rewrite (trim_free _ Hk1), (trim_free _ Hv1). reflexivity.
Qed.

Lemma parse_plain_prefix reg l acc :
  Forall plain_entry reg ->
  parse_mappings (map mapping_of reg ++ l) acc = parse_mappings l (set_all reg acc).
Proof.
  revert acc. induction reg as [|e reg IH]; intros acc H; [reflexivity|].
  inversion H as [|? ? He Hreg]; subst.
  cbn [map app]. rewrite (parse_plain_mapping _ _ _ He). apply IH, Hreg.
Qed.

Lemma set_all_fresh reg acc :
  List.NoDup (map_keys (acc ++ reg)) -> set_all reg acc = acc ++ reg.
Proof.
  revert acc. induction reg as [|[k v] reg IH]; intros acc H.
  - cbn. rewrite app_nil_r. reflexivity.
  - cbn [set_all fold_left fst snd].
    assert (Hk : map_has k acc = false).
    { destruct (map_has k acc) eqn:E; [|reflexivity].
      apply map_has_keys in E. unfold map_keys in H. rewrite map_app in H.
      cbn [map fst] in H. apply List.NoDup_remove_2 in H. exfalso. apply H.
      apply in_or_app. left. exact E. }
    rewrite (map_set_new_key_goes_last _ _ _ Hk).
    fold (set_all reg (acc ++ [(k, v)])).
    rewrite IH; rewrite <- app_assoc; [reflexivity | exact H].
Qed.

Lemma mapping_free_of_comma e : plain_entry e -> free_of is_comma (mapping_of e) = true.
Proof.
  intros [Hk Hv].
  destruct (token_free _ Hk) as (_ & _ & Hk2 & _).
  destruct (token_free _ Hv) as (_ & _ & Hv2 & _).
  unfold mapping_of. rewrite !free_of_app, Hk2, Hv2. reflexivity.
Qed.

Lemma mappings_free_of_comma reg :
  Forall plain_entry reg ->
  Forall (fun x => free_of is_comma x = true) (map mapping_of reg).
Proof.
  intros H. apply Forall_map. apply (Forall_impl _ _ _ H).
  intros e. apply mapping_free_of_comma.
Qed.

Lemma mapping_nonempty e : plain_entry e -> mapping_of e <> EmptyString.
Proof.
  intros [Hk _]. destruct (token_free _ Hk) as (Hk0 & _).
  unfold mapping_of. destruct (fst e); [congruence | discriminate].
Qed.

Lemma join_nonempty x xs : x <> EmptyString -> Js.join "," (x :: xs) <> EmptyString.
Proof.
  intros H. destruct xs as [|y ys]; [exact H|]. rewrite join_cons.
  destruct x; [congruence | discriminate].
Qed.

(** X5.  Round trip of the registry: for a registry of tokens with no
    organization listed twice, the constructor reads back from the value
    [id:key,id:key,...] the very registry, in the same order. *)
Theorem constructor_reads_back_the_registry reg :
  reg <> [] -> List.NoDup (map_keys reg) -> Forall plain_entry reg ->
  MerakiAPI_constructor (Some (MERAKI_ORGS_of reg)) = Ok reg.
Proof.
  intros Hne Hnd Hall. unfold MerakiAPI_constructor, MERAKI_ORGS_of.
  fold mapping_of.
  assert (Htruthy : Js.truthy (Some (Js.join "," (map mapping_of reg))) = true).
  { destruct reg as [|e reg]; [congruence|]. inversion Hall; subst.
    cbn [Js.truthy map]. rewrite eqb_empty_false; [reflexivity|].
    apply join_nonempty, mapping_nonempty. assumption. }
  change (fun e : string * string => fst e +:+ ":" +:+ snd e) with mapping_of.
  rewrite Htruthy, default_some.
  rewrite split_join
    by (first [ destruct reg; [congruence | discriminate]
              | apply mappings_free_of_comma, Hall ]).
  rewrite <- (app_nil_r (map mapping_of reg)).
  rewrite (parse_plain_prefix _ _ _ Hall). cbn [parse_mappings].
  rewrite set_all_fresh by exact Hnd. reflexivity.
Qed.

(** X6.  The variable is refused as a whole at the first mapping that has
    no colon, and the message quotes that mapping as it was written,
    whatever follows it. *)
Theorem constructor_names_the_first_bad_mapping reg bad others :
  Forall plain_entry reg ->
  free_of is_comma bad = true -> free_of is_colon bad = true ->
  Js.join "," (map mapping_of reg ++ bad :: others) <> EmptyString ->
  MerakiAPI_constructor (Some (Js.join "," (map mapping_of reg ++ bad :: others)))
  = Throw (Error ("Failed to parse MERAKI_ORGS: Invalid mapping format: " +:+ bad
                  +:+ ". Expected format: ORG_ID:API_KEY")).
Proof.
  intros Hall Hcomma Hcolon Hne. unfold MerakiAPI_constructor.
  cbn [Js.truthy]. rewrite (eqb_empty_false _ Hne), default_some. cbn [negb].
  rewrite (split_join_prefix _ _ _ (mappings_free_of_comma _ Hall)).
  rewrite (parse_plain_prefix _ _ _ Hall).
  assert (Hsplit : exists more, split "," (Js.join "," (bad :: others)) = bad :: more).
  { destruct others as [|y ys].
    - exists []. apply (split_single _ _ Hcomma).
    - rewrite join_cons. eexists.
      change ("," +:+ Js.join "," (y :: ys))
        with (String ","%char (Js.join "," (y :: ys))).
      apply (split_app _ _ _ Hcomma). }
  destruct Hsplit as [more ->]. cbn [parse_mappings].
  rewrite (split_single ":"%char _ (free_of_trim _ _ Hcolon)). reflexivity.
Qed.

(** Keys of the registry after one more entry. *)
Lemma map_set_keys k v (m : StringMap) k' :
  In k' (map_keys (map_set k v m)) <-> k' = k \/ In k' (map_keys m).
Proof.
  rewrite map_set_old_key_keeps_place.
  destruct (map_has k m) eqn:E.
  - apply map_has_keys in E. split; [auto|]. intros [->|H]; assumption.
  - rewrite in_app_iff. cbn. split; [intros [H|[H|[]]]; auto | intros [H|H]; auto].
Qed.

Lemma map_set_NoDup k v (m : StringMap) :
  List.NoDup (map_keys m) -> List.NoDup (map_keys (map_set k v m)).
Proof.
  intros H. rewrite map_set_old_key_keeps_place.
  destruct (map_has k m) eqn:E; [exact H|].
  apply List.NoDup_app; [exact H | constructor; [intros [] | constructor] |].
  intros x Hx [<-|[]].
  apply map_has_keys in Hx. congruence.
Qed.

Lemma map_set_nonempty k v (m : StringMap) : map_set k v m <> [].
Proof. destruct m as [|[k' v'] m]; cbn; [discriminate|]. destruct (String.eqb k' k); discriminate. Qed.

Lemma split_head_clean sep s h t :
  starts_clean s -> split sep s = h :: t -> starts_clean h.
Proof.
  destruct s as [|c s]; cbn.
  - intros _ H. injection H as <- _. exact I.
  - intros Hc. destruct (Ascii.eqb c sep).
    + intros H. injection H as <- _. exact I.
    + destruct (split sep s); intros H; injection H as <- _; exact Hc.
Qed.

Lemma trim_of_clean_nonempty h :
  starts_clean h -> h <> EmptyString -> Js.trim h <> EmptyString.
Proof.
  destruct h as [|c h]; [congruence|]. intros Hc _.
  unfold Js.trim. rewrite (trimStart_of_clean _ Hc). cbn in *.
  destruct (Js.trimEnd h); [rewrite Hc|]; discriminate.
Qed.

(** What a successful run of the loop keeps and adds. *)
Lemma parse_mappings_invariant l acc m :
  parse_mappings l acc = Ok m ->
  (List.NoDup (map_keys acc) -> List.NoDup (map_keys m))
  /\ (Forall (fun k => k <> EmptyString) (map_keys acc) ->
      Forall (fun k => k <> EmptyString) (map_keys m))
  /\ (acc <> [] \/ l <> [] -> m <> [])
  /\ (forall k, In k (map_keys acc) -> In k (map_keys m))
  /\ (forall mapping, In mapping l ->
        exists orgId apiKey more,
          split ":" (Js.trim mapping) = orgId :: apiKey :: more
          /\ orgId <> EmptyString /\ apiKey <> EmptyString
          /\ In (Js.trim orgId) (map_keys m)).
Proof.
  revert acc. induction l as [|mapping l IH]; intros acc H.
  - cbn in H. injection H as <-.
    repeat split; try (intros; assumption).
    + intros [Ha|Hl]; congruence.
    + intros mapping [].
  - cbn [parse_mappings] in H.
    destruct (split ":" (Js.trim mapping)) as [|orgId [|apiKey more]] eqn:E;
      try discriminate H.
    destruct (String.eqb_spec orgId "") as [|Ho]; [discriminate H|].
    destruct (String.eqb_spec apiKey "") as [|Ha]; [discriminate H|].
    cbn [negb andb] in H.
    destruct (IH _ H) as (Hnd & Hne & Hm & Hkeys & Hall).
    assert (Hin : In (Js.trim orgId) (map_keys m)).
    { apply Hkeys, map_set_keys. left. reflexivity. }
    repeat split.
    + intros Hacc. apply Hnd, map_set_NoDup, Hacc.
    + intros Hacc. apply Hne. apply List.Forall_forall. intros k Hk.
      apply map_set_keys in Hk as [->|Hk].
      * apply trim_of_clean_nonempty; [|exact Ho].
        apply (split_head_clean _ _ _ _ (trim_clean mapping) E).
      * exact (proj1 (List.Forall_forall _ _) Hacc k Hk).
    + intros _. apply Hm. left. apply map_set_nonempty.
    + intros k Hk. apply Hkeys, map_set_keys. right. exact Hk.
    + intros mapping' [<-|Hin'].
      * exists orgId, apiKey, more. repeat split; assumption.
      * apply Hall, Hin'.
Qed.

Lemma constructor_parse v m :
  MerakiAPI_constructor v = Ok m ->
  exists s, v = Some s /\ parse_mappings (split "," s) [] = Ok m.
Proof.
  unfold MerakiAPI_constructor. destruct v as [s|]; [|discriminate].
  destruct (Js.truthy (Some s)); [|discriminate]. rewrite default_some.
  destruct (parse_mappings (split "," s) []) as [m'|e] eqn:E; [|discriminate].
  intros H. injection H as <-. exists s. split; [reflexivity | exact E].
Qed.

Lemma split_not_nil sep s : split sep s <> [].
Proof.
  destruct s as [|c s]; cbn; [discriminate|].
  destruct (Ascii.eqb c sep); [discriminate|]. destruct (split sep s); discriminate.
Qed.

(** X7.  A registry the constructor builds is never empty, lists no
    organization twice, and has no empty organization id. *)
Theorem constructor_registry_invariant MERAKI_ORGS organizations :
  MerakiAPI_constructor MERAKI_ORGS = Ok organizations ->
  organizations <> []
  /\ List.NoDup (map_keys organizations)
  /\ Forall (fun orgId => orgId <> EmptyString) (map_keys organizations).
Proof.
  intros H. destruct (constructor_parse _ _ H) as (s & -> & Hp).
  destruct (parse_mappings_invariant _ _ _ Hp) as (Hnd & Hne & Hm & _ & _).
  split; [apply Hm; right; apply split_not_nil|].
  split; [apply Hnd; constructor | apply Hne; constructor].
Qed.

(** X8.  The constructor skips nothing: when it succeeds, every mapping
    between two commas of the variable has an organization id and a key,
    both not empty, and its trimmed id is a key of the registry. *)
Theorem constructor_registers_every_mapping value organizations mapping :
  MerakiAPI_constructor (Some value) = Ok organizations ->
  In mapping (split "," value) ->
  exists orgId apiKey more,
    split ":" (Js.trim mapping) = orgId :: apiKey :: more
    /\ orgId <> EmptyString /\ apiKey <> EmptyString
    /\ In (Js.trim orgId) (map_keys organizations).
Proof.
  intros H Hin. destruct (constructor_parse _ _ H) as (s & Hs & Hp).
  injection Hs as <-.
  destruct (parse_mappings_invariant _ _ _ Hp) as (_ & _ & _ & _ & Hall).
  apply Hall, Hin.
Qed.

End ConstructorFacts.

(** ** What [validateDevices] sends and what its success rests on *)

Section ValidationTraces.
Context {World : Type}.
Variable P : Platform World.
Variable organizations : StringMap.

Local Abbreviation validate failedSerial replacementSerial s :=
  (validateDevices P organizations failedSerial replacementSerial s).

Lemma network_scan_lookups org organization serial networks l res :
  network_scan org organization serial networks l res ->
  Forall (fun x => exists network r,
            x = XGetNetworkDevice org (net_id network) serial r
            /\ In network networks) l.
Proof.
  induction 1 as [|network rest device|network rest r l res Hr H IH].
  - constructor.
  - constructor; [|constructor]. exists network. eexists. split; [reflexivity | left; reflexivity].
  - constructor.
    + exists network, r. split; [reflexivity | left; reflexivity].
    + apply (Forall_impl _ _ _ IH). intros x (n & r' & -> & Hn).
      exists n, r'. split; [reflexivity | right; exact Hn].
Qed.

(** The requests of a scan read only, each with the client of an
    organization of the registry. *)
Lemma organization_scan_reads serial orgs l res :
  organization_scan serial orgs l res ->
  Forall (fun x => write_exchange x = false /\ In (client_of x) (map_keys orgs)) l.
Proof.
  assert (Hn : forall org key rest organization networks l res,
             network_scan org organization serial networks l res ->
             Forall (fun x => write_exchange x = false
                              /\ In (client_of x) (map_keys ((org, key) :: rest))) l).
  { intros org key rest organization networks l0 res0 H.
    apply network_scan_lookups in H. apply (Forall_impl _ _ _ H).
    intros x (n & r & -> & _). split; [reflexivity | left; reflexivity]. }
  assert (Hw : forall org key rest l,
             Forall (fun x => write_exchange x = false
                              /\ In (client_of x) (map_keys rest)) l ->
             Forall (fun x => write_exchange x = false
                              /\ In (client_of x) (map_keys ((org, key) :: rest))) l).
  { intros org key rest l0 H. apply (Forall_impl _ _ _ H).
    intros x [Hx Hin]. split; [exact Hx | right; exact Hin]. }
  induction 1 as [ | org key rest e l res H IH
                   | org key rest organization e l res H IH
                   | org key rest organization networks l found H
                   | org key rest organization networks l1 l2 res H1 H IH ].
  - constructor.
  - constructor; [split; [reflexivity | left; reflexivity]|]. apply Hw, IH.
  - repeat (constructor; [split; [reflexivity | left; reflexivity]|]). apply Hw, IH.
  - repeat (constructor; [split; [reflexivity | left; reflexivity]|]).
    apply (Hn _ _ _ _ _ _ _ H).
  - repeat (constructor; [split; [reflexivity | left; reflexivity]|]).
    apply Forall_app. split; [apply (Hn _ _ _ _ _ _ _ H1) | apply Hw, IH].
Qed.

Lemma app_eq_app_cons {A} (l1 l2 pre post : list A) x :
  l1 ++ l2 = pre ++ x :: post ->
  (exists post1, l1 = pre ++ x :: post1 /\ post = post1 ++ l2)
  \/ (exists pre2, pre = l1 ++ pre2 /\ l2 = pre2 ++ x :: post).
Proof.
  revert pre. induction l1 as [|y l1 IH]; intros pre H.
  - right. exists pre. split; [reflexivity | exact H].
  - destruct pre as [|z pre]; cbn in H; injection H as Hy H.
    + left. exists l1. subst y. split; [reflexivity | symmetry; exact H].
    + subst z. destruct (IH pre H) as [(post1 & -> & ->)|(pre2 & -> & ->)].
      * left. exists post1. split; reflexivity.
      * right. exists pre2. split; reflexivity.
Qed.

(** Every lookup of a scan is about the serial sought, in a network that
    the organization whose client sends it has listed before. *)
Lemma organization_scan_lookups serial orgs l res :
  organization_scan serial orgs l res ->
  forall before c n serial' r after,
    l = before ++ XGetNetworkDevice c n serial' r :: after ->
    serial' = serial
    /\ exists networks network,
         In (XGetOrganizationNetworks c c (Ok networks)) before
         /\ In network networks /\ net_id network = n.
Proof.
  assert (Hn : forall org organization networks l res,
             network_scan org organization serial networks l res ->
             forall c n serial' r,
               In (XGetNetworkDevice c n serial' r) l ->
               c = org /\ serial' = serial
               /\ exists network, In network networks /\ net_id network = n).
  { intros org organization networks l0 res0 H c n serial' r Hin.
    apply network_scan_lookups in H.
    destruct (proj1 (List.Forall_forall _ _) H _ Hin) as (network & r' & Hx & Hnet).
    injection Hx as -> -> -> _. eauto. }
  induction 1 as [ | org key rest e l res H IH
                   | org key rest organization e l res H IH
                   | org key rest organization networks l found H
                   | org key rest organization networks l1 l2 res H1 H IH ];
    intros before c n serial' r after Hl.
  - destruct before; discriminate Hl.
  - destruct before as [|x before]; cbn in Hl; [discriminate Hl|].
    injection Hl as <- Hl.
    destruct (IH _ _ _ _ _ _ Hl) as (Hs & networks & network & Hin & Hnet).
    split; [exact Hs|]. exists networks, network. split; [right; exact Hin | exact Hnet].
  - destruct before as [|x [|y before]]; cbn in Hl; try discriminate Hl.
    injection Hl as <- <- Hl.
    destruct (IH _ _ _ _ _ _ Hl) as (Hs & networks & network & Hin & Hnet).
    split; [exact Hs|]. exists networks, network.
    split; [right; right; exact Hin | exact Hnet].
  - destruct before as [|x [|y before]]; cbn in Hl; try discriminate Hl.
    injection Hl as <- <- Hl.
    assert (Hin : In (XGetNetworkDevice c n serial' r) l)
      by (rewrite Hl; apply in_or_app; right; left; reflexivity).
    destruct (Hn _ _ _ _ _ H _ _ _ _ Hin) as (-> & Hs & network & Hnet).
    split; [exact Hs|]. exists networks, network.
    split; [right; left; reflexivity | exact Hnet].
  - destruct before as [|x [|y before]]; cbn in Hl; try discriminate Hl.
    injection Hl as <- <- Hl.
    apply app_eq_app_cons in Hl as [(post1 & Hl1 & _)|(pre2 & -> & Hl2)].
    + assert (Hin : In (XGetNetworkDevice c n serial' r) l1)
        by (rewrite Hl1; apply in_or_app; right; left; reflexivity).
      destruct (Hn _ _ _ _ _ H1 _ _ _ _ Hin) as (-> & Hs & network & Hnet).
      split; [exact Hs|]. exists networks, network.
      split; [right; left; reflexivity | exact Hnet].
    + destruct (IH _ _ _ _ _ _ Hl2) as (Hs & networks' & network & Hin & Hnet).
      split; [exact Hs|]. exists networks', network.
      split; [right; right; apply in_or_app; right; exact Hin | exact Hnet].
Qed.

(** The scan that found the device went through a list of networks that
    holds the network it reports. *)
Lemma organization_scan_listing serial orgs l f :
  organization_scan serial orgs l (Some f) ->
  exists networks,
    In (XGetOrganizationNetworks (foundOrganizationId f) (foundOrganizationId f)
          (Ok networks)) l
    /\ In (foundNetwork f) networks.
Proof.
  intros H. remember (Some f) as res eqn:R.
  induction H as [ | org key rest e l res H IH
                   | org key rest organization e l res H IH
                   | org key rest organization networks l found H
                   | org key rest organization networks l1 l2 res H1 H IH ].
  - discriminate R.
  - destruct (IH R) as (networks & Hl & Hn). exists networks.
    split; [right; exact Hl | exact Hn].
  - destruct (IH R) as (networks & Hl & Hn). exists networks.
    split; [right; right; exact Hl | exact Hn].
  - injection R as ->.
    destruct (network_scan_found _ _ _ _ _ _ H) as (Ho & _ & Hn & _).
    rewrite Ho. exists networks. split; [right; left; reflexivity | exact Hn].
  - destruct (IH R) as (networks' & Hl & Hn). exists networks'.
    split; [right; right; apply in_or_app; right; exact Hl | exact Hn].
Qed.

(** X9.  [validateDevices] changes nothing on the platform: every request
    it sends is a GET, sent with the client of an organization of the
    registry. *)
Theorem validateDevices_only_reads failedSerial replacementSerial (s : State World) :
  Forall (fun x => write_exchange x = false
                   /\ In (client_of x) (map_keys organizations))
    (log_of (validate failedSerial replacementSerial s)).
Proof.
  destruct (validateDevices_run P organizations failedSerial replacementSerial s)
    as (found & s1 & l0 & v & s' & l & Es & Ev & Hscan & Hval).
  rewrite Ev. unfold log_of. cbn [snd].
  pose proof (organization_scan_reads _ _ _ _ Hscan) as Hl0.
  destruct Hval as [ | f e | f inventory Hf | f inventory device other network Hf Hc
                     | f inventory device other e Hf Hc | f inventory device statuses Hf Hc ];
    [exact Hl0 | ..];
    (apply Forall_app; split; [exact Hl0|]);
    pose proof (proj1 (organization_scan_found _ _ _ _ Hscan)) as Hk;
    repeat (constructor; [split; [reflexivity | exact Hk]|]); constructor.
Qed.

(** X10.  Every device lookup of [validateDevices] asks for the failed
    serial, with the client of an organization of the registry, in a
    network that this organization has listed in an answer that comes
    before the lookup in the exchanges of the same call. *)
Theorem lookups_follow_the_listings failedSerial replacementSerial (s : State World)
    before client networkId serial r after :
  log_of (validate failedSerial replacementSerial s)
  = before ++ XGetNetworkDevice client networkId serial r :: after ->
  serial = failedSerial
  /\ In client (map_keys organizations)
  /\ exists networks network,
       In (XGetOrganizationNetworks client client (Ok networks)) before
       /\ In network networks /\ net_id network = networkId.
Proof.
  destruct (validateDevices_run P organizations failedSerial replacementSerial s)
    as (found & s1 & l0 & v & s' & l & Es & Ev & Hscan & Hval).
  rewrite Ev. unfold log_of. cbn [snd]. intros Hl.
  assert (Hrest : exists rest, l = l0 ++ rest
                 /\ ~ In (XGetNetworkDevice client networkId serial r) rest).
  { destruct Hval; [exists []; rewrite app_nil_r; split; [reflexivity | intros []]|..];
      (eexists; split; [reflexivity|]);
      intros Hx; repeat (destruct Hx as [Hx|Hx]; [discriminate Hx|]); destruct Hx. }
  destruct Hrest as (rest & -> & Hrest).
  apply app_eq_app_cons in Hl as [(post1 & Hl0 & _)|(pre2 & _ & Hl2)].
  2:{ exfalso. apply Hrest. rewrite Hl2. apply in_or_app. right. left. reflexivity. }
  destruct (organization_scan_lookups _ _ _ _ Hscan _ _ _ _ _ _ Hl0)
    as (Hs & networks & network & Hnets & Hnet).
  split; [exact Hs|]. split.
  - pose proof (organization_scan_reads _ _ _ _ Hscan) as Hr.
    assert (Hin : In (XGetNetworkDevice client networkId serial r) l0)
      by (rewrite Hl0; apply in_or_app; right; left; reflexivity).
    exact (proj2 (proj1 (List.Forall_forall _ _) Hr _ Hin)).
  - exists networks, network. split; [exact Hnets | exact Hnet].
Qed.

Lemma find_serial_some serial inventory device :
  find_serial serial inventory = Some device ->
  In device inventory /\ inv_serial device = serial.
Proof.
  unfold find_serial. intros H. apply find_some in H as [Hin Heq].
  split; [exact Hin | apply String.eqb_eq; exact Heq].
Qed.

(** X11.  A successful validation rests on what the platform answered in
    the same call: the organization is one of the registry, the failed
    device was returned by a lookup in the network reported, that network
    was listed by the organization, and the replacement is an entry of the
    inventory the organization answered, with the serial asked for, that
    no other network has claimed. *)
Theorem validation_success_is_grounded failedSerial replacementSerial (s : State World)
    f live device networkId organizationId organizationName :
  res_of (validate failedSerial replacementSerial s)
  = Ok (ValidationSuccess f live device networkId organizationId organizationName) ->
  let log := log_of (validate failedSerial replacementSerial s) in
  In organizationId (map_keys organizations)
  /\ organizationId = foundOrganizationId f
  /\ networkId = net_id (foundNetwork f)
  /\ organizationName = org_name (foundOrganization f)
  /\ In (XGetNetworkDevice organizationId networkId failedSerial
           (Ok (Some (failedDevice f)))) log
  /\ (exists networks,
        In (XGetOrganizationNetworks organizationId organizationId (Ok networks)) log
        /\ In (foundNetwork f) networks)
  /\ (exists inventory,
        In (XGetInventoryDevices organizationId organizationId (Ok inventory)) log
        /\ In device inventory)
  /\ inv_serial device = replacementSerial
  /\ (inv_networkId device = None \/ inv_networkId device = Some ""
      \/ inv_networkId device = Some networkId).
Proof.
  destruct (validateDevices_run P organizations failedSerial replacementSerial s)
    as (found & s1 & l0 & v & s' & l & Es & Ev & Hscan & Hval).
  rewrite Ev. unfold res_of, log_of. cbn [fst snd]. intros Hv.
  injection Hv as ->.
  inversion Hval as [ | | | | | f' inventory device' statuses Hf Hc ]; subst; clear Hval.
  destruct (organization_scan_found _ _ _ _ Hscan) as (Hk & pre & -> & _).
  destruct (organization_scan_listing _ _ _ _ Hscan) as (networks & Hnets & Hnet).
  destruct (find_serial_some _ _ _ Hf) as (Hin & Hserial).
  split; [exact Hk|]. split; [reflexivity|]. split; [reflexivity|].
  split; [reflexivity|]. split.
  { apply in_or_app; left. apply in_or_app; right. left; reflexivity. }
  split.
  { exists networks. split; [apply in_or_app; left; exact Hnets | exact Hnet]. }
  split.
  { exists inventory. split; [apply in_or_app; right; left; reflexivity | exact Hin]. }
  split; [exact Hserial|].
  apply claimed_elsewhere_none. exact Hc.
Qed.

(** X12.  The status of the failed device is asked for only by a
    validation that succeeds, as its last request, and the answer cannot
    make it fail: when the request fails the result is the same success
    without the live fields. *)
Theorem live_status_is_best_effort failedSerial replacementSerial (s : State World)
    client org r :
  In (XGetDeviceStatuses client org r)
     (log_of (validate failedSerial replacementSerial s)) ->
  exists f device,
    res_of (validate failedSerial replacementSerial s)
    = Ok (ValidationSuccess f (live_of (failedDevice f) r) device
            (net_id (foundNetwork f)) (foundOrganizationId f)
            (org_name (foundOrganization f)))
    /\ client = foundOrganizationId f /\ org = foundOrganizationId f
    /\ last (log_of (validate failedSerial replacementSerial s))
       = Some (XGetDeviceStatuses client org r)
    /\ (forall e, r = Throw e -> live_of (failedDevice f) r = None).
Proof.
  destruct (validateDevices_run P organizations failedSerial replacementSerial s)
    as (found & s1 & l0 & v & s' & l & Es & Ev & Hscan & Hval).
  rewrite Ev. unfold res_of, log_of. cbn [fst snd]. intros Hin.
  pose proof (organization_scan_reads _ _ _ _ Hscan) as Hr.
  pose proof (organization_scan_kinds _ _ _ _ Hscan) as Hkinds.
  assert (Hl0 : ~ In (XGetDeviceStatuses client org r) l0).
  { intros H. apply (proj1 (List.Forall_forall _ _) Hkinds) in H. discriminate H. }
  destruct Hval as [ | f e | f inventory Hf | f inventory device other network Hf Hc
                     | f inventory device other e Hf Hc | f inventory device statuses Hf Hc ];
    [contradiction | ..];
    (apply in_app_or in Hin as [Hin|Hin]; [contradiction|]);
    repeat match goal with
      | H : In _ (_ :: _) |- _ => destruct H as [H|H]
      | H : In _ [] |- _ => destruct H
      end; try discriminate.
  match goal with
  | H : XGetDeviceStatuses _ _ _ = _ |- _ => injection H as <- <- <-
  end.
  exists f, device. split; [reflexivity|]. split; [reflexivity|]. split; [reflexivity|].
  split.
  - match goal with
    | |- last (?l ++ [?a; ?b]) = _ =>
        change (l ++ [a; b]) with (l ++ ([a] ++ [b]));
        rewrite (app_assoc l [a] [b]); apply last_snoc
    end.
  - intros e ->. reflexivity.
Qed.

End ValidationTraces.

(** ** What [replaceDevice] sends, and in which order *)

Section ReplacementTraces.
Context {World : Type}.
Variable P : Platform World.
Variable clock : nat -> string.
Variable organizations : StringMap.
Variables failedSerial replacementSerial networkId organizationId : string.

Local Abbreviation run s :=
  (replaceDevice P clock organizations failedSerial replacementSerial networkId
     organizationId s).

Ltac split_log :=
  repeat match goal with
    | H : False |- _ => destruct H
    | H : In _ (_ ++ _) |- _ => apply in_app_or in H as [H|H]
    | H : In _ (_ :: _) |- _ => destruct H as [H|H]
    | H : In _ [] |- _ => destruct H
    end.

Ltac optional_puts :=
  match goal with
  | He : best_effort_log _ _ _ _ _ ?l, H : In _ ?l |- _ =>
      destruct (best_effort_log_puts _ _ _ _ _ _ _ He H)
        as [(? & ? & ?)|(? & ? & ? & ?)]; subst
  end.

Ltac the_run s res l Hrun :=
  destruct (replaceDevice_run P clock organizations failedSerial replacementSerial
              networkId organizationId s) as (res & s_end & l & E & Hrun);
  rewrite E in *; unfold res_of, log_of in *; cbn [fst snd] in *; clear E.

(** X13.  [replaceDevice] stays inside the network it was given: every
    request is sent with the client of the organization and names the
    network; the reads and the removal are about the failed device, the
    claim and the updates about the replacement. *)
Theorem replaceDevice_stays_in_its_network (s : State World) :
  Forall (replacement_request organizationId networkId failedSerial replacementSerial)
    (log_of (run s)).
Proof.
  the_run s res l Hrun.
  apply List.Forall_forall. intros x Hin.
  destruct Hrun; unfold first_three in Hin; split_log; subst;
    try optional_puts; cbn; auto.
Qed.

(** X14.  [replaceDevice] reads before it writes: its exchanges are at
    most three GETs followed by writes only. *)
Theorem replaceDevice_reads_before_it_writes (s : State World) :
  exists reads writes,
    log_of (run s) = reads ++ writes
    /\ Forall (fun x => write_exchange x = false) reads
    /\ Forall (fun x => write_exchange x = true) writes
    /\ length reads <= 3.
Proof.
  the_run s res l Hrun.
  destruct Hrun as [ Hc | device e Hc Hd | d radio ports e Hc Ha
                     | d radio ports claim e Hc Hp
                     | d radio ports claim extras e Hc Hp He
                     | d radio ports claim extras Hc Hp He ].
  - exists [], []. repeat split; [constructor.. | cbn; lia].
  - eexists [_], []. repeat split; [repeat constructor.. | cbn; lia].
  - eexists (first_three _ _ _ _ _ _), _.
    split; [reflexivity|]. repeat split; [repeat constructor.. | cbn; lia].
  - eexists (first_three _ _ _ _ _ _), _.
    split; [reflexivity|]. repeat split; [repeat constructor.. | cbn; lia].
  - eexists (first_three _ _ _ _ _ _), _.
    split; [reflexivity|]. split; [repeat constructor|]. split; [|cbn; lia].
    apply List.Forall_forall. intros x Hin. split_log; subst;
      try optional_puts; reflexivity.
  - eexists (first_three _ _ _ _ _ _), _.
    split; [reflexivity|]. split; [repeat constructor|]. split; [|cbn; lia].
    apply List.Forall_forall. intros x Hin. split_log; subst;
      try optional_puts; reflexivity.
Qed.

Lemma last_of_four {A} (l1 l2 l3 : list A) x :
  last (l1 ++ l2 ++ l3 ++ [x]) = Some x.
Proof. rewrite !app_assoc. apply last_snoc. Qed.

(** X15.  The failed device is removed last and only once its
    configuration is on the replacement: a removal request is the last
    exchange of the call, it follows a claim that passed and a PUT of the
    configuration that succeeded, and the call reports success exactly
    when the removal succeeded. *)
Theorem removal_is_last_and_follows_the_update (s : State World) client net serial r :
  In (XRemoveDevice client net serial r) (log_of (run s)) ->
  last (log_of (run s)) = Some (XRemoveDevice client net serial r)
  /\ (exists cfg,
        In (XUpdateDevice organizationId networkId replacementSerial cfg (Ok tt))
           (log_of (run s)))
  /\ (exists claim,
        In (XClaimDevices organizationId networkId [replacementSerial] claim)
           (log_of (run s))
        /\ claim_passes claim = true)
  /\ exists res, res_of (run s) = Ok res /\ (success res = true <-> r = Ok tt).
Proof.
  the_run s res l Hrun. intros Hin.
  destruct Hrun as [ Hc | device e Hc Hd | d radio ports e Hc Ha
                     | d radio ports claim e Hc Hp
                     | d radio ports claim extras e Hc Hp He
                     | d radio ports claim extras Hc Hp He ];
    unfold first_three in Hin; split_log; try discriminate;
    try (optional_puts; discriminate).
  all: match goal with
       | H : XRemoveDevice _ _ _ _ = XRemoveDevice _ _ _ _ |- _ =>
           injection H as <- <- <- <-
       end.
  all: split; [apply last_of_four|].
  all: split; [eexists; apply in_or_app; right; right; left; reflexivity|].
  all: split;
    [exists claim; split; [apply in_or_app; right; left; reflexivity | exact Hp]|].
  all: eexists; split; [reflexivity|]; cbn; split; intros H;
    first [reflexivity | discriminate H].
Qed.

(** X16.  The best-effort requests cannot stop the replacement, whatever
    they are answered.  When one of the two optional reads of step 1 was
    sent, step 1 is recorded as completed and the claim is requested; when
    one of the optional PUTs of step 3 was sent, step 3 is recorded as
    completed and the removal is requested. *)
Theorem optional_requests_do_not_abort (s : State World) x :
  In x (log_of (run s)) ->
  exists res,
    res_of (run s) = Ok res
    /\ (optional_get x = true ->
        (exists claim,
           In (XClaimDevices organizationId networkId [replacementSerial] claim)
              (log_of (run s)))
        /\ exists op, operations res !! 0 = Some op
                      /\ step op = 1 /\ op_status op = "completed")
    /\ (optional_put x = true ->
        (exists r,
           In (XRemoveDevice organizationId networkId failedSerial r)
              (log_of (run s)))
        /\ exists op, operations res !! 2 = Some op
                      /\ step op = 3 /\ op_status op = "completed").
Proof.
  the_run s res l Hrun. intros Hin. exists res. split; [reflexivity|].
  destruct Hrun as [ Hc | device e Hc Hd | d radio ports e Hc Ha
                     | d radio ports claim e Hc Hp
                     | d radio ports claim extras e Hc Hp He
                     | d radio ports claim extras Hc Hp He ];
    unfold first_three in Hin; split_log; subst; try optional_puts.
  all: split; intros Hx; try discriminate Hx.
  all: split;
    [ eexists; unfold first_three;
      repeat first [ left; reflexivity
                   | apply in_or_app; right
                   | right ]
    | eexists; split; [reflexivity | split; reflexivity] ].
Qed.

Lemma split_after_prefix {A} (a b before after : list A) x :
  a ++ b = before ++ x :: after -> ~ In x a ->
  exists before', before = a ++ before' /\ b = before' ++ x :: after.
Proof.
  revert before. induction a as [|y a IH]; intros before H Hx.
  - exists before. split; [reflexivity | exact H].
  - destruct before as [|z before]; cbn in H; injection H as Hy H.
    + exfalso. apply Hx. left. exact Hy.
    + subst z. destruct (IH before H) as (before' & -> & Hb).
      * intros Hin. apply Hx. right. exact Hin.
      * exists before'. split; [reflexivity | exact Hb].
Qed.

Lemma split_before_last {A} (b pre post : list A) x z :
  b ++ [z] = pre ++ x :: post -> x <> z ->
  exists post', post = post' ++ [z] /\ b = pre ++ x :: post'.
Proof.
  intros H Hxz.
  destruct (exists_last (l := x :: post)) as (front & y & Hl); [discriminate|].
  assert (Hfront : exists post', front = x :: post' /\ post = post' ++ [y]).
  { destruct front as [|x' front]; cbn in Hl.
    - injection Hl as <- ->. exfalso.
      apply (app_inj_tail b pre z x) in H as [_ H]. congruence.
    - injection Hl as <- ->. exists front. split; reflexivity. }
  destruct Hfront as (post' & -> & ->).
  change (pre ++ x :: post' ++ [y]) with (pre ++ (x :: post') ++ [y]) in H.
  rewrite app_assoc in H. apply app_inj_tail in H as [Hb <-].
  exists post'. split; [reflexivity | exact Hb].
Qed.

(** The loop over the ports sends nothing after a PUT that failed. *)
Lemma ports_log_stops org net serial ports l :
  ports_log org net serial ports l ->
  forall pre post port body e,
    l = pre ++ XUpdateSwitchPort org net serial port body (Throw e) :: post ->
    post = [].
Proof.
  induction 1 as [|p rest e0|p rest l H IH]; intros pre post port body e Hl.
  - destruct pre; discriminate Hl.
  - destruct pre as [|y pre]; cbn in Hl.
    + injection Hl as _ _ _ <-. reflexivity.
    + injection Hl as _ Hl. destruct pre; discriminate Hl.
  - destruct pre as [|y pre]; cbn in Hl.
    + discriminate Hl.
    + injection Hl as _ Hl. exact (IH _ _ _ _ _ Hl).
Qed.

Lemma best_effort_log_stops org net serial radio ports l pre post port body e :
  best_effort_log org net serial radio ports l ->
  l = pre ++ XUpdateSwitchPort org net serial port body (Throw e) :: post ->
  post = [].
Proof.
  intros [radio' ports' lr lp Hr Hp] Hl.
  apply split_after_prefix in Hl as (pre' & _ & Hl).
  - exact (ports_log_stops _ _ _ _ _ Hp _ _ _ _ _ Hl).
  - destruct radio' as [settings|].
    + destruct Hr as [r ->]. intros [Hx|[]]. discriminate Hx.
    + subst lr. intros [].
Qed.

(** X17.  The loop over the switch ports stops at the first port that
    cannot be configured: after a port PUT that failed, the only request
    that follows is the removal of the failed device. *)
Theorem port_loop_stops_at_first_failure (s : State World) before port body e after :
  log_of (run s)
  = before
    ++ XUpdateSwitchPort organizationId networkId replacementSerial port body (Throw e)
    :: after ->
  exists r, after = [XRemoveDevice organizationId networkId failedSerial r].
Proof.
  the_run s res l Hrun. intros Hl.
  assert (Hin : In (XUpdateSwitchPort organizationId networkId replacementSerial
                      port body (Throw e)) l)
    by (rewrite Hl; apply in_or_app; right; left; reflexivity).
  destruct Hrun as [ Hc | device e0 Hc Hd | d radio ports e0 Hc Ha
                     | d radio ports claim e0 Hc Hp
                     | d radio ports claim extras e0 Hc Hp He
                     | d radio ports claim extras Hc Hp He ];
    try (unfold first_three in Hin; split_log; discriminate).
  all: rewrite !app_assoc in Hl.
  all: apply split_before_last in Hl as (post' & -> & Hl); [|discriminate].
  all: rewrite <- app_assoc in Hl.
  all: apply split_after_prefix in Hl as (pre' & _ & Hl);
    [|unfold first_three; intros Hx; split_log; discriminate].
  all: apply split_after_prefix in Hl as (pre'' & _ & Hl);
    [|intros Hx; split_log; discriminate].
  all: rewrite (best_effort_log_stops _ _ _ _ _ _ _ _ _ _ _ He Hl).
  all: eexists; reflexivity.
Qed.

Lemma radio_listed configData (radio : option Json) (ports : option (list SwitchPort)) :
  In "Wireless radio settings"
     (configurationTypes
        (make_summary failedSerial replacementSerial networkId organizationId
           configData radio ports))
  <-> exists settings, radio = Some settings.
Proof.
  unfold make_summary. cbn [configurationTypes].
  destruct radio as [settings|], ports as [ps|]; cbn [app]; split.
  all: try (intros _; eexists; reflexivity).
  all: try (intros [? Hx]; discriminate Hx).
  all: try (intros _; right; right; left; reflexivity).
  all: intros Hin; exfalso; split_log;
    match goal with
    | H : _ = "Wireless radio settings" |- _ =>
        cbv [String.append dquote] in H; discriminate H
    end.
Qed.

Lemma ports_listed configData (radio : option Json) (ports : option (list SwitchPort)) :
  In "Switch port settings"
     (configurationTypes
        (make_summary failedSerial replacementSerial networkId organizationId
           configData radio ports))
  <-> exists ps, ports = Some ps.
Proof.
  unfold make_summary. cbn [configurationTypes].
  destruct radio as [settings|], ports as [ps|]; cbn [app]; split.
  all: try (intros _; eexists; reflexivity).
  all: try (intros [? Hx]; discriminate Hx).
  all: try (intros _; right; right; left; reflexivity).
  all: try (intros _; right; right; right; left; reflexivity).
  all: intros Hin; exfalso; split_log;
    match goal with
    | H : _ = "Switch port settings" |- _ =>
        cbv [String.append dquote] in H; discriminate H
    end.
Qed.

Lemma swallowed_some {A} (r : Res (option A)) :
  (exists a, swallowed r = Some a) <-> exists a, r = Ok (Some a).
Proof.
  destruct r as [[a|]|e]; cbn; split; intros [a' H];
    first [discriminate H | eexists; reflexivity].
Qed.

(** X18.  The summary of a successful replacement lists the radio and the
    switch port settings by what step 1 read, not by what step 3 wrote:
    each of the two lines is there exactly when the GET of the settings
    returned a body, whatever the PUTs were answered. *)
Theorem summary_lists_what_was_read (s : State World) res sm :
  res_of (run s) = Ok res -> summary res = Some sm ->
  (In "Wireless radio settings" (configurationTypes sm)
   <-> exists settings,
         In (XGetRadioSettings organizationId networkId failedSerial
               (Ok (Some settings))) (log_of (run s)))
  /\ (In "Switch port settings" (configurationTypes sm)
      <-> exists ports,
            In (XGetSwitchPorts organizationId networkId failedSerial
                  (Ok (Some ports))) (log_of (run s))).
Proof.
  the_run s res' l Hrun. intros Hres Hsm. injection Hres as ->.
  destruct Hrun as [ Hc | device e0 Hc Hd | d radio ports e0 Hc Ha
                     | d radio ports claim e0 Hc Hp
                     | d radio ports claim extras e0 Hc Hp He
                     | d radio ports claim extras Hc Hp He ];
    cbn [summary failure] in Hsm; try discriminate Hsm.
  injection Hsm as <-.
  rewrite radio_listed, ports_listed, !swallowed_some.
  split; split.
  - intros [a ->]. exists a. right; left; reflexivity.
  - intros [a Hin]. unfold first_three in Hin. split_log; try discriminate;
      try (optional_puts; discriminate).
    match goal with H : XGetRadioSettings _ _ _ _ = _ |- _ => injection H as -> end.
    exists a; reflexivity.
  - intros [a ->]. exists a. right; right; left; reflexivity.
  - intros [a Hin]. unfold first_three in Hin. split_log; try discriminate;
      try (optional_puts; discriminate).
    match goal with H : XGetSwitchPorts _ _ _ _ = _ |- _ => injection H as -> end.
    exists a; reflexivity.
Qed.

End ReplacementTraces.

(** ** The read-only queries *)

Section QueryFacts.
Context {World : Type}.
Variable P : Platform World.
Variable organizations : StringMap.

Local Arguments formatErrorMessage : simpl never.
Local Arguments apiKeyMasked : simpl never.
Local Arguments String.append : simpl never.
Local Arguments call : simpl never.

Lemma hits_app l1 l2 : hits (l1 ++ l2) = hits l1 ++ hits l2.
Proof. apply omap_app. Qed.

Lemma collect_networks_run org organization serial networks (s : State World) :
  exists rs s' l,
    collect_networks P org org organization serial networks s = (Ok rs, s', l)
    /\ map result_key rs = hits l
    /\ Forall (fun x => exists network r,
                 x = XGetNetworkDevice org (net_id network) serial r
                 /\ In network networks) l
    /\ length l = length networks.
Proof.
  revert s. induction networks as [|network rest IH]; intros s.
  - exists [], s, []. repeat split; constructor.
  - cbn [collect_networks]. unfold bind at 1, try_catch at 1. rewrite call_run.
    assert (Hw : forall l,
               Forall (fun x => exists n r,
                         x = XGetNetworkDevice org (net_id n) serial r
                         /\ In n rest) l ->
               Forall (fun x => exists n r,
                         x = XGetNetworkDevice org (net_id n) serial r
                         /\ In n (network :: rest)) l).
    { intros l H. apply (Forall_impl _ _ _ H). intros x (n & r & -> & Hn).
      exists n, r. split; [reflexivity | right; exact Hn]. }
    destruct (getNetworkDevice P org (net_id network) serial (st_world s))
      as [[[device|]|e] w]; cbn.
    all: unfold bind at 1.
    all: match goal with |- context [collect_networks _ _ _ _ _ _ ?s1] =>
           destruct (IH s1) as (rs & s' & l & E & Hk & Hl & Hlen) end.
    all: rewrite E; cbn; rewrite ?app_nil_r.
    all: eexists _, _, _; split; [reflexivity|].
    all: split; [cbn; rewrite ?Hk; reflexivity|].
    all: split; [|cbn; rewrite Hlen; reflexivity].
    all: constructor; [eexists network, _; split; [reflexivity | left; reflexivity]|].
    all: apply Hw, Hl.
Qed.

Lemma collect_organizations_run serial orgs (s : State World) :
  exists rs s' l,
    collect_organizations P organizations serial orgs s = (Ok rs, s', l)
    /\ map result_key rs = hits l
    /\ Forall (fun x => search_exchange x = true
                        /\ forall c n serial' r,
                             x = XGetNetworkDevice c n serial' r -> serial' = serial) l.
Proof.
  revert s. induction orgs as [|[org key] rest IH]; intros s.
  - exists [], s, []. repeat split; constructor.
  - cbn [collect_organizations].
    unfold bind at 1, try_catch at 1, bind at 1, getClient.
    destruct (map_has org organizations); cbn.
    2:{ unfold bind at 1.
        destruct (IH s) as (rs & s' & l & E & Hk & Hl). rewrite E. cbn.
        rewrite ?app_nil_r.
        eexists _, _, _. split; [reflexivity|]. split; assumption. }
    unfold bind at 1. rewrite call_run.
    destruct (getOrganization P org org (st_world s)) as [[organization|e] w1]; cbn.
    2:{ unfold bind at 1.
        match goal with |- context [collect_organizations _ _ _ _ ?s1] =>
          destruct (IH s1) as (rs & s' & l & E & Hk & Hl) end.
        rewrite E. cbn. rewrite ?app_nil_r. eexists _, _, _. split; [reflexivity|].
        split; [exact Hk|]. constructor; [|exact Hl].
        split; [reflexivity | intros ? ? ? ? Hx; discriminate Hx]. }
    unfold bind at 1. rewrite call_run. cbn.
    destruct (getOrganizationNetworks P org org w1) as [[networks|e] w2]; cbn.
    2:{ unfold bind at 1.
        match goal with |- context [collect_organizations _ _ _ _ ?s1] =>
          destruct (IH s1) as (rs & s' & l & E & Hk & Hl) end.
        rewrite E. cbn. rewrite ?app_nil_r. eexists _, _, _. split; [reflexivity|].
        split; [exact Hk|].
        repeat (constructor;
                [split; [reflexivity | intros ? ? ? ? Hx; discriminate Hx]|]).
        exact Hl. }
    match goal with |- context [collect_networks _ _ _ _ _ _ ?s1] =>
      destruct (collect_networks_run org organization serial networks s1)
        as (here & s2 & l1 & E1 & Hk1 & Hl1 & _) end.
    rewrite E1. cbn. unfold bind at 1.
    destruct (IH s2) as (more & s3 & l2 & E2 & Hk2 & Hl2).
    rewrite E2. cbn. rewrite ?app_nil_r.
    eexists _, _, _. split; [reflexivity|]. split.
    + rewrite map_app, Hk1, Hk2. cbn. rewrite hits_app. reflexivity.
    + repeat (constructor;
              [split; [reflexivity | intros ? ? ? ? Hx; discriminate Hx]|]).
      apply Forall_app. split; [|exact Hl2].
      apply (Forall_impl _ _ _ Hl1). intros x (n & r & -> & _).
      split; [reflexivity|]. intros ? ? ? ? Hx. injection Hx as _ _ <- _. reflexivity.
Qed.

(** X19.  The search over all organizations never fails and passes by
    nothing: its results are, in order, exactly the lookups that returned a
    device, each with the organization and the network of its lookup, and
    [found] tells whether there is one.  It sends nothing but the three
    kinds of GET of a search. *)
Theorem exhaustive_search_reports_every_hit serial (s : State World) :
  exists reply,
    res_of (searchDeviceAcrossOrganizations P organizations serial s) = Ok reply
    /\ search_success reply = true
    /\ map result_key (results reply)
       = hits (log_of (searchDeviceAcrossOrganizations P organizations serial s))
    /\ found reply
       = existsb hit (log_of (searchDeviceAcrossOrganizations P organizations serial s))
    /\ Forall (fun x => search_exchange x = true)
         (log_of (searchDeviceAcrossOrganizations P organizations serial s)).
Proof.
  unfold searchDeviceAcrossOrganizations, bind.
  destruct (collect_organizations_run serial organizations s)
    as (rs & s' & l & E & Hk & Hl).
  rewrite E. cbn. rewrite app_nil_r. unfold res_of, log_of. cbn [fst snd].
  eexists. split; [reflexivity|]. cbn [search_success results found].
  split; [reflexivity|]. split; [exact Hk|]. split.
  - assert (Hlen : length rs = length (hits l)) by (rewrite <- Hk, length_map; reflexivity).
    rewrite Hlen. clear. induction l as [|x l IH]; [reflexivity|].
    unfold hits in *. cbn [omap existsb].
    destruct x as [ | |c n s0 [[d|]|e]| | | | | | | | | | ]; cbn; try exact IH; reflexivity.
  - apply (Forall_impl _ _ _ Hl). intros x [Hx _]. exact Hx.
Qed.


Lemma networks_agree org organization serial networks (s : State World) :
  exists f s1 l1 rs s2 l2,
    search_networks P org org organization serial networks s = (Ok f, s1, l1)
    /\ collect_networks P org org organization serial networks s = (Ok rs, s2, l2)
    /\ head rs = as_result <$> f
    /\ (exists rest, l2 = l1 ++ rest)
    /\ (f = None -> rs = [] /\ s2 = s1 /\ l2 = l1).
Proof.
  revert s. induction networks as [|network rest IH]; intros s.
  - exists None, s, [], [], s, []. cbn.
    repeat split; try reflexivity. exists []; reflexivity.
  - cbn [search_networks collect_networks]. unfold bind, try_catch.
    rewrite !call_run.
    destruct (getNetworkDevice P org (net_id network) serial (st_world s))
      as [[[device|]|e] w]; cbn.
    + match goal with |- context [collect_networks _ _ _ _ _ _ ?s1] =>
        destruct (collect_networks_run org organization serial rest s1)
          as (rs & s2 & l2 & E & _) end.
      rewrite E. cbn. rewrite ?app_nil_r.
      eexists _, _, _, _, _, _. split; [reflexivity|]. split; [reflexivity|].
      split; [reflexivity|]. split; [exists l2; reflexivity | discriminate].
    + match goal with |- context [collect_networks _ _ _ _ _ _ ?s1] =>
        destruct (IH s1) as (f & s1' & l1 & rs & s2 & l2 & E1 & E2 & Hh & [r Hr] & Hn)
      end.
      rewrite E1, E2. cbn. rewrite ?app_nil_r.
      eexists _, _, _, _, _, _. split; [reflexivity|]. split; [reflexivity|].
      split; [exact Hh|]. split; [exists r; rewrite Hr; reflexivity|].
      intros Hf. destruct (Hn Hf) as (-> & -> & ->). repeat split; reflexivity.
    + match goal with |- context [collect_networks _ _ _ _ _ _ ?s1] =>
        destruct (IH s1) as (f & s1' & l1 & rs & s2 & l2 & E1 & E2 & Hh & [r Hr] & Hn)
      end.
      rewrite E1, E2. cbn. rewrite ?app_nil_r.
      eexists _, _, _, _, _, _. split; [reflexivity|]. split; [reflexivity|].
      split; [exact Hh|]. split; [exists r; rewrite Hr; reflexivity|].
      intros Hf. destruct (Hn Hf) as (-> & -> & ->). repeat split; reflexivity.
Qed.

Lemma head_app_some {A} (l1 l2 : list A) x : head l1 = Some x -> head (l1 ++ l2) = Some x.
Proof. destruct l1; [discriminate | exact id]. Qed.

Lemma organizations_agree serial orgs (s : State World) :
  exists f s1 l1 rs s2 l2,
    search_organizations P organizations serial orgs s = (Ok f, s1, l1)
    /\ collect_organizations P organizations serial orgs s = (Ok rs, s2, l2)
    /\ head rs = as_result <$> f
    /\ (exists rest, l2 = l1 ++ rest)
    /\ (f = None -> rs = [] /\ s2 = s1 /\ l2 = l1).
Proof.
  revert s. induction orgs as [|[org key] rest IH]; intros s.
  - exists None, s, [], [], s, []. cbn.
    repeat split; try reflexivity. exists []; reflexivity.
  - cbn [search_organizations collect_organizations].
    unfold bind, try_catch, getClient.
    destruct (map_has org organizations); cbn; [|(match goal with |- context [collect_organizations _ _ _ _ ?s1] =>
         destruct (IH s1)
           as (f & s1' & l1 & rs & s2 & l2 & E1 & E2 & Hh & [r Hr] & Hn)
       end;
       rewrite E1, E2; cbn; rewrite ?app_nil_r;
       eexists _, _, _, _, _, _; (split; [reflexivity|]); (split; [reflexivity|]);
       (split; [exact Hh|]); (split; [exists r; rewrite Hr; reflexivity|]);
       intros Hf; destruct (Hn Hf) as (-> & -> & ->); repeat split; reflexivity)].
    rewrite !call_run.
    destruct (getOrganization P org org (st_world s)) as [[organization|e] w1]; cbn;
      [|(match goal with |- context [collect_organizations _ _ _ _ ?s1] =>
         destruct (IH s1)
           as (f & s1' & l1 & rs & s2 & l2 & E1 & E2 & Hh & [r Hr] & Hn)
       end;
       rewrite E1, E2; cbn; rewrite ?app_nil_r;
       eexists _, _, _, _, _, _; (split; [reflexivity|]); (split; [reflexivity|]);
       (split; [exact Hh|]); (split; [exists r; rewrite Hr; reflexivity|]);
       intros Hf; destruct (Hn Hf) as (-> & -> & ->); repeat split; reflexivity)].
    destruct (getOrganizationNetworks P org org w1) as [[networks|e] w2]; cbn;
      [|(match goal with |- context [collect_organizations _ _ _ _ ?s1] =>
         destruct (IH s1)
           as (f & s1' & l1 & rs & s2 & l2 & E1 & E2 & Hh & [r Hr] & Hn)
       end;
       rewrite E1, E2; cbn; rewrite ?app_nil_r;
       eexists _, _, _, _, _, _; (split; [reflexivity|]); (split; [reflexivity|]);
       (split; [exact Hh|]); (split; [exists r; rewrite Hr; reflexivity|]);
       intros Hf; destruct (Hn Hf) as (-> & -> & ->); repeat split; reflexivity)].
    match goal with |- context [collect_networks _ _ _ _ _ _ ?s1] =>
      destruct (networks_agree org organization serial networks s1)
        as (f & s1' & l1 & here & s2 & l2 & E1 & E2 & Hh & [r Hr] & Hn)
    end.
    rewrite E1, E2. cbn. destruct f as [f|]; cbn.
    + destruct (collect_organizations_run serial rest s2)
        as (more & s3 & l3 & E3 & _).
      rewrite E3. cbn. rewrite ?app_nil_r.
      eexists _, _, _, _, _, _. split; [reflexivity|]. split; [reflexivity|].
      split; [apply head_app_some; exact Hh|].
      split; [|discriminate].
      exists (r ++ l3). rewrite Hr. cbn. rewrite <- ?app_assoc. reflexivity.
    + destruct (Hn eq_refl) as (-> & -> & ->).
      destruct (IH s1')
        as (f & s1'' & l1' & rs & s2 & l2 & E3 & E4 & Hh' & [r' Hr'] & Hn').
      rewrite E3, E4. cbn. rewrite ?app_nil_r.
      eexists _, _, _, _, _, _. split; [reflexivity|]. split; [reflexivity|].
      split; [exact Hh'|].
      split; [exists r'; rewrite Hr'; cbn; rewrite <- ?app_assoc; reflexivity|].
      intros Hf. destruct (Hn' Hf) as (-> & -> & ->). repeat split; reflexivity.
Qed.

(** X20.  From the same state of the platform, the search of
    [validateDevices] and the search over all organizations send the same
    requests up to the point where the first stops: the device it reports,
    if any, is the first result of the other, and it reports none only
    when the other has no result at all. *)
Theorem validation_finds_the_first_hit_of_the_search serial (s : State World) :
  exists fd reply,
    res_of (search_organizations P organizations serial organizations s) = Ok fd
    /\ res_of (searchDeviceAcrossOrganizations P organizations serial s) = Ok reply
    /\ head (results reply) = as_result <$> fd
    /\ (fd = None <-> found reply = false)
    /\ exists rest,
         log_of (searchDeviceAcrossOrganizations P organizations serial s)
         = log_of (search_organizations P organizations serial organizations s) ++ rest.
Proof.
  unfold searchDeviceAcrossOrganizations, bind.
  destruct (organizations_agree serial organizations s)
    as (f & s1 & l1 & rs & s2 & l2 & E1 & E2 & Hh & [r Hr] & Hn).
  rewrite E1, E2. cbn. rewrite app_nil_r. unfold res_of, log_of. cbn [fst snd].
  eexists _, _. split; [reflexivity|]. split; [reflexivity|].
  cbn [results found]. split; [exact Hh|]. split; [|exists r; exact Hr].
  destruct f as [f|]; cbn in Hh.
  - destruct rs; [discriminate Hh|]. cbn. split; discriminate.
  - destruct (Hn eq_refl) as (-> & _). split; reflexivity.
Qed.

(** ** The lists of networks and of organizations *)

Variable org_url : Organization -> option string.

Lemma listed_app l1 l2 : listed (l1 ++ l2) = listed l1 ++ listed l2.
Proof. apply flat_map_app. Qed.

Lemma collect_all_networks_run orgs acc (s : State World) :
  (forall k, In k (map_keys orgs) -> map_has k organizations = true) ->
  exists nets s' l,
    collect_all_networks P organizations orgs acc s = (Ok nets, s', l)
    /\ nets = acc ++ listed l
    /\ omap listing_request l = map (fun k => (k, k)) (map_keys orgs)
    /\ length l = length orgs.
Proof.
  revert acc s. induction orgs as [|[org key] rest IH]; intros acc s Hin.
  - exists acc, s, []. cbn. rewrite app_nil_r. repeat split; reflexivity.
  - assert (Hrest : forall k, In k (map_keys rest) -> map_has k organizations = true)
      by (intros k Hk; apply Hin; right; exact Hk).
    cbn [collect_all_networks]. unfold bind at 1, try_catch at 1, bind at 1.
    rewrite getClient_known by (apply Hin; left; reflexivity).
    unfold bind at 1. rewrite call_run.
    destruct (getOrganizationNetworks P org org (st_world s)) as [[networks|e] w]; cbn.
    all: match goal with |- context [collect_all_networks _ _ _ ?a ?s1] =>
           destruct (IH a s1 Hrest) as (nets & s' & l & E & Hnets & Hreq & Hlen) end.
    all: rewrite E; cbn; rewrite ?app_nil_r.
    all: eexists _, _, _; split; [reflexivity|].
    all: split; [rewrite Hnets; cbn; rewrite <- ?app_assoc; reflexivity|].
    all: split; [cbn; rewrite Hreq; reflexivity | cbn; rewrite Hlen; reflexivity].
Qed.

Lemma registry_has_its_keys k :
  In k (map_keys organizations) -> map_has k organizations = true.
Proof. apply map_has_keys. Qed.

(** X21.  [getNetworks] never fails: it asks every organization of the
    registry for its networks, once and in the order of the registry, each
    with its own client, and returns the networks of the lists that were
    answered, in that order, each tagged with its organization; an
    organization that does not answer is passed over. *)
Theorem getNetworks_asks_every_organization (s : State World) :
  exists networks,
    res_of (getNetworks P organizations s) = Ok (inl networks)
    /\ networks = listed (log_of (getNetworks P organizations s))
    /\ omap listing_request (log_of (getNetworks P organizations s))
       = map (fun k => (k, k)) (map_keys organizations)
    /\ length (log_of (getNetworks P organizations s)) = length organizations.
Proof.
  unfold getNetworks, try_catch, bind.
  destruct (collect_all_networks_run organizations [] s registry_has_its_keys)
    as (nets & s' & l & E & Hnets & Hreq & Hlen).
  rewrite E. cbn. rewrite app_nil_r. unfold res_of, log_of. cbn [fst snd].
  exists nets. split; [reflexivity|]. split; [exact Hnets|]. split; assumption.
Qed.

Lemma info_grounded_weaken (l l' : list Exchange) info :
  (forall x, In x l -> In x l') -> info_grounded l info -> info_grounded l' info.
Proof.
  intros Hsub. unfold info_grounded. destruct (oi_accessible info).
  - intros (organization & networks & H1 & H2 & H3). exists organization, networks.
    split; [apply Hsub, H1|]. split; [apply Hsub, H2 | exact H3].
  - intros (Hn & Hc & Hu & e & He & Hin). split; [exact Hn|]. split; [exact Hc|].
    split; [exact Hu|]. exists e. split; [exact He|].
    destruct Hin as [Hin|Hin]; [left | right]; apply Hsub, Hin.
Qed.

Lemma length_filter_cons {A} (p : A -> bool) x l :
  length (filter (fun a => p a = true) (x :: l))
  = (if p x then 1 else 0) + length (filter (fun a => p a = true) l).
Proof.
  rewrite filter_cons. destruct (decide (p x = true)) as [H|H].
  - rewrite H. reflexivity.
  - destruct (p x); [congruence | reflexivity].
Qed.

Lemma organizations_info_run orgs (s : State World) :
  (forall k, In k (map_keys orgs) -> map_has k organizations = true) ->
  exists infos s' l,
    organizations_info P organizations org_url orgs s = (Ok infos, s', l)
    /\ map oi_id infos = map_keys orgs
    /\ map oi_apiKeyMasked infos = map (fun e => apiKeyMasked (snd e)) orgs
    /\ Forall (info_grounded l) infos
    /\ length (filter (fun info => oi_accessible info = true) infos)
       = length (filter (fun x => listing_ok x = true) l)
    /\ Forall (fun x => write_exchange x = false) l
    /\ st_ticks s' = st_ticks s.
Proof.
  revert s. induction orgs as [|[org key] rest IH]; intros s Hin.
  - exists [], s, []. cbn. repeat split; constructor.
  - assert (Hrest : forall k, In k (map_keys rest) -> map_has k organizations = true)
      by (intros k Hk; apply Hin; right; exact Hk).
    cbn [organizations_info]. unfold bind at 1, try_catch at 1, bind at 1.
    rewrite getClient_known by (apply Hin; left; reflexivity).
    unfold bind at 1. rewrite call_run.
    destruct (getOrganization P org org (st_world s)) as [[organization|e] w1]; cbn.
    2:{ unfold bind at 1.
        match goal with |- context [organizations_info _ _ _ _ ?s1] =>
          destruct (IH s1 Hrest)
            as (infos & s' & l & E & Hid & Hmask & Hg & Hc & Hr & Ht) end.
        rewrite E. cbn. rewrite ?app_nil_r.
        eexists _, _, _. split; [reflexivity|].
        split; [cbn; rewrite Hid; reflexivity|].
        split; [cbn; rewrite Hmask; reflexivity|].
        split; [|split; [rewrite !length_filter_cons; exact Hc
                        | split; [constructor; [reflexivity | exact Hr] | exact Ht]]].
        constructor.
        - cbn. repeat split. exists e. split; [reflexivity | left; left; reflexivity].
        - apply (Forall_impl _ _ _ Hg). intros info. apply info_grounded_weaken.
          intros x Hx. right. exact Hx. }
    unfold bind at 1. rewrite call_run. cbn.
    destruct (getOrganizationNetworks P org org w1) as [[networks|e] w2]; cbn.
    all: unfold bind at 1.
    all: match goal with |- context [organizations_info _ _ _ _ ?s1] =>
           destruct (IH s1 Hrest)
             as (infos & s' & l & E & Hid & Hmask & Hg & Hc & Hr & Ht) end.
    all: rewrite E; cbn; rewrite ?app_nil_r.
    all: eexists _, _, _; split; [reflexivity|].
    all: split; [cbn; rewrite Hid; reflexivity|].
    all: split; [cbn; rewrite Hmask; reflexivity|].
    all: split;
      [|split; [rewrite !length_filter_cons; cbn; rewrite ?Hc; reflexivity
               | split; [repeat (constructor; [reflexivity|]); exact Hr | exact Ht]]].
    all: constructor;
      [|apply (Forall_impl _ _ _ Hg); intros info; apply info_grounded_weaken;
        intros x Hx; right; right; exact Hx].
    + cbn. exists organization, networks.
      split; [left; reflexivity|]. split; [right; left; reflexivity|].
      repeat split.
    + cbn. repeat split. exists e.
      split; [reflexivity | right; right; left; reflexivity].
Qed.

(** X22.  [getAllOrganizationsInfo] never fails and changes nothing: it
    returns one entry per organization of the registry, in the order of
    the registry, with the masked key of that organization; an entry is
    accessible only when both requests for it were answered, and then has
    the name and the number of networks that were answered; otherwise it
    is named "Unknown" and carries the translated error of the request
    that failed. *)
Theorem getAllOrganizationsInfo_follows_the_registry (s : State World) :
  exists infos,
    res_of (getAllOrganizationsInfo P organizations org_url s) = Ok infos
    /\ map oi_id infos = map_keys organizations
    /\ map oi_apiKeyMasked infos = map (fun e => apiKeyMasked (snd e)) organizations
    /\ Forall (info_grounded (log_of (getAllOrganizationsInfo P organizations org_url s)))
         infos
    /\ Forall (fun x => write_exchange x = false)
         (log_of (getAllOrganizationsInfo P organizations org_url s)).
Proof.
  unfold getAllOrganizationsInfo.
  destruct (organizations_info_run organizations s registry_has_its_keys)
    as (infos & s' & l & E & Hid & Hmask & Hg & _ & Hr & _).
  rewrite E. unfold res_of, log_of. cbn [fst snd].
  exists infos. repeat split; assumption.
Qed.

(** X23.  [GET /health] always answers with [success: true] and the
    message "API is healthy": it counts
    one organization per entry of the registry, reports as accessible as
    many as lists of networks were answered, and details them in the order
    of the registry; an unreachable platform does not make it fail. *)
Theorem health_is_always_reported (clock : nat -> string) (s : State World) :
  exists h,
    res_of (get_health P clock organizations org_url s) = Ok (JsonBody h)
    /\ health_success h = true
    /\ health_message h = "API is healthy"
    /\ health_total h = length organizations
    /\ health_accessible h
       = length (filter (fun x => listing_ok x = true)
                   (log_of (get_health P clock organizations org_url s)))
    /\ map hd_id (health_details h) = map_keys organizations
    /\ health_timestamp h = clock (st_ticks s).
Proof.
  unfold get_health, try_catch, bind, getAllOrganizationsInfo.
  destruct (organizations_info_run organizations s registry_has_its_keys)
    as (infos & s' & l & E & Hid & Hmask & Hg & Hc & Hr & Ht).
  rewrite E. cbn. rewrite ?app_nil_r. unfold res_of, log_of. cbn [fst snd].
  eexists. split; [reflexivity|]. cbn.
  split; [reflexivity|]. split; [reflexivity|].
  split; [rewrite <- (length_map oi_id), Hid; unfold map_keys; apply length_map|].
  split; [exact Hc|].
  split; [rewrite map_map; cbn; exact Hid|].
  rewrite Ht. reflexivity.
Qed.

End QueryFacts.

(** ** The start-up check, the first organization, the masked key *)

Section StartupFacts.
Context {World : Type}.
Variable P : Platform World.
Variable org_url : Organization -> option string.

Local Arguments formatErrorMessage : simpl never.
Local Arguments String.append : simpl never.
Local Arguments call : simpl never.

Lemma some_listing_ok (l : list Exchange) :
  length (filter (fun x => listing_ok x = true) l) <> 0
  <-> exists x, In x l /\ listing_ok x = true.
Proof.
  induction l as [|x l IH].
  - cbn. split; [congruence | intros (x & [] & _)].
  - rewrite length_filter_cons. destruct (listing_ok x) eqn:E.
    + split; [|cbn; lia]. intros _. exists x. split; [left; reflexivity | exact E].
    + cbn [Nat.add]. rewrite IH. split.
      * intros (y & Hy & Hl). exists y. split; [right; exact Hy | exact Hl].
      * intros (y & [<-|Hy] & Hl); [congruence|]. exists y. split; assumption.
Qed.

(** X24.  The start-up check never fails and changes nothing.  It
    answers [true] exactly when some organization answered with its list
    of networks, which takes a variable [MERAKI_ORGS] that the constructor
    accepts; when the constructor refuses the variable, nothing is sent. *)
Theorem verifyOrganizationAccess_needs_one_listing MERAKI_ORGS (s : State World) :
  exists ok,
    res_of (verifyOrganizationAccess P org_url MERAKI_ORGS s) = Ok ok
    /\ (ok = true
        <-> exists x, In x (log_of (verifyOrganizationAccess P org_url MERAKI_ORGS s))
                      /\ listing_ok x = true)
    /\ (ok = true ->
        exists organizations, MerakiAPI_constructor MERAKI_ORGS = Ok organizations)
    /\ (forall e, MerakiAPI_constructor MERAKI_ORGS = Throw e ->
          log_of (verifyOrganizationAccess P org_url MERAKI_ORGS s) = [])
    /\ Forall (fun x => write_exchange x = false)
         (log_of (verifyOrganizationAccess P org_url MERAKI_ORGS s)).
Proof.
  unfold verifyOrganizationAccess, try_catch.
  destruct (Js.truthy MERAKI_ORGS) eqn:Ht; cbn [negb].
  2:{ cbn. exists false. split; [reflexivity|]. split.
      - split; [discriminate | intros (x & [] & _)].
      - split; [discriminate|]. split; [reflexivity | constructor]. }
  destruct (MerakiAPI_constructor MERAKI_ORGS) as [organizations|e] eqn:Ec.
  2:{ cbn. exists false. split; [reflexivity|]. split.
      - split; [discriminate | intros (x & [] & _)].
      - split; [discriminate|]. split; [reflexivity | constructor]. }
  unfold bind, getAllOrganizationsInfo.
  destruct (organizations_info_run P organizations org_url organizations s
              (registry_has_its_keys organizations))
    as (infos & s' & l & E & _ & _ & _ & Hc & Hr & _).
  rewrite E. rewrite Hc.
  pose proof (some_listing_ok l) as Hl.
  destruct (Nat.eqb_spec (length (filter (fun x => listing_ok x = true) l)) 0)
    as [H0|H0]; cbn; rewrite app_nil_r; unfold res_of, log_of; cbn [fst snd].
  - exists false. split; [reflexivity|]. split.
    + split; [discriminate|]. intros Hx. apply Hl in Hx. contradiction.
    + split; [discriminate|]. split; [discriminate | exact Hr].
  - exists true. split; [reflexivity|]. split.
    + split; [intros _; apply Hl, H0 | reflexivity].
    + split; [intros _; eexists; reflexivity|]. split; [discriminate | exact Hr].
Qed.

(** X25.  [getOrganizationInfo] looks at the first organization of the
    registry and at no other: it sends one request, for that
    organization with its own client, and what it returns does not depend
    on the rest of the registry. *)
Theorem getOrganizationInfo_asks_the_first_organization_only
    orgId apiKey rest (s : State World) :
  getOrganizationInfo P ((orgId, apiKey) :: rest) s
  = getOrganizationInfo P [(orgId, apiKey)] s
  /\ exists r,
       log_of (getOrganizationInfo P ((orgId, apiKey) :: rest) s)
       = [XGetOrganization orgId orgId r]
       /\ res_of (getOrganizationInfo P ((orgId, apiKey) :: rest) s)
          = Ok (match r with
                | Ok organization => OrganizationFound organization
                | Throw e => OrganizationFailure (formatErrorMessage e)
                end).
Proof.
  unfold getOrganizationInfo, try_catch, bind, getClient, map_has.
  cbn [map_keys map head fst default from_option id existsb].
  rewrite String.eqb_refl. cbn [orb]. cbn -[call]. rewrite !call_run.
  destruct (getOrganization P orgId orgId (st_world s)) as [[organization|e] w]; cbn.
  - split; [reflexivity|]. eexists (Ok organization). split; reflexivity.
  - split; [reflexivity|]. eexists (Throw e). split; reflexivity.
Qed.

End StartupFacts.

Section MaskFacts.

Lemma length_append a b : String.length (a +:+ b) = String.length a + String.length b.
Proof.
  induction a as [|c a IH]; [reflexivity|].
  change (String c a +:+ b) with (String c (a +:+ b)). cbn. rewrite IH. reflexivity.
Qed.

Lemma take_append a b : JsText.take (String.length a) (a +:+ b) = a.
Proof.
  induction a as [|c a IH]; [destruct b; reflexivity|].
  change (String c a +:+ b) with (String c (a +:+ b)). cbn. rewrite IH. reflexivity.
Qed.

Lemma drop_append a b : JsText.drop (String.length a) (a +:+ b) = b.
Proof.
  induction a as [|c a IH]; [destruct b; reflexivity|].
  change (String c a +:+ b) with (String c (a +:+ b)). cbn. exact IH.
Qed.

Lemma take_all n s : String.length s <= n -> JsText.take n s = s.
Proof.
  revert n. induction s as [|c s IH]; intros n H; [destruct n; reflexivity|].
  destruct n as [|n]; cbn in *; [lia|]. rewrite IH by lia. reflexivity.
Qed.

(** X26.  The masked key shows the first six and the last four
    characters of a key and nothing of what lies between them. *)
Theorem apiKeyMasked_hides_the_middle first middle last :
  String.length first = 6 -> String.length last = 4 ->
  apiKeyMasked (first +:+ middle +:+ last) = first +:+ "..." +:+ last.
Proof.
  intros Hf Hl. unfold apiKeyMasked, JsText.substring_from.
  rewrite <- Hf at 1. rewrite take_append.
  rewrite !length_append, Hf, Hl.
  replace (Z.to_nat (Z.of_nat (6 + (String.length middle + 4)) - 4))
    with (String.length (first +:+ middle))
    by (rewrite length_append, Hf; lia).
  rewrite <- (app_assoc_string first middle last), drop_append. reflexivity.
Qed.

(** X27.  A key of six characters or fewer is not masked: the masked
    string starts with the whole key, and for four characters or fewer it
    also ends with it. *)
Theorem apiKeyMasked_shows_a_short_key apiKey :
  String.length apiKey <= 6 ->
  exists tail,
    apiKeyMasked apiKey = apiKey +:+ "..." +:+ tail
    /\ (String.length apiKey <= 4 -> tail = apiKey).
Proof.
  intros H. unfold apiKeyMasked, JsText.substring_from.
  rewrite (take_all 6 apiKey H). eexists. split; [reflexivity|].
  intros H4.
  replace (Z.to_nat (Z.of_nat (String.length apiKey) - 4)) with 0 by lia.
  destruct apiKey; reflexivity.
Qed.

End MaskFacts.

(** ** The routes *)

Section RouteFacts.
Context {World : Type}.
Variable P : Platform World.
Variable clock : nat -> string.
Variable organizations : StringMap.

Local Arguments formatErrorMessage : simpl never.
Local Arguments String.append : simpl never.
Local Arguments replaceDevice : simpl never.


Lemma replacement_records t failedSerial replacementSerial networkId organizationId
    res l :
  replacement_run clock organizations failedSerial replacementSerial networkId
    organizationId t res l ->
  map_has organizationId organizations = true ->
  operations res <> [].
Proof.
  intros Hrun Hc. destruct Hrun; cbn; try discriminate. congruence.
Qed.

(** [POST /replace-device] on two strings. *)
Lemma replace_route_on_strings failedSerial replacementSerial (s : State World) :
  let f := Js.toUpperCase (Js.trim failedSerial) in
  let r := Js.toUpperCase (Js.trim replacementSerial) in
  let route := post_replace_device P clock organizations failedSerial replacementSerial s in
  match res_of route with
  | Ok (Status400 errs) =>
      errs = snd (serialValidation failedSerial replacementSerial)
      /\ errs <> [] /\ log_of route = []
  | Ok (JsonBody (inl v)) =>
      validation_success v = false
      /\ route = (Ok (JsonBody (inl v)),
                  state_of (validateDevices P organizations f r s),
                  log_of (validateDevices P organizations f r s))
      /\ Forall (fun x => write_exchange x = false) (log_of route)
  | Ok (JsonBody (inr res)) =>
      operations res <> []
      /\ exists fd live device networkId organizationId organizationName,
           res_of (validateDevices P organizations f r s)
           = Ok (ValidationSuccess fd live device networkId organizationId
                   organizationName)
           /\ res_of (replaceDevice P clock organizations f r networkId organizationId
                        (state_of (validateDevices P organizations f r s)))
              = Ok res
           /\ log_of route
              = log_of (validateDevices P organizations f r s)
                ++ log_of (replaceDevice P clock organizations f r networkId
                             organizationId
                             (state_of (validateDevices P organizations f r s)))
  | Ok (Status500 _) => False
  | Throw _ => False
  end.
Proof.
  intros f r route. subst route.
  unfold post_replace_device, serialValidation. fold f r.
  destruct (Js.serial_pattern_i (Js.trim failedSerial));
    destruct (Js.serial_pattern_i (Js.trim replacementSerial)); cbn [app].
  2-4: (cbn; split; [reflexivity | split; [discriminate | reflexivity]]).
  unfold try_catch, bind.
  destruct (validateDevices_run P organizations f r s)
    as (fd & s1 & l0 & v & s' & l & Es & Ev & Hscan & Hval).
  rewrite Ev. unfold res_of, log_of, state_of. cbn [fst snd].
  assert (Hreads : Forall (fun x => write_exchange x = false) l0).
  { apply (Forall_impl _ _ _ (organization_scan_reads _ _ _ _ Hscan)).
    intros x [Hx _]. exact Hx. }
  destruct Hval as [ | f' e | f' inventory Hf | f' inventory device other network Hf Hc
                     | f' inventory device other e Hf Hc
                     | f' inventory device statuses Hf Hc ].
  1-5: (cbn; rewrite ?app_nil_r; split; [reflexivity|]; split; [reflexivity|];
        first [ exact Hreads
              | apply Forall_app; split; [exact Hreads | repeat constructor] ]).
  match goal with |- context [replaceDevice ?P ?c ?o ?a ?b ?n ?i ?s1] =>
    destruct (replaceDevice_run P c o a b n i s1) as (res & s2 & lr & Er & Hrun) end.
  rewrite Er. cbn. rewrite ?app_nil_r. split.
  - apply (replacement_records _ _ _ _ _ _ _ Hrun).
    apply map_has_keys. apply (organization_scan_found _ _ _ _ Hscan).
  - eexists _, _, _, _, _, _. split; [reflexivity|].
    rewrite Er. cbn. split; reflexivity.
Qed.

(** [POST /validate-devices] on two strings. *)
Lemma validate_route_on_strings failedSerial replacementSerial (s : State World) :
  let f := Js.toUpperCase (Js.trim failedSerial) in
  let r := Js.toUpperCase (Js.trim replacementSerial) in
  let route := post_validate_devices P organizations failedSerial replacementSerial s in
  match res_of route with
  | Ok (Status400 errs) =>
      errs = snd (serialValidation failedSerial replacementSerial)
      /\ errs <> [] /\ log_of route = []
  | Ok (JsonBody v) =>
      Js.serial_pattern f = true /\ Js.serial_pattern r = true
      /\ route = (Ok (JsonBody v),
                  state_of (validateDevices P organizations f r s),
                  log_of (validateDevices P organizations f r s))
      /\ res_of (validateDevices P organizations f r s) = Ok v
      /\ Forall (fun x => write_exchange x = false) (log_of route)
  | Ok (Status500 _) => False
  | Throw _ => False
  end.
Proof.
  intros f r route. subst route.
  unfold post_validate_devices, serialValidation. fold f r.
  destruct (Js.serial_pattern_i (Js.trim failedSerial)) eqn:Ef;
    destruct (Js.serial_pattern_i (Js.trim replacementSerial)) eqn:Er; cbn [app].
  2-4: (cbn; split; [reflexivity | split; [discriminate | reflexivity]]).
  unfold try_catch, bind.
  destruct (validateDevices_run P organizations f r s)
    as (fd & s1 & l0 & v & s' & l & Es & Ev & Hscan & Hval).
  rewrite Ev. cbn. rewrite app_nil_r. unfold res_of, log_of, state_of. cbn [fst snd].
  split; [unfold f; rewrite serial_pattern_upper; exact Ef|].
  split; [unfold r; rewrite serial_pattern_upper; exact Er|].
  split; [reflexivity|]. split; [reflexivity|].
  assert (Hreads : Forall (fun x => write_exchange x = false) l0).
  { apply (Forall_impl _ _ _ (organization_scan_reads _ _ _ _ Hscan)).
    intros x [Hx _]. exact Hx. }
  destruct Hval;
    first [ exact Hreads
          | apply Forall_app; split; [exact Hreads | repeat constructor] ].
Qed.

Lemma bind_ret {A B} (a : A) (k : A -> M World B) (s : State World) :
  bind (ret a) k s = k a s.
Proof. unfold bind, ret. destruct (k a s) as [[r s'] l]. reflexivity. Qed.

Lemma bind_ext {A B} (m : M World A) (k1 k2 : A -> M World B) (s : State World) :
  (forall a s1, k1 a s1 = k2 a s1) -> bind m k1 s = bind m k2 s.
Proof.
  intros H. unfold bind. destruct (m s) as [[[a|e] s1] l1]; [|reflexivity].
  rewrite H. reflexivity.
Qed.

Lemma serialValidation_body_on_strings failedSerial replacementSerial :
  serialValidation_body (FieldText failedSerial) (FieldText replacementSerial)
  = (FieldText (Js.trim failedSerial), FieldText (Js.trim replacementSerial),
     snd (serialValidation failedSerial replacementSerial)).
Proof. reflexivity. Qed.

(** On a body whose two fields are strings the handlers are those of the
    two strings. *)
Lemma post_validate_devices_body_on_strings failedSerial replacementSerial
    (s : State World) :
  post_validate_devices_body P organizations
    (FieldText failedSerial) (FieldText replacementSerial) s
  = post_validate_devices P organizations failedSerial replacementSerial s.
Proof.
  unfold post_validate_devices_body, post_validate_devices.
  rewrite serialValidation_body_on_strings. unfold serialValidation. cbn [snd].
  destruct (_ ++ _); [|reflexivity].
  unfold try_catch, field_toUpperCase. rewrite !bind_ret. reflexivity.
Qed.

Lemma post_replace_device_body_on_strings failedSerial replacementSerial
    (s : State World) :
  post_replace_device_body P clock organizations
    (FieldText failedSerial) (FieldText replacementSerial) s
  = post_replace_device P clock organizations failedSerial replacementSerial s.
Proof.
  unfold post_replace_device_body, post_replace_device.
  rewrite serialValidation_body_on_strings. unfold serialValidation. cbn [snd].
  destruct (_ ++ _); [|reflexivity].
  unfold try_catch, field_toUpperCase. rewrite !bind_ret.
  match goal with
  | |- match ?a with _ => _ end = match ?b with _ => _ end =>
      assert (Hm : a = b); [|rewrite Hm; reflexivity]
  end.
  apply bind_ext. intros v s1. destruct v; [|reflexivity].
  rewrite !bind_ret. reflexivity.
Qed.

(** A body with an array in it gets no further than the check or the
    first [toUpperCase]. *)
Lemma validate_route_on_an_array failedSerial replacementSerial (s : State World) :
  (exists items, failedSerial = FieldArray items \/ replacementSerial = FieldArray items) ->
  post_validate_devices_body P organizations failedSerial replacementSerial s
  = match snd (serialValidation_body failedSerial replacementSerial) with
    | [] => (Ok (Status500 "Internal server error during validation"), s, [])
    | errs => (Ok (Status400 errs), s, [])
    end.
Proof.
  intros (items & H). unfold post_validate_devices_body.
  destruct (serialValidation_body failedSerial replacementSerial) as [[f r] errs] eqn:E.
  cbn [snd]. destruct errs as [|e errs]; [|reflexivity].
  unfold serialValidation_body in E.
  destruct failedSerial as [ft|fi], replacementSerial as [rt|ri]; cbn in E;
    injection E as <- <- _;
    try (destruct H as [H|H]; discriminate H); reflexivity.
Qed.

Lemma replace_route_on_an_array failedSerial replacementSerial (s : State World) :
  (exists items, failedSerial = FieldArray items \/ replacementSerial = FieldArray items) ->
  post_replace_device_body P clock organizations failedSerial replacementSerial s
  = match snd (serialValidation_body failedSerial replacementSerial) with
    | [] => (Ok (Status500 "Internal server error during replacement"), s, [])
    | errs => (Ok (Status400 errs), s, [])
    end.
Proof.
  intros (items & H). unfold post_replace_device_body.
  destruct (serialValidation_body failedSerial replacementSerial) as [[f r] errs] eqn:E.
  cbn [snd]. destruct errs as [|e errs]; [|reflexivity].
  unfold serialValidation_body in E.
  destruct failedSerial as [ft|fi], replacementSerial as [rt|ri]; cbn in E;
    injection E as <- <- _;
    try (destruct H as [H|H]; discriminate H); reflexivity.
Qed.


(** X30.  [POST /validate-devices] changes nothing, and answers 500 only
    to a body that holds an array.  It answers 400 with the errors of the
    format check, having sent nothing; or, the two fields being strings,
    the result of [validateDevices], which it calls with two serials in
    upper case that match the strict pattern, the requests being those of
    that call, GETs only; or 500, when a field is an array whose items all
    pass the format check, having sent nothing. *)
Theorem validate_route_hands_on_canonical_serials failedSerial replacementSerial
    (s : State World) :
  let route :=
    post_validate_devices_body P organizations failedSerial replacementSerial s in
  match res_of route with
  | Ok (Status400 errs) =>
      errs = snd (serialValidation_body failedSerial replacementSerial)
      /\ errs <> [] /\ log_of route = []
  | Ok (JsonBody v) =>
      exists failedText replacementText,
        failedSerial = FieldText failedText
        /\ replacementSerial = FieldText replacementText
        /\ let f := Js.toUpperCase (Js.trim failedText) in
           let r := Js.toUpperCase (Js.trim replacementText) in
           Js.serial_pattern f = true /\ Js.serial_pattern r = true
           /\ route = (Ok (JsonBody v),
                       state_of (validateDevices P organizations f r s),
                       log_of (validateDevices P organizations f r s))
           /\ res_of (validateDevices P organizations f r s) = Ok v
           /\ Forall (fun x => write_exchange x = false) (log_of route)
  | Ok (Status500 _) =>
      (exists items,
         failedSerial = FieldArray items \/ replacementSerial = FieldArray items)
      /\ snd (serialValidation_body failedSerial replacementSerial) = []
      /\ log_of route = []
  | Throw _ => False
  end.
Proof.
  intros route. subst route.
  destruct failedSerial as [ft|fi], replacementSerial as [rt|ri].
  1:{ rewrite post_validate_devices_body_on_strings, serialValidation_body_on_strings.
      cbn [snd].
      pose proof (validate_route_on_strings ft rt s) as H. cbv zeta in H.
      destruct (res_of (post_validate_devices P organizations ft rt s))
        as [[errs|v|msg]|e]; try exact H; try contradiction.
      exists ft, rt. split; [reflexivity|]. split; [reflexivity|]. exact H. }
  all: rewrite validate_route_on_an_array by (eexists; eauto).
  all: destruct (snd (serialValidation_body _ _)) as [|e errs] eqn:E;
    unfold res_of, log_of; cbn [fst snd].
  all: first [ split; [eexists; eauto | split; reflexivity]
             | split; [reflexivity | split; [discriminate | reflexivity]] ].
Qed.

End RouteFacts.

(** * The properties on the small platform *)

Section Examples.

Local Abbreviation NoFault := Demo.NoFault.

(** C1, as stated, fails: the request with the same serial twice is not
    turned down; the platform is asked six times and the validation
    succeeds. *)
Lemma same_serial_reaches_the_platform :
  (exists v, res_of Demo.same_serial_request = Ok (JsonBody v)
             /\ validation_success v = true)
  /\ head (log_of Demo.same_serial_request)
     = Some (XGetOrganization "1001" "1001" (Ok {| org_name := "Alpha" |}))
  /\ length (log_of Demo.same_serial_request) = 6.
Proof.
  split; [|split]; [|vm_compute; reflexivity..].
  eexists. split; [vm_compute; reflexivity | reflexivity].
Qed.

Lemma same_serial_is_checked_by_the_page_only_witness :
  (exists msg, portal_validateDevices " aaaa-1111-bbbb" "AAAA-1111-BBBB "
               = ShowAlert msg "warning")
  /\ (exists errs,
        post_validate_devices (Demo.platform NoFault) Demo.registry
          "AAAA-1111" Demo.spare_serial (initial Demo.start)
        = (Ok (Status400 errs), initial Demo.start, []) /\ errs <> [])
  /\ (exists r l,
        log_of Demo.same_serial_request = XGetOrganization "1001" "1001" r :: l).
Proof.
  destruct (same_serial_is_checked_by_the_page_only (Demo.platform NoFault)
              Demo.registry) as (Hpage & Hformat & Hserver).
  split; [|split].
  - apply Hpage. reflexivity.
  - apply Hformat. left. reflexivity.
  - apply (Hserver Demo.failed_serial (initial Demo.start) "1001" "key-alpha"
             [("2002", "key-beta")]); reflexivity.
Defined.

Lemma replaceDevice_aborts_at_failed_step_witness :
  raised Demo.failed_serial Demo.spare_serial "N_2" "1001"
    (log_of (Demo.replace (Demo.UpdateFails Demo.rate_limited))) 3 Demo.rate_limited
  /\ exists res,
       res_of (Demo.replace (Demo.UpdateFails Demo.rate_limited)) = Ok res
       /\ success res = false
       /\ res_message res = Some msg_rate_limit
       /\ length (operations res) = 3.
Proof.
  assert (H : raised Demo.failed_serial Demo.spare_serial "N_2" "1001"
                (log_of (Demo.replace (Demo.UpdateFails Demo.rate_limited))) 3
                Demo.rate_limited).
  { vm_compute. eexists. do 4 right. left. reflexivity. }
  split; [exact H|].
  destruct (replaceDevice_aborts_at_failed_step _ _ _ _ _ _ _ _ _ _ H)
    as (res & H1 & H2 & H3 & _ & _ & H6 & _).
  exists res. exact (conj H1 (conj H2 (conj H3 H6))).
Defined.

Lemma claim_step_is_idempotent_witness :
  In (XClaimDevices "1001" "N_2" [Demo.spare_serial] (Throw Demo.already_claimed_error))
     (log_of (Demo.replace (Demo.ClaimFails Demo.already_claimed_error)))
  /\ exists res,
       res_of (Demo.replace (Demo.ClaimFails Demo.already_claimed_error)) = Ok res
       /\ exists op, operations res !! 1 = Some op
                     /\ step op = 2 /\ op_status op = "completed".
Proof.
  assert (H : In (XClaimDevices "1001" "N_2" [Demo.spare_serial]
                    (Throw Demo.already_claimed_error))
                 (log_of (Demo.replace (Demo.ClaimFails Demo.already_claimed_error)))).
  { vm_compute. do 3 right. left. reflexivity. }
  split; [exact H|].
  destruct (claim_step_is_idempotent _ _ _ _ _ _ _ _ _ H) as (res & H1 & H2 & _).
  exists res. split; [exact H1|].
  destruct H2 as ((op & Ha & Hb & Hc & _) & _).
  { right. exists Demo.already_claimed_error.
    split; [reflexivity | vm_compute; reflexivity]. }
  exists op. exact (conj Ha (conj Hb Hc)).
Defined.

(** C4, where the code departs from it.  The branch that swallows the
    error logs "Device already claimed in this network", but its test is
    for the words "already claimed" alone: here the claim is refused
    because the device belongs to another organization, and the pipeline
    goes on through steps 3 and 4 and removes the failed device. *)
Lemma claim_refused_elsewhere_is_swallowed :
  In (XClaimDevices "1001" "N_2" [Demo.spare_serial]
        (Throw Demo.claimed_elsewhere_error))
     (log_of (Demo.replace (Demo.ClaimFails Demo.claimed_elsewhere_error)))
  /\ match res_of (Demo.replace (Demo.ClaimFails Demo.claimed_elsewhere_error)) with
     | Ok res =>
         success res = true
         /\ map op_status (operations res)
            = ["completed"; "completed"; "completed"; "completed"]
     | Throw _ => False
    end
  /\ map exchange_step
       (log_of (Demo.replace (Demo.ClaimFails Demo.claimed_elsewhere_error)))
     = [1; 1; 1; 2; 3; 3; 4].
Proof.
  split; [vm_compute; do 3 right; left; reflexivity|].
  split; vm_compute; [split|]; reflexivity.
Qed.

Lemma replacement_sought_in_found_organization_witness :
  res_of Demo.search_run = Ok (Some Demo.found_failed)
  /\ find_serial Demo.foreign_serial Demo.inventory_alpha = None
  /\ res_of (Demo.validation NoFault Demo.foreign_serial)
     = Ok (ValidationFailure
             (Some (msg_replacement_not_found Demo.foreign_serial "Alpha"))).
Proof.
  assert (Hs : res_of Demo.search_run = Ok (Some Demo.found_failed))
    by (vm_compute; reflexivity).
  split; [exact Hs|]. split; [vm_compute; reflexivity|].
  destruct (replacement_sought_in_found_organization (Demo.platform NoFault)
              Demo.registry Demo.failed_serial Demo.foreign_serial
              (initial Demo.start) Demo.found_failed Hs) as (_ & H).
  apply (H Demo.inventory_alpha); [|vm_compute; reflexivity].
  vm_compute. do 4 right. left. reflexivity.
Defined.

(** C8, as stated, fails: the replacement is claimed by another network,
    the request for that network is refused, and the message is the one
    for a rate limit, which names no network. *)
Lemma claim_conflict_without_network_name :
  find_serial Demo.busy_serial Demo.inventory_alpha = Some Demo.busy_entry
  /\ inv_networkId Demo.busy_entry = Some "N_1"
  /\ net_id (foundNetwork Demo.found_failed) = "N_2"
  /\ res_of (Demo.validation (Demo.NetworkLookupFails Demo.rate_limited)
               Demo.busy_serial)
     = Ok (ValidationFailure (Some msg_rate_limit))
  /\ forall name, msg_rate_limit <> msg_claim_conflict name.
Proof.
  split; [vm_compute; reflexivity|]. split; [reflexivity|]. split; [reflexivity|].
  split; [vm_compute; reflexivity|].
  intros name H. discriminate H.
Qed.

Lemma claim_conflict_check_witness :
  res_of Demo.search_run = Ok (Some Demo.found_failed)
  /\ In (XGetInventoryDevices "1001" "1001" (Ok Demo.inventory_alpha))
       (log_of (Demo.validation NoFault Demo.busy_serial))
  /\ find_serial Demo.busy_serial Demo.inventory_alpha = Some Demo.busy_entry
  /\ exists r msg,
       In (XGetNetwork "1001" "N_1" r)
          (log_of (Demo.validation NoFault Demo.busy_serial))
       /\ res_of (Demo.validation NoFault Demo.busy_serial)
          = Ok (ValidationFailure msg)
       /\ msg = match r with
                | Ok network => Some (msg_claim_conflict (net_name network))
                | Throw e => formatErrorMessage e
                end.
Proof.
  assert (Hs : res_of Demo.search_run = Ok (Some Demo.found_failed))
    by (vm_compute; reflexivity).
  assert (Hi : In (XGetInventoryDevices "1001" "1001" (Ok Demo.inventory_alpha))
                 (log_of (Demo.validation NoFault Demo.busy_serial)))
    by (vm_compute; do 4 right; left; reflexivity).
  assert (Hf : find_serial Demo.busy_serial Demo.inventory_alpha = Some Demo.busy_entry)
    by (vm_compute; reflexivity).
  split; [exact Hs|]. split; [exact Hi|]. split; [exact Hf|].
  destruct (claim_conflict_check (Demo.platform NoFault) Demo.registry
              Demo.failed_serial Demo.busy_serial (initial Demo.start)
              Demo.found_failed Demo.inventory_alpha Demo.busy_entry Hs Hi Hf)
    as (H & _).
  apply (H "N_1"); [reflexivity | discriminate | discriminate].
Defined.

(** C7, as stated, fails: the failed device has tags and an address, an
    empty list and a blank, and the payload has neither. *)
Lemma empty_fields_are_not_copied :
  let cfg := buildConfigData Demo.bare_device Demo.failed_serial Demo.spare_serial
               (Demo.clock 3) in
  dev_tags Demo.bare_device = Some [] /\ cfg_tags cfg = None
  /\ dev_address Demo.bare_device = Some " " /\ cfg_address cfg = None.
Proof. vm_compute. repeat split. Qed.

Lemma step3_configuration_witness :
  let log := log_of (Demo.replace NoFault) in
  let cfg := buildConfigData (Demo.device_record Demo.failed_serial)
               Demo.failed_serial Demo.spare_serial (Demo.clock 3) in
  In (XUpdateDevice "1001" "N_2" Demo.spare_serial cfg (Ok tt)) log
  /\ exists d,
       In (XGetNetworkDevice "1001" "N_2" Demo.failed_serial (Ok (Some d))) log
       /\ copies_configuration d Demo.spare_serial cfg.
Proof.
  intros log cfg.
  assert (H : In (XUpdateDevice "1001" "N_2" Demo.spare_serial cfg (Ok tt)) log).
  { vm_compute. do 4 right. left. reflexivity. }
  split; [exact H|].
  exact (step3_configuration (Demo.platform NoFault) Demo.clock Demo.registry
           Demo.failed_serial Demo.spare_serial "N_2" "1001" (initial Demo.start)
           cfg (Ok tt) H).
Defined.

(** C6, as stated, fails: notes that hold one space are not empty, and
    what is written does not begin with them. *)
Lemma blank_notes_are_replaced :
  " " <> ""
  /\ config_notes (Some " ") Demo.failed_serial (Demo.clock 3)
     = replacementNote Demo.failed_serial (Demo.clock 3)
  /\ String.prefix " " (config_notes (Some " ") Demo.failed_serial (Demo.clock 3))
     = false.
Proof.
  split; [discriminate|]. split; vm_compute; reflexivity.
Qed.

Lemma notes_are_appended_witness :
  Js.nonblank "Installed 2021" = true
  /\ config_notes
       (Some (config_notes (Some "Installed 2021") Demo.failed_serial (Demo.clock 3)))
       Demo.spare_serial (Demo.clock 4)
     = "Installed 2021" +:+ " "
       +:+ replacementNote Demo.failed_serial (Demo.clock 3) +:+ " "
       +:+ replacementNote Demo.spare_serial (Demo.clock 4).
Proof.
  split; [reflexivity|].
  destruct (notes_are_appended (Demo.platform NoFault) Demo.clock Demo.registry)
    as (_ & _ & _ & H).
  apply H. reflexivity.
Defined.

(** C9, as stated, fails: the status is 404 and the message is the first
    entry of the error list of the body, not the fixed wording. *)
Lemma not_found_message_is_overridden :
  response_status Demo.not_found_with_errors = Some 404
  /\ formatErrorMessage Demo.not_found_with_errors
     = Some "Device not found in network"
  /\ formatErrorMessage Demo.not_found_with_errors <> Some msg_not_found.
Proof.
  split; [reflexivity|]. split; [vm_compute; reflexivity|].
  vm_compute. discriminate.
Qed.

Lemma formatErrorMessage_body_then_status_witness :
  formatErrorMessage Demo.not_found_with_errors = Some "Device not found in network"
  /\ formatErrorMessage Demo.rate_limited = Some msg_rate_limit
  /\ formatErrorMessage Demo.server_error
     = Some "Request failed with status code 500".
Proof.
  split; [|split].
  - exact (proj1 (formatErrorMessage_body_then_status Demo.not_found_with_errors)
             _ eq_refl).
  - destruct (formatErrorMessage_body_then_status Demo.rate_limited)
      as (_ & H). destruct (H eq_refl) as (_ & _ & H429 & _).
    exact (H429 eq_refl).
  - destruct (formatErrorMessage_body_then_status Demo.server_error)
      as (_ & H). destruct (H eq_refl) as (_ & _ & _ & Hother).
    apply Hother; discriminate.
Defined.

End Examples.

(** * The further properties on the small platform *)

Section MoreExamples.

Local Abbreviation NoFault := Demo.NoFault.

Lemma page_and_server_agree_on_ascii_serials_witness :
  validateSerialFormat " aaaa-1111-bbbb" && validateSerialFormat "CCCC-2222-DDDD " = true
  /\ snd (serialValidation " aaaa-1111-bbbb" "CCCC-2222-DDDD ") = [].
Proof.
  assert (H : validateSerialFormat " aaaa-1111-bbbb"
              && validateSerialFormat "CCCC-2222-DDDD " = true)
    by (vm_compute; reflexivity).
  split; [exact H|].
  exact (proj2 (page_and_server_agree_on_ascii_serials
                  " aaaa-1111-bbbb" "CCCC-2222-DDDD ") eq_refl eq_refl H).
Defined.

Lemma page_sends_canonical_distinct_serials_witness :
  portal_validateDevices " aaaa-1111-bbbb" "cccc-2222-dddd "
  = FetchValidateDevices Demo.failed_serial Demo.spare_serial
  /\ serialValidation Demo.failed_serial Demo.spare_serial
     = (Demo.failed_serial, Demo.spare_serial, []).
Proof.
  assert (H : portal_validateDevices " aaaa-1111-bbbb" "cccc-2222-dddd "
              = FetchValidateDevices Demo.failed_serial Demo.spare_serial)
    by (vm_compute; reflexivity).
  split; [exact H|].
  destruct (page_sends_canonical_distinct_serials _ _ _ _ H) as (_ & _ & _ & Hs & _).
  exact Hs.
Defined.

Lemma constructor_reads_back_the_registry_witness :
  Demo.registry <> []
  /\ List.NoDup (map_keys Demo.registry)
  /\ Forall plain_entry Demo.registry
  /\ MerakiAPI_constructor (Some (MERAKI_ORGS_of Demo.registry)) = Ok Demo.registry.
Proof.
  assert (H1 : Demo.registry <> []) by discriminate.
  assert (H2 : List.NoDup (map_keys Demo.registry)).
  { constructor; [intros [H|[]]; discriminate H|].
    constructor; [intros [] | constructor]. }
  assert (H3 : Forall plain_entry Demo.registry)
    by (repeat constructor).
  exact (conj H1 (conj H2 (conj H3
           (constructor_reads_back_the_registry Demo.registry H1 H2 H3)))).
Defined.

Lemma constructor_names_the_first_bad_mapping_witness :
  MerakiAPI_constructor (Some "1001:key-alpha, 2002 key-beta,3003:key-gamma")
  = Throw (Error ("Failed to parse MERAKI_ORGS: Invalid mapping format: "
                  +:+ " 2002 key-beta" +:+ ". Expected format: ORG_ID:API_KEY")).
Proof.
  apply (constructor_names_the_first_bad_mapping
           [("1001", "key-alpha")] " 2002 key-beta" ["3003:key-gamma"]).
  - repeat constructor.
  - reflexivity.
  - reflexivity.
  - vm_compute. discriminate.
Defined.

Lemma constructor_registry_invariant_witness :
  MerakiAPI_constructor (Some "1001:key-alpha, 2002:key-beta") = Ok Demo.registry
  /\ List.NoDup (map_keys Demo.registry).
Proof.
  assert (H : MerakiAPI_constructor (Some "1001:key-alpha, 2002:key-beta")
              = Ok Demo.registry) by (vm_compute; reflexivity).
  split; [exact H|].
  destruct (constructor_registry_invariant _ _ H) as (_ & Hnd & _). exact Hnd.
Defined.

Lemma constructor_registers_every_mapping_witness :
  In " 2002:key-beta" (split "," "1001:key-alpha, 2002:key-beta")
  /\ exists orgId apiKey more,
       split ":" (Js.trim " 2002:key-beta") = orgId :: apiKey :: more
       /\ orgId <> EmptyString /\ apiKey <> EmptyString
       /\ In (Js.trim orgId) (map_keys Demo.registry).
Proof.
  assert (H : MerakiAPI_constructor (Some "1001:key-alpha, 2002:key-beta")
              = Ok Demo.registry) by (vm_compute; reflexivity).
  assert (Hin : In " 2002:key-beta" (split "," "1001:key-alpha, 2002:key-beta"))
    by (vm_compute; right; left; reflexivity).
  split; [exact Hin|].
  exact (constructor_registers_every_mapping _ _ _ H Hin).
Defined.

Lemma lookups_follow_the_listings_witness :
  log_of (Demo.validation NoFault Demo.spare_serial)
  = firstn 3 (log_of (Demo.validation NoFault Demo.spare_serial))
    ++ XGetNetworkDevice "1001" "N_2" Demo.failed_serial
         (Ok (Some (Demo.device_record Demo.failed_serial)))
    :: skipn 4 (log_of (Demo.validation NoFault Demo.spare_serial))
  /\ exists networks network,
       In (XGetOrganizationNetworks "1001" "1001" (Ok networks))
          (firstn 3 (log_of (Demo.validation NoFault Demo.spare_serial)))
       /\ In network networks /\ net_id network = "N_2".
Proof.
  assert (H : log_of (Demo.validation NoFault Demo.spare_serial)
              = firstn 3 (log_of (Demo.validation NoFault Demo.spare_serial))
                ++ XGetNetworkDevice "1001" "N_2" Demo.failed_serial
                     (Ok (Some (Demo.device_record Demo.failed_serial)))
                :: skipn 4 (log_of (Demo.validation NoFault Demo.spare_serial)))
    by (vm_compute; reflexivity).
  split; [exact H|].
  destruct (lookups_follow_the_listings (Demo.platform NoFault) Demo.registry
              Demo.failed_serial Demo.spare_serial (initial Demo.start)
              _ "1001" "N_2" Demo.failed_serial _ _ H) as (_ & _ & Hn).
  exact Hn.
Defined.

Lemma validation_success_is_grounded_witness :
  res_of (Demo.validation NoFault Demo.spare_serial)
  = Ok (ValidationSuccess Demo.found_failed
          (live_of (Demo.device_record Demo.failed_serial) (Ok Demo.statuses_alpha))
          Demo.spare_entry "N_2" "1001" "Alpha")
  /\ In "1001" (map_keys Demo.registry)
  /\ inv_serial Demo.spare_entry = Demo.spare_serial.
Proof.
  assert (H : res_of (Demo.validation NoFault Demo.spare_serial)
              = Ok (ValidationSuccess Demo.found_failed
                      (live_of (Demo.device_record Demo.failed_serial)
                         (Ok Demo.statuses_alpha))
                      Demo.spare_entry "N_2" "1001" "Alpha"))
    by (vm_compute; reflexivity).
  split; [exact H|].
  destruct (validation_success_is_grounded (Demo.platform NoFault) Demo.registry
              Demo.failed_serial Demo.spare_serial (initial Demo.start)
              _ _ _ _ _ _ H) as (Hk & _ & _ & _ & _ & _ & _ & Hs & _).
  exact (conj Hk Hs).
Defined.

Lemma live_status_is_best_effort_witness :
  In (XGetDeviceStatuses "1001" "1001" (Throw Demo.server_error))
     (log_of (Demo.validation_with Demo.StatusesFail))
  /\ exists f device,
       res_of (Demo.validation_with Demo.StatusesFail)
       = Ok (ValidationSuccess f None device
               (net_id (foundNetwork f)) (foundOrganizationId f)
               (org_name (foundOrganization f))).
Proof.
  assert (H : In (XGetDeviceStatuses "1001" "1001" (Throw Demo.server_error))
                 (log_of (Demo.validation_with Demo.StatusesFail)))
    by (vm_compute; do 5 right; left; reflexivity).
  split; [exact H|].
  destruct (live_status_is_best_effort (Demo.platform_with Demo.StatusesFail)
              Demo.registry Demo.failed_serial Demo.spare_serial (initial Demo.start)
              "1001" "1001" (Throw Demo.server_error) H)
    as (f & device & Hres & _).
  exists f, device. exact Hres.
Defined.

Lemma removal_is_last_and_follows_the_update_witness :
  In (XRemoveDevice "1001" "N_2" Demo.failed_serial (Ok tt))
     (log_of (Demo.replace NoFault))
  /\ last (log_of (Demo.replace NoFault))
     = Some (XRemoveDevice "1001" "N_2" Demo.failed_serial (Ok tt))
  /\ exists cfg,
       In (XUpdateDevice "1001" "N_2" Demo.spare_serial cfg (Ok tt))
          (log_of (Demo.replace NoFault)).
Proof.
  assert (H : In (XRemoveDevice "1001" "N_2" Demo.failed_serial (Ok tt))
                 (log_of (Demo.replace NoFault)))
    by (vm_compute; do 6 right; left; reflexivity).
  split; [exact H|].
  destruct (removal_is_last_and_follows_the_update (Demo.platform NoFault) Demo.clock
              Demo.registry Demo.failed_serial Demo.spare_serial "N_2" "1001"
              (initial Demo.start) "1001" "N_2" Demo.failed_serial (Ok tt) H)
    as (Hlast & Hcfg & _).
  exact (conj Hlast Hcfg).
Defined.

Lemma optional_requests_do_not_abort_witness :
  In (XUpdateRadioSettings "1001" "N_2" Demo.spare_serial "rfProfile:indoor"
        (Throw Demo.rate_limited))
     (log_of (Demo.replace_with Demo.RadioPutFails))
  /\ exists r,
       In (XRemoveDevice "1001" "N_2" Demo.failed_serial r)
          (log_of (Demo.replace_with Demo.RadioPutFails)).
Proof.
  assert (H : In (XUpdateRadioSettings "1001" "N_2" Demo.spare_serial
                    "rfProfile:indoor" (Throw Demo.rate_limited))
                 (log_of (Demo.replace_with Demo.RadioPutFails)))
    by (vm_compute; do 5 right; left; reflexivity).
  split; [exact H|].
  destruct (optional_requests_do_not_abort (Demo.platform_with Demo.RadioPutFails)
              Demo.clock Demo.registry Demo.failed_serial Demo.spare_serial
              "N_2" "1001" (initial Demo.start) _ H) as (res & _ & _ & Hput).
  destruct (Hput eq_refl) as (Hr & _). exact Hr.
Defined.

Lemma port_loop_stops_at_first_failure_witness :
  log_of (Demo.replace_with (Demo.PortPutFails "2"))
  = firstn 7 (log_of (Demo.replace_with (Demo.PortPutFails "2")))
    ++ XUpdateSwitchPort "1001" "N_2" Demo.spare_serial "2" "vlan:20"
         (Throw Demo.server_error)
    :: skipn 8 (log_of (Demo.replace_with (Demo.PortPutFails "2")))
  /\ exists r,
       skipn 8 (log_of (Demo.replace_with (Demo.PortPutFails "2")))
       = [XRemoveDevice "1001" "N_2" Demo.failed_serial r].
Proof.
  assert (H : log_of (Demo.replace_with (Demo.PortPutFails "2"))
              = firstn 7 (log_of (Demo.replace_with (Demo.PortPutFails "2")))
                ++ XUpdateSwitchPort "1001" "N_2" Demo.spare_serial "2" "vlan:20"
                     (Throw Demo.server_error)
                :: skipn 8 (log_of (Demo.replace_with (Demo.PortPutFails "2"))))
    by (vm_compute; reflexivity).
  split; [exact H|].
  exact (port_loop_stops_at_first_failure (Demo.platform_with (Demo.PortPutFails "2"))
           Demo.clock Demo.registry Demo.failed_serial Demo.spare_serial
           "N_2" "1001" (initial Demo.start) _ "2" "vlan:20" Demo.server_error _ H).
Defined.

Lemma summary_lists_what_was_read_witness :
  exists res sm,
    res_of (Demo.replace_with Demo.RadioPutFails) = Ok res
    /\ summary res = Some sm
    /\ In (XUpdateRadioSettings "1001" "N_2" Demo.spare_serial "rfProfile:indoor"
             (Throw Demo.rate_limited))
          (log_of (Demo.replace_with Demo.RadioPutFails))
    /\ In "Wireless radio settings" (configurationTypes sm).
Proof.
  eassert (H1 : res_of (Demo.replace_with Demo.RadioPutFails) = Ok _)
    by (vm_compute; reflexivity).
  match type of H1 with
  | _ = Ok ?r =>
      eassert (H2 : summary r = Some _) by (vm_compute; reflexivity)
  end.
  match type of H2 with
  | summary ?r = Some ?sm => exists r, sm
  end.
  split; [exact H1|]. split; [exact H2|].
  split; [vm_compute; do 5 right; left; reflexivity|].
  apply (proj1 (summary_lists_what_was_read (Demo.platform_with Demo.RadioPutFails)
                  Demo.clock Demo.registry Demo.failed_serial Demo.spare_serial
                  "N_2" "1001" (initial Demo.start) _ _ H1 H2)).
  exists "rfProfile:indoor". vm_compute. right; left; reflexivity.
Defined.

Lemma apiKeyMasked_hides_the_middle_witness :
  apiKeyMasked "abcdef0123456789wxyz" = "abcdef...wxyz".
Proof.
  exact (apiKeyMasked_hides_the_middle "abcdef" "0123456789" "wxyz" eq_refl eq_refl).
Defined.

Lemma apiKeyMasked_shows_a_short_key_witness :
  exists tail, apiKeyMasked "abc" = "abc" +:+ "..." +:+ tail
               /\ (String.length "abc" <= 4 -> tail = "abc").
Proof.
  apply (apiKeyMasked_shows_a_short_key "abc"). cbn. lia.
Defined.


Lemma validate_route_hands_on_canonical_serials_witness :
  res_of Demo.array_validate_request
  = Ok (Status500 "Internal server error during validation")
  /\ snd (serialValidation_body (FieldArray [Demo.failed_serial])
            (FieldText Demo.spare_serial)) = []
  /\ log_of Demo.array_validate_request = [].
Proof.
  assert (H : res_of Demo.array_validate_request
              = Ok (Status500 "Internal server error during validation"))
    by (vm_compute; reflexivity).
  split; [exact H|].
  pose proof (validate_route_hands_on_canonical_serials (Demo.platform NoFault)
                Demo.registry (FieldArray [Demo.failed_serial])
                (FieldText Demo.spare_serial) (initial Demo.start)) as T.
  cbv zeta in T. rewrite H in T. destruct T as (_ & Hv & Hlog).
  exact (conj Hv Hlog).
Defined.

End MoreExamples.
